(** * media-converter: the client-side batch conversion pipeline

    A shallow embedding of the [MediaConverter] class of the browser script
    (format resolver, dimension calculator, filename pattern engine, the
    lazily loaded transcoding engine, the per-file image and video stages and
    the batch orchestrator [convertMedia]), followed by the properties of the
    specification that concern them.

    Conventions of the embedding.
    - A JavaScript string is a [string], read as its UTF-8 bytes; case
      mapping is the ASCII one and lengths count bytes, so the model is
      exact on ASCII text, and a statement that rests on case mapping is
      made for ASCII text.
    - A JavaScript number is an IEEE-754 binary64 value, [spec_float] with
      precision 53 and maximal exponent 1024, so that [/], [*] and
      [Math.round] round exactly as the script does.
    - [undefined] is [None] where a DOM element or one of its properties may
      be missing.
    - The methods of the class are functions on the record [Converter] in a
      state-and-exception monad; what the browser, the canvas and the
      transcoding engine answer is read from a [World].

    The development goes on to code around the pipeline: the arguments
    built for the transcoding engine, the choice of the files, the
    extractors of identifiers from addresses in the page script, and the
    rate limiter of the download server. *)

From Stdlib Require Import ZArith List Bool Ascii String Lia Arith.
From Stdlib Require Import DecimalString Decimal.
From Stdlib Require Import SpecFloat.
Import ListNotations.

Local Open Scope string_scope.

(** ** JavaScript strings *)

Module JsString.

Definition is_upper (c : ascii) : bool :=
  let n := nat_of_ascii c in (65 <=? n)%nat && (n <=? 90)%nat.

Definition is_lower (c : ascii) : bool :=
  let n := nat_of_ascii c in (97 <=? n)%nat && (n <=? 122)%nat.

Definition lower_char (c : ascii) : ascii :=
  if is_upper c then ascii_of_nat (nat_of_ascii c + 32) else c.

Definition upper_char (c : ascii) : ascii :=
  if is_lower c then ascii_of_nat (nat_of_ascii c - 32) else c.

Fixpoint map_string (f : ascii -> ascii) (s : string) : string :=
  match s with
  | EmptyString => EmptyString
  | String c r => String (f c) (map_string f r)
  end.

(** [s.toLowerCase()] and [s.toUpperCase()]. *)
Definition toLowerCase : string -> string := map_string lower_char.
Definition toUpperCase : string -> string := map_string upper_char.

(** [s.startsWith(p)]. *)
Definition startsWith (s p : string) : bool := String.prefix p s.

(** [s.indexOf(p)]: the first position where [p] occurs, [None] for -1. *)
Fixpoint indexOf (p s : string) : option nat :=
  if String.prefix p s then Some O
  else match s with
       | EmptyString => None
       | String _ r => option_map S (indexOf p r)
       end.

(** [s.lastIndexOf(c)] for a one-character needle, as an integer (-1 when
    the character does not occur). *)
Fixpoint lastIndexOf_from (c : ascii) (s : string) (i : Z) (found : Z) : Z :=
  match s with
  | EmptyString => found
  | String d r =>
      lastIndexOf_from c r (i + 1) (if Ascii.eqb c d then i else found)
  end.

Definition lastIndexOf (s : string) (c : ascii) : Z :=
  lastIndexOf_from c s 0 (-1).

Fixpoint drop (n : nat) (s : string) : string :=
  match n, s with
  | O, _ => s
  | S _, EmptyString => EmptyString
  | S k, String _ r => drop k r
  end.

Fixpoint take (n : nat) (s : string) : string :=
  match n, s with
  | O, _ => EmptyString
  | S _, EmptyString => EmptyString
  | S k, String c r => String c (take k r)
  end.

(** [s.substring(a, b)]: both indices are clamped to [0 .. length] and
    swapped when [a > b]. *)
Definition substring (s : string) (a b : Z) : string :=
  let len := Z.of_nat (String.length s) in
  let clamp i := Z.min (Z.max i 0) len in
  let lo := Z.min (clamp a) (clamp b) in
  let hi := Z.max (clamp a) (clamp b) in
  take (Z.to_nat (hi - lo)) (drop (Z.to_nat lo) s).

(** [s.split(c)] for a one-character separator: never the empty list. *)
Fixpoint split_acc (c : ascii) (s : string) (cur : string) : list string :=
  match s with
  | EmptyString => [cur]
  | String d r =>
      if Ascii.eqb c d then cur :: split_acc c r EmptyString
      else split_acc c r (cur ++ String d EmptyString)
  end.

Definition split (s : string) (c : ascii) : list string :=
  split_acc c s EmptyString.

(** [a.pop()] on the array that [split] just built: its last element. *)
Definition pop (l : list string) : string := List.last l EmptyString.

(** [a[0]] on such an array. *)
Definition first (l : list string) : string := List.hd EmptyString l.

(** [s.replace(/c/g, d)] for single characters. *)
Definition replaceAllChar (s : string) (c d : ascii) : string :=
  map_string (fun x => if Ascii.eqb x c then d else x) s.

(** The replacement text of [String.prototype.replace] for a string
    pattern: [$$] is a dollar, [$&] the matched text, [$`] what precedes the
    match and [$'] what follows it; with no capture group every other use of
    the dollar sign stays as it is. *)
Fixpoint getSubstitution (matched before after templ : string) : string :=
  match templ with
  | EmptyString => EmptyString
  | String "$" (String "$" r) =>
      String "$" (getSubstitution matched before after r)
  | String "$" (String "&" r) =>
      matched ++ getSubstitution matched before after r
  | String "$" (String "`" r) =>
      before ++ getSubstitution matched before after r
  | String "$" (String "'" r) =>
      after ++ getSubstitution matched before after r
  | String c r => String c (getSubstitution matched before after r)
  end.

(** [s.replace(pat, repl)] with a string pattern: only the first occurrence
    is replaced. *)
Definition replace (s pat repl : string) : string :=
  match indexOf pat s with
  | None => s
  | Some i =>
      let before := take i s in
      let after := drop (i + String.length pat) s in
      before ++ getSubstitution pat before after repl ++ after
  end.

Fixpoint repeat_char (c : ascii) (n : nat) : string :=
  match n with
  | O => EmptyString
  | S k => String c (repeat_char c k)
  end.

(** [s.padStart(n, c)] for a one-character filler. *)
Definition padStart (s : string) (n : nat) (c : ascii) : string :=
  repeat_char c (n - String.length s) ++ s.

(** [String(n)] for a non-negative integer. *)
Definition ofNat (n : nat) : string :=
  NilZero.string_of_uint (Nat.to_uint n).

(** [String(z)] for an integer. *)
Definition ofZ (z : Z) : string :=
  NilZero.string_of_int (Z.to_int z).

End JsString.

(** ** JavaScript numbers *)

Module JsNum.

Definition num : Type := spec_float.

Definition prec : Z := 53.
Definition emax : Z := 1024.

Definition NaN : num := S754_nan.
Definition ofZ (z : Z) : num := binary_normalize prec emax z 0 false.
Definition div : num -> num -> num := SFdiv prec emax.
Definition mul : num -> num -> num := SFmul prec emax.
Definition sub : num -> num -> num := SFsub prec emax.

(** ToBoolean on a number: [NaN], [+0] and [-0] are falsy. *)
Definition truthy (x : num) : bool :=
  match x with
  | S754_nan | S754_zero _ => false
  | _ => true
  end.

(** [a || b] on numbers. *)
Definition or_else (a b : num) : num := if truthy a then a else b.

(** [Math.round]: the closest integer, a tie going towards plus infinity;
    [NaN], the infinities and the zeros are returned as they are, and a
    result of zero keeps the sign of the argument. *)
Definition round (x : num) : num :=
  match x with
  | S754_finite s m e =>
      if (0 <=? e)%Z then x
      else
        let d := Z.pow 2 (- e) in
        let v := if s then Z.neg m else Z.pos m in
        let n := Z.div (2 * v + d) (2 * d) in
        if (n =? 0)%Z then S754_zero s else ofZ n
  | _ => x
  end.

(** The integer a number stands for, when it is a finite integer. *)
Definition toZ (x : num) : option Z :=
  match x with
  | S754_zero _ => Some 0%Z
  | S754_finite s m e =>
      let v := if s then Z.neg m else Z.pos m in
      if (0 <=? e)%Z then Some (v * Z.pow 2 e)%Z
      else if (Z.modulo v (Z.pow 2 (- e)) =? 0)%Z
           then Some (Z.div v (Z.pow 2 (- e))) else None
  | _ => None
  end.

Definition is_space (c : ascii) : bool :=
  let n := nat_of_ascii c in
  ((9 <=? n)%nat && (n <=? 13)%nat) || (n =? 32)%nat.

Fixpoint trim_start (s : string) : string :=
  match s with
  | String c r => if is_space c then trim_start r else s
  | EmptyString => s
  end.

Definition digit_value (radix : Z) (c : ascii) : option Z :=
  let n := Z.of_nat (nat_of_ascii c) in
  let v :=
    if ((48 <=? n) && (n <=? 57))%Z then Some (n - 48)%Z
    else if ((97 <=? n) && (n <=? 122))%Z then Some (n - 87)%Z
    else if ((65 <=? n) && (n <=? 90))%Z then Some (n - 55)%Z
    else None in
  match v with
  | Some d => if (d <? radix)%Z then Some d else None
  | None => None
  end.

(** The value of the longest prefix of digits, [None] when it is empty. *)
Fixpoint digits_prefix (radix : Z) (s : string) (acc : option Z) : option Z :=
  match s with
  | EmptyString => acc
  | String c r =>
      match digit_value radix c with
      | Some d =>
          digits_prefix radix r
            (Some (match acc with Some a => a * radix + d | None => d end)%Z)
      | None => acc
      end
  end.

(** [parseInt(v)] with no radix argument; [None] is [undefined], whose
    string form starts with no digit. *)
Definition parseInt (v : option string) : num :=
  match v with
  | None => NaN
  | Some str =>
      let s := trim_start str in
      let '(neg, s) :=
        match s with
        | String "-" r => (true, r)
        | String "+" r => (false, r)
        | _ => (false, s)
        end in
      let '(radix, s) :=
        match s with
        | String "0" (String "x" r) => (16%Z, r)
        | String "0" (String "X" r) => (16%Z, r)
        | _ => (10%Z, s)
        end in
      match digits_prefix radix s None with
      | None => NaN
      | Some n => binary_normalize prec emax (if neg then - n else n) 0 neg
      end
  end.

End JsNum.

Import JsNum.

(** ** Data model *)

(** A selected file: its name, its MIME type (the empty string when the
    browser knows none) and its bytes; [file.size] is their count. *)
Record File : Type := mkFile {
  name : string;
  type : string;
  content : list Byte.byte
}.

Definition size (f : File) : Z := Z.of_nat (List.length (content f)).

(** A value that may be something else than a string: [getFileFormat] can
    return [undefined], or a member that its lookup table inherits from
    [Object.prototype]. *)
Inductive jsval : Type :=
| JUndefined
| JString (s : string)
| JInherited (key : string).

(** The clock readings that the filename pattern engine takes:
    [new Date().toISOString()], [new Date().toTimeString()] and
    [Date.now()]. *)
Record Clock : Type := mkClock {
  isoString : string;
  timeString : string;
  nowMs : Z
}.

(** One record of [convertedMedia].  [blob] holds the bytes of the output;
    [dimensions] and [duration] hold the numbers that the script formats into
    text; an absent [isVideo] or [requiresServerConversion] is [false].  The
    data URL and the compression ratio text are left out. *)
Record Converted : Type := mkConverted {
  outName : string;
  blob : list Byte.byte;
  originalSize : Z;
  convertedSize : Z;
  format : string;
  dimensions : num * num;
  originalDimensions : option (num * num);
  duration : option num;
  isVideo : bool;
  requiresServerConversion : bool
}.

(** The convert button. *)
Record Button : Type := mkButton {
  disabled : bool;
  textContent : string;
  processing : bool
}.

(** [this.elements], together with the elements that the methods look up by
    id.  A field is [None] when the element is missing from the page; for a
    form control the field holds its [value], for the aspect-lock control
    its [checked] flag, for the progress section its [style.display], for the
    progress bar the percentage of its [style.width] and for the progress
    caption its text.  The page is static: the cached convert button and the
    one found by id are the same element. *)
Record Elements : Type := mkElements {
  convertBtn : option Button;
  mediaType : option string;
  formatSelect : option string;
  videoFormatSelect : option string;
  qualitySlider : option string;
  resizeWidth : option string;
  resizeHeight : option string;
  lockAspect : option bool;
  filenamePattern : option string;
  progressSection : option string;
  progressFill : option num;
  progressText : option string
}.

(** ** Format resolver *)

Definition object_prototype_keys : list string :=
  [ "constructor"; "hasOwnProperty"; "isPrototypeOf"; "propertyIsEnumerable";
    "toLocaleString"; "toString"; "valueOf"; "__proto__";
    "__defineGetter__"; "__defineSetter__";
    "__lookupGetter__"; "__lookupSetter__" ].

(** [formatMap[key]] for the table of [getFileFormat]. *)
Definition formatMap (key : string) : jsval :=
  if String.eqb key "jpeg" then JString "jpg"
  else if String.eqb key "svg+xml" then JString "svg"
  else if String.eqb key "x-ms-wmv" then JString "wmv"
  else if String.eqb key "quicktime" then JString "mov"
  else if existsb (String.eqb key) object_prototype_keys then JInherited key
  else JUndefined.

Definition getFileFormat (file : File) : jsval :=
  if negb (String.eqb (type file) "") then
    (* file.type.split('/')[1] *)
    let mimeFormat := nth_error (JsString.split (type file) "/") 1 in
    match mimeFormat with
    | None => JUndefined
    | Some sub =>
        match formatMap sub with
        | JUndefined => JString sub
        | v => v
        end
    end
  else
    let extension := JsString.toLowerCase (JsString.pop (JsString.split (name file) ".")) in
    if String.eqb extension "" then JString "unknown" else JString extension.

(** [mimeTypes[format] || 'image/png']: the table inherits the members of
    [Object.prototype], which are truthy. *)
Definition getMimeType (fmt : string) : jsval :=
  if String.eqb fmt "png" then JString "image/png"
  else if String.eqb fmt "jpeg" then JString "image/jpeg"
  else if String.eqb fmt "webp" then JString "image/webp"
  else if String.eqb fmt "gif" then JString "image/gif"
  else if String.eqb fmt "bmp" then JString "image/bmp"
  else if existsb (String.eqb fmt) object_prototype_keys then JInherited fmt
  else JString "image/png".

(** ** Filename pattern engine *)

Definition applyFileNamePattern (now : Clock) (pattern originalName : string)
    (index : nat) : string :=
  let nameWithoutExt :=
    JsString.substring originalName 0 (JsString.lastIndexOf originalName ".") in
  let ext := JsString.pop (JsString.split originalName ".") in
  let s := JsString.replace pattern "{name}" nameWithoutExt in
  let s := JsString.replace s "{index}"
             (JsString.padStart (JsString.ofNat (index + 1)) 3 "0") in
  let s := JsString.replace s "{format}" (JsString.toLowerCase ext) in
  let s := JsString.replace s "{original_format}" (JsString.toLowerCase ext) in
  let s := JsString.replace s "{date}"
             (JsString.first (JsString.split (isoString now) "T")) in
  let s := JsString.replace s "{time}"
             (JsString.replaceAllChar
                (JsString.first (JsString.split (timeString now) " ")) ":" "-") in
  JsString.replace s "{timestamp}" (JsString.ofZ (nowMs now)).

Definition getConvertedFileName (originalName targetFormat : string) : string :=
  let nameWithoutExt :=
    JsString.substring originalName 0 (JsString.lastIndexOf originalName ".") in
  nameWithoutExt ++ "." ++ targetFormat.

Definition truncateFileName (fileName : string) (maxLength : nat) : string :=
  if (String.length fileName <=? maxLength)%nat then fileName
  else
    let ext := JsString.pop (JsString.split fileName ".") in
    let nameWithoutExt :=
      JsString.substring fileName 0 (JsString.lastIndexOf fileName ".") in
    let truncated :=
      JsString.substring nameWithoutExt 0
        (Z.of_nat maxLength - Z.of_nat (String.length ext) - 4) in
    truncated ++ "..." ++ ext.

(** ** Dimension calculator *)

(** ToBoolean on the [value] of a control that may be missing. *)
Definition given (v : option string) : bool :=
  match v with
  | None => false
  | Some s => negb (String.eqb s "")
  end.

Definition calculateResizeDimensions (els : Elements)
    (originalWidth originalHeight : num) : num * num :=
  let widthInput := resizeWidth els in
  let heightInput := resizeHeight els in
  let width := JsNum.or_else (parseInt widthInput) originalWidth in
  let height := JsNum.or_else (parseInt heightInput) originalHeight in
  if negb (given widthInput) && negb (given heightInput) then
    (originalWidth, originalHeight)
  else
    let direct := (width, height) in
    match lockAspect els with
    | Some true =>
        let aspectRatio := JsNum.div originalWidth originalHeight in
        if given widthInput && negb (given heightInput) then
          (width, JsNum.round (JsNum.div width aspectRatio))
        else if given heightInput && negb (given widthInput) then
          (JsNum.round (JsNum.mul height aspectRatio), height)
        else direct
    | _ => direct
    end.

(** ** The converter and its surroundings *)

(** What the script asks of the transcoding engine and of the batch loop, in
    the order in which it happens.  The log is not a field of the class: it
    records the calls so that properties about them can be stated. *)
Inductive Event : Type :=
| EvFileStart (index : nat) (fileName : string)
| EvLoadEngine
| EvTranscodeBegin (fileName : string)
| EvExec (fileName : string) (targetFormat : string).

(** [this]: the fields of the class that the conversion pipeline uses, the
    notifications appended to the page (oldest first), the lines written with
    [console.error] and the log of events. *)
Record Converter : Type := mkConverter {
  selectedFiles : list File;
  convertedMedia : list Converted;
  isConverting : bool;
  ffmpegLoaded : bool;
  ffmpegLoading : bool;
  elements : Elements;
  notifications : list string;
  console : list string;
  log : list Event
}.

(** What one run of the engine on a file does. *)
Inductive Transcode : Type :=
| WriteFails                      (* reading the file or [writeFile] throws *)
| ExecFails                       (* [exec] throws *)
| ReadFails                       (* [readFile] throws *)
| OutputUnreadable (out : list Byte.byte)    (* [video.onerror] on the output *)
| Transcoded (out : list Byte.byte) (width height seconds : num).

(** What the surroundings answer. *)
Record World : Type := mkWorld {
  (** the clock read while the file of a given index is named *)
  clock : nat -> Clock;
  (** whether the load of the engine succeeds, given how many loads were
      started before *)
  engine_load : nat -> bool;
  (** what the engine does with a file and a target format, given how many
      runs were started before *)
  transcode : nat -> File -> string -> Transcode;
  (** the natural size of the decoded image, [None] when [img.onerror] fires *)
  image_load : File -> option (num * num);
  (** drawing on the canvas, [toDataURL] with the MIME type and, for a lossy
      format, the quality, and fetching the blob: the bytes, or the message of
      the error thrown *)
  image_encode : File -> num * num -> jsval -> option num -> string + list Byte.byte;
  (** width, height and duration of the original video, [None] when
      [video.onerror] fires *)
  video_probe : File -> option (num * num * num);
  (** the elapsed seconds, as [toFixed(2)] prints them *)
  elapsed : string;
  (** the message of the error that building the preview throws, if any *)
  preview_error : option string
}.

(** ** State and exceptions *)

Inductive Result (A : Type) : Type :=
| Ok (a : A)
| Throw (e : string).
Arguments Ok {A} a.
Arguments Throw {A} e.

Definition M (A : Type) : Type := Converter -> Result A * Converter.

Definition ret {A} (a : A) : M A := fun s => (Ok a, s).

Definition bind {A B} (c : M A) (k : A -> M B) : M B :=
  fun s =>
    match c s with
    | (Ok a, s') => k a s'
    | (Throw e, s') => (Throw e, s')
    end.

Definition throw {A} (e : string) : M A := fun s => (Throw e, s).

(** [try { c } catch (e) { h e }]. *)
Definition try_catch {A} (c : M A) (h : string -> M A) : M A :=
  fun s =>
    match c s with
    | (Ok a, s') => (Ok a, s')
    | (Throw e, s') => h e s'
    end.

(** [try { c } finally { f }]. *)
Definition try_finally {A} (c : M A) (f : M unit) : M A :=
  fun s =>
    match c s with
    | (r, s') =>
        match f s' with
        | (Ok _, s'') => (r, s'')
        | (Throw e, s'') => (Throw e, s'')
        end
    end.

Definition get : M Converter := fun s => (Ok s, s).
Definition modify (f : Converter -> Converter) : M unit := fun s => (Ok tt, f s).

Declare Scope js_scope.
Delimit Scope js_scope with js.
Notation "x <- c ;; k" := (bind c (fun x => k))
  (at level 61, c at next level, right associativity) : js_scope.
Notation "c ;; k" := (bind c (fun _ => k))
  (at level 61, right associativity) : js_scope.
Local Open Scope js_scope.

(** Field updates. *)
Definition set_convertedMedia (v : list Converted) (s : Converter) : Converter :=
  mkConverter (selectedFiles s) v (isConverting s) (ffmpegLoaded s)
    (ffmpegLoading s) (elements s) (notifications s) (console s) (log s).

Definition set_isConverting (v : bool) (s : Converter) : Converter :=
  mkConverter (selectedFiles s) (convertedMedia s) v (ffmpegLoaded s)
    (ffmpegLoading s) (elements s) (notifications s) (console s) (log s).

Definition set_ffmpegLoaded (v : bool) (s : Converter) : Converter :=
  mkConverter (selectedFiles s) (convertedMedia s) (isConverting s) v
    (ffmpegLoading s) (elements s) (notifications s) (console s) (log s).

Definition set_ffmpegLoading (v : bool) (s : Converter) : Converter :=
  mkConverter (selectedFiles s) (convertedMedia s) (isConverting s)
    (ffmpegLoaded s) v (elements s) (notifications s) (console s) (log s).

Definition set_elements (v : Elements) (s : Converter) : Converter :=
  mkConverter (selectedFiles s) (convertedMedia s) (isConverting s)
    (ffmpegLoaded s) (ffmpegLoading s) v (notifications s) (console s) (log s).

Definition add_notification (m : string) (s : Converter) : Converter :=
  mkConverter (selectedFiles s) (convertedMedia s) (isConverting s)
    (ffmpegLoaded s) (ffmpegLoading s) (elements s) (notifications s ++ [m])
    (console s) (log s).

Definition add_console (m : string) (s : Converter) : Converter :=
  mkConverter (selectedFiles s) (convertedMedia s) (isConverting s)
    (ffmpegLoaded s) (ffmpegLoading s) (elements s) (notifications s)
    (console s ++ [m]) (log s).

Definition add_event (e : Event) (s : Converter) : Converter :=
  mkConverter (selectedFiles s) (convertedMedia s) (isConverting s)
    (ffmpegLoaded s) (ffmpegLoading s) (elements s) (notifications s)
    (console s) (log s ++ [e]).

Definition set_convertBtn (b : option Button) (e : Elements) : Elements :=
  mkElements b (mediaType e) (formatSelect e) (videoFormatSelect e)
    (qualitySlider e) (resizeWidth e) (resizeHeight e) (lockAspect e)
    (filenamePattern e) (progressSection e) (progressFill e) (progressText e).

Definition set_progressSection (d : option string) (e : Elements) : Elements :=
  mkElements (convertBtn e) (mediaType e) (formatSelect e) (videoFormatSelect e)
    (qualitySlider e) (resizeWidth e) (resizeHeight e) (lockAspect e)
    (filenamePattern e) d (progressFill e) (progressText e).

Definition set_progressFill (p : option num) (e : Elements) : Elements :=
  mkElements (convertBtn e) (mediaType e) (formatSelect e) (videoFormatSelect e)
    (qualitySlider e) (resizeWidth e) (resizeHeight e) (lockAspect e)
    (filenamePattern e) (progressSection e) p (progressText e).

Definition set_progressText (t : option string) (e : Elements) : Elements :=
  mkElements (convertBtn e) (mediaType e) (formatSelect e) (videoFormatSelect e)
    (qualitySlider e) (resizeWidth e) (resizeHeight e) (lockAspect e)
    (filenamePattern e) (progressSection e) (progressFill e) t.

Definition count_loads (l : list Event) : nat :=
  List.length (filter (fun e => match e with EvLoadEngine => true | _ => false end) l).

Definition count_runs (l : list Event) : nat :=
  List.length (filter (fun e => match e with EvTranscodeBegin _ => true | _ => false end) l).

(** How often [exec] was called for a file. *)
Definition count_exec (fileName : string) (l : list Event) : nat :=
  List.length (filter (fun e => match e with
                               | EvExec n _ => String.eqb n fileName
                               | _ => false
                               end) l).

(** ** Methods of the class *)

Module MediaConverter.

(** The definition of [showNotification] that is in force is the last one of
    the class body: it appends an element with the message and takes no
    notice of a second argument. *)
Definition showNotification (message : string) : M unit :=
  modify (add_notification message).

Definition showError (message : string) : M unit :=
  showNotification message.

Definition setConvertButtonState (dis : bool) (text : string) : M unit :=
  modify (fun s =>
    match convertBtn (elements s) with
    | Some _ => set_elements (set_convertBtn (Some (mkButton dis text dis)) (elements s)) s
    | None => s
    end).

Definition updateProgress (percentage : num) (text : string) : M unit :=
  modify (fun s =>
    let e := elements s in
    let e := match progressFill e with
             | Some _ => set_progressFill (Some (JsNum.round percentage)) e
             | None => e
             end in
    let e := match progressText e with
             | Some _ => set_progressText (Some text) e
             | None => e
             end in
    set_elements e s).

Definition type_error : string := "TypeError".

Definition showProgressSection : M unit :=
  s <- get ;;
  match progressSection (elements s) with
  | None => throw type_error
  | Some _ =>
      modify (fun s => set_elements (set_progressSection (Some "block") (elements s)) s) ;;
      s <- get ;;
      match convertBtn (elements s) with
      | None => throw type_error
      | Some b =>
          modify (fun s =>
            set_elements
              (set_convertBtn (Some (mkButton true (textContent b) (processing b)))
                 (elements s)) s) ;;
          updateProgress (JsNum.ofZ 0) "preparing..."
      end
  end.

(** The timer that hides the section and enables the button 800 ms later is
    not part of the run. *)
Definition hideProgressSection : M unit :=
  updateProgress (JsNum.ofZ 100) "conversion complete!".

(** Building the preview cards is not modelled: the world says whether it
    throws. *)
Definition showPreviewSection (w : World) : M unit :=
  match preview_error w with
  | Some e => throw e
  | None => ret tt
  end.

(** A point where the method hands control back to the browser. *)
Definition yieldToMain : M unit := ret tt.

(** *** Loading the engine *)

(** [loadFFmpeg] up to its first [await]: either it answers at once, or it
    sets [ffmpegLoading] and starts the one load of the engine. *)
Inductive LoadEntry : Type :=
| Answered (loaded : bool)
| Started.

Definition loadFFmpeg_enter (s : Converter) : LoadEntry * Converter :=
  if ffmpegLoaded s || ffmpegLoading s then (Answered (ffmpegLoaded s), s)
  else
    let s := set_ffmpegLoading true s in
    let s := add_notification "loading video converter engine..." s in
    (Started, add_event EvLoadEngine s).

(** [loadFFmpeg] from the moment the load of the engine settles: the rest of
    the [try] block or the [catch] block, then the [finally] block. *)
Definition loadFFmpeg_settle (ok : bool) : M bool :=
  try_finally
    (try_catch
       (if ok then
          modify (set_ffmpegLoaded true) ;;
          showNotification "video converter ready! ✨" ;;
          ret true
        else throw "load failed")
       (fun e =>
          modify (add_console ("Failed to load FFmpeg: " ++ e)) ;;
          showNotification "video conversion unavailable - using fallback" ;;
          ret false))
    (modify (set_ffmpegLoading false)).

(** The whole method when nothing else runs between its two halves. *)
Definition loadFFmpeg (w : World) : M bool :=
  fun s =>
    match loadFFmpeg_enter s with
    | (Answered b, s') => (Ok b, s')
    | (Started, s') => loadFFmpeg_settle (engine_load w (count_loads (log s))) s'
    end.

(** *** Per-file stages *)

(** [this.elements.filenamePattern?.value || '{name}']. *)
Definition currentPattern (s : Converter) : string :=
  match filenamePattern (elements s) with
  | Some v => if String.eqb v "" then "{name}" else v
  | None => "{name}"
  end.

Definition convertSingleImageAsync (w : World) (file : File)
    (targetFormat : string) (quality : num) (index : nat) : M Converted :=
  match image_load w file with
  | None => throw ("failed to load image: " ++ name file)
  | Some (imgWidth, imgHeight) =>
      yieldToMain ;;
      s <- get ;;
      let dims := calculateResizeDimensions (elements s) imgWidth imgHeight in
      yieldToMain ;;
      let fileName :=
        applyFileNamePattern (clock w index) (currentPattern s) (name file) index in
      let mimeType := getMimeType targetFormat in
      let lossy := String.eqb targetFormat "jpeg" || String.eqb targetFormat "webp" in
      match image_encode w file dims mimeType (if lossy then Some quality else None) with
      | inl e =>
          modify (add_console ("Conversion error for " ++ name file ++ ": " ++ e)) ;;
          throw ("failed to convert " ++ name file ++ ": " ++ e)
      | inr out =>
          ret (mkConverted
                 (getConvertedFileName fileName targetFormat)
                 out
                 (size file)
                 (Z.of_nat (List.length out))
                 (JsString.toUpperCase targetFormat)
                 dims
                 (Some (imgWidth, imgHeight))
                 None
                 false
                 false)
      end
  end.

(** The record that the transcoding path builds from the output of the
    engine. *)
Definition transcodedResult (fileName targetFormat : string) (file : File)
    (out : list Byte.byte) (vw vh secs : num) : Converted :=
  mkConverted
    (getConvertedFileName fileName targetFormat)
    out
    (size file)
    (Z.of_nat (List.length out))
    (JsString.toUpperCase targetFormat)
    (JsNum.round vw, JsNum.round vh)
    None
    (Some (JsNum.round secs))
    true
    false.

(** The result is [None] for [null].  The lines written with [console.log]
    and the best-effort deletion of the two working files, whose failure is
    only a warning, are left out. *)
Definition convertVideoWithFFmpeg (w : World) (file : File)
    (targetFormat : string) (index : nat) : M (option Converted) :=
  try_catch
    (s <- get ;;
     proceed <- (if negb (ffmpegLoaded s) then loadFFmpeg w else ret true) ;;
     if negb proceed then ret None
     else
       yieldToMain ;;
       s <- get ;;
       let run := transcode w (count_runs (log s)) file targetFormat in
       modify (add_event (EvTranscodeBegin (name file))) ;;
       match run with
       | WriteFails => throw "write failed"
       | ExecFails =>
           modify (add_event (EvExec (name file) targetFormat)) ;;
           throw "exec failed"
       | ReadFails =>
           modify (add_event (EvExec (name file) targetFormat)) ;;
           throw "read failed"
       | OutputUnreadable _ =>
           modify (add_event (EvExec (name file) targetFormat)) ;;
           ret None
       | Transcoded out vw vh secs =>
           modify (add_event (EvExec (name file) targetFormat)) ;;
           s <- get ;;
           let fileName :=
             applyFileNamePattern (clock w index) (currentPattern s) (name file) index in
           ret (Some (transcodedResult fileName targetFormat file out vw vh secs))
       end)
    (fun e =>
       modify (add_console ("FFmpeg conversion error for " ++ name file ++ ": " ++ e)) ;;
       ret None).

(** The record that the rename-only path builds from the original file. *)
Definition fallbackResult (fileName targetFormat : string) (file : File)
    (vw vh secs : num) : Converted :=
  mkConverted
    (getConvertedFileName fileName targetFormat)
    (content file)
    (size file)
    (size file)
    (JsString.toUpperCase targetFormat)
    (JsNum.round vw, JsNum.round vh)
    None
    (Some (JsNum.round secs))
    true
    true.

Definition convertSingleVideoAsync (w : World) (file : File)
    (targetFormat : string) (index : nat) : M (option Converted) :=
  probe <- convertVideoWithFFmpeg w file targetFormat index ;;
  match probe with
  | Some _ => convertVideoWithFFmpeg w file targetFormat index
  | None =>
      yieldToMain ;;
      s <- get ;;
      let fileName :=
        applyFileNamePattern (clock w index) (currentPattern s) (name file) index in
      match video_probe w file with
      | Some (vw, vh, secs) =>
          ret (Some (fallbackResult fileName targetFormat file vw vh secs))
      | None => throw ("failed to load video: " ++ name file)
      end
  end.

(** *** The batch orchestrator *)

(** What became of one file of the batch: a record was pushed and
    [successCount] incremented, or the stage returned no record and nothing
    was counted, or the stage threw and [failureCount] was incremented. *)
Inductive FileOutcome : Type :=
| Succeeded
| NotCounted
| Failed.

(** The body of the [for] loop up to the yield: the inner [try]/[catch]. *)
Definition processFile (w : World) (fmt : string) (quality : num)
    (i : nat) (file : File) : M FileOutcome :=
  try_catch
    (convertedOne <-
       (if JsString.startsWith (type file) "image/" then
          c <- convertSingleImageAsync w file fmt quality i ;; ret (Some c)
        else if JsString.startsWith (type file) "video/" then
          convertSingleVideoAsync w file fmt i
        else ret None) ;;
     match convertedOne with
     | Some c =>
         modify (fun s => set_convertedMedia (convertedMedia s ++ [c]) s) ;;
         ret Succeeded
     | None => ret NotCounted
     end)
    (fun e =>
       modify (add_console ("Failed to convert " ++ name file ++ ": " ++ e)) ;;
       ret Failed).

(** The percentage and the caption that the loop shows for the file of
    index [i]. *)
Definition progressPercent (i total : nat) : num :=
  JsNum.mul (JsNum.div (JsNum.ofZ (Z.of_nat (i + 1))) (JsNum.ofZ (Z.of_nat total)))
            (JsNum.ofZ 100).

Definition progressCaption (i total : nat) (file : File) : string :=
  "processing " ++ JsString.ofNat (i + 1) ++ "/" ++ JsString.ofNat total
    ++ ": " ++ truncateFileName (name file) 30.

(** The [for] loop from index [i] on, [files] being the files not yet
    processed; it returns [successCount] and [failureCount]. *)
Fixpoint batchLoop (w : World) (fmt : string) (quality : num) (total : nat)
    (files : list File) (i successCount failureCount : nat) : M (nat * nat) :=
  match files with
  | [] => ret (successCount, failureCount)
  | file :: rest =>
      updateProgress (progressPercent i total) (progressCaption i total file) ;;
      modify (add_event (EvFileStart i (name file))) ;;
      o <- processFile w fmt quality i file ;;
      yieldToMain ;;
      match o with
      | Succeeded => batchLoop w fmt quality total rest (S i) (S successCount) failureCount
      | NotCounted => batchLoop w fmt quality total rest (S i) successCount failureCount
      | Failed => batchLoop w fmt quality total rest (S i) successCount (S failureCount)
      end
  end.

(** How a call of [convertMedia] ends.  The method itself returns nothing;
    the two counters are its local variables at the end of the loop. *)
Inductive RunOutcome : Type :=
| NoFilesSelected
| AlreadyInProgress
| BatchCompleted (successCount failureCount : nat)
| BatchFailed (e : string).

Definition value_of (control : option string) : M string :=
  match control with
  | Some v => ret v
  | None => throw type_error
  end.

Definition summaryText (w : World) (successCount failureCount : nat) : string :=
  "converted " ++ JsString.ofNat successCount ++ " file"
    ++ (if (successCount =? 1)%nat then "" else "s")
    ++ " in " ++ elapsed w ++ "s"
    ++ (if (0 <? failureCount)%nat
        then " (" ++ JsString.ofNat failureCount ++ " failed)" else "").

(** The body of [convertMedia] between [this.isConverting = true] and the
    outer [try]: the settings are read from the page, the engine is loaded
    when the selection holds a video, and the page is put in its converting
    state.  It returns the target format and the quality. *)
Definition convertMedia_setup (w : World) : M (string * num) :=
  s <- get ;;
  mediaTypeValue <- value_of (mediaType (elements s)) ;;
  fmt <- (if String.eqb mediaTypeValue "video"
          then value_of (videoFormatSelect (elements s))
          else value_of (formatSelect (elements s))) ;;
  qualityValue <- value_of (qualitySlider (elements s)) ;;
  let quality := JsNum.div (parseInt (Some qualityValue)) (JsNum.ofZ 100) in
  let hasVideoFiles :=
    existsb (fun f => JsString.startsWith (type f) "video/") (selectedFiles s) in
  (if hasVideoFiles && negb (ffmpegLoaded s) then
     showNotification "preparing video converter... please wait" ;;
     loaded <- loadFFmpeg w ;;
     if negb loaded
     then showNotification "video conversion unavailable - will rename only"
     else ret tt
   else ret tt) ;;
  setConvertButtonState true "converting..." ;;
  showProgressSection ;;
  modify (set_convertedMedia []) ;;
  ret (fmt, quality).

(** The outer [try]/[catch]/[finally] of [convertMedia]. *)
Definition convertMedia_batch (w : World) (fmt : string) (quality : num)
    : M RunOutcome :=
  try_finally
    (try_catch
       (s <- get ;;
        counts <- batchLoop w fmt quality (List.length (selectedFiles s))
                    (selectedFiles s) 0 0 0 ;;
        hideProgressSection ;;
        showPreviewSection w ;;
        showNotification (summaryText w (fst counts) (snd counts)) ;;
        ret (BatchCompleted (fst counts) (snd counts)))
       (fun e =>
          modify (add_console ("Conversion error: " ++ e)) ;;
          showError "conversion failed. please try again." ;;
          hideProgressSection ;;
          ret (BatchFailed e)))
    (modify (set_isConverting false) ;;
     setConvertButtonState false "convert").

(** The method, run without another task of the page touching the converter
    between its steps. *)
Definition convertMedia (w : World) : M RunOutcome :=
  s <- get ;;
  if (List.length (selectedFiles s) =? 0)%nat then
    showError "please select files first" ;; ret NoFilesSelected
  else if isConverting s then
    showNotification "conversion already in progress" ;; ret AlreadyInProgress
  else
    modify (set_isConverting true) ;;
    settings <- convertMedia_setup w ;;
    convertMedia_batch w (fst settings) (snd settings).

End MediaConverter.

Import MediaConverter.

(** ** Calls of [loadFFmpeg] that overlap *)

(** [loadFFmpeg] suspends while the engine loads, and other tasks of the page
    may call it meanwhile.  The system below keeps the converter together
    with the number of engine loads that have started and not yet settled; a
    task either calls [loadFFmpeg], which runs up to its first [await], or a
    load that is in flight settles and the call that started it runs to its
    end. *)
Module LoadProtocol.

Record Sys : Type := mkSys {
  this : Converter;
  inFlight : nat
}.

Inductive Action : Type :=
| Request
| Settle (ok : bool).

Inductive Observation : Type :=
| Returned (loaded : bool)      (* the call returned at once *)
| LoadStarted                   (* the call started a load and is suspended *)
| LoadFinished (r : Result bool). (* the suspended call returned *)

Definition step (a : Action) (sys : Sys) : option (Observation * Sys) :=
  match a with
  | Request =>
      match loadFFmpeg_enter (this sys) with
      | (Answered b, s') => Some (Returned b, mkSys s' (inFlight sys))
      | (Started, s') => Some (LoadStarted, mkSys s' (S (inFlight sys)))
      end
  | Settle ok =>
      match inFlight sys with
      | O => None
      | S n =>
          let '(r, s') := loadFFmpeg_settle ok (this sys) in
          Some (LoadFinished r, mkSys s' n)
      end
  end.

Fixpoint run (acts : list Action) (sys : Sys) : option (list Observation * Sys) :=
  match acts with
  | [] => Some ([], sys)
  | a :: rest =>
      match step a sys with
      | None => None
      | Some (o, sys') =>
          match run rest sys' with
          | None => None
          | Some (os, sys'') => Some (o :: os, sys'')
          end
      end
  end.

(** The flags agree with the loads in flight. *)
Definition consistent (sys : Sys) : Prop :=
  inFlight sys = (if ffmpegLoading (this sys) then 1 else 0)
  /\ (ffmpegLoading (this sys) = true -> ffmpegLoaded (this sys) = false).

End LoadProtocol.

(** ** Notions used in the statements *)

(** The converter as the constructor leaves it, on a given page. *)
Definition new_converter (page : Elements) : Converter :=
  mkConverter [] [] false false false page [] [] [].

Fixpoint contains_char (c : ascii) (s : string) : bool :=
  match s with
  | EmptyString => false
  | String d r => Ascii.eqb c d || contains_char c r
  end.

(** The alias table of the resolver as the code has it: [jpeg] becomes
    [jpg]. *)
Definition canonical_format (subtype : string) : string :=
  if String.eqb subtype "jpeg" then "jpg"
  else if String.eqb subtype "svg+xml" then "svg"
  else if String.eqb subtype "x-ms-wmv" then "wmv"
  else if String.eqb subtype "quicktime" then "mov"
  else subtype.

(** A number that is a positive integer. *)
Definition positive_integer (x : num) : Prop :=
  exists p : positive, JsNum.toZ x = Some (Z.pos p).

(** The aspect lock is on and exactly one of the two targets is given: the
    case in which one side is derived from the other. *)
Definition derives_a_side (els : Elements) : bool :=
  match lockAspect els with
  | Some true => xorb (given (resizeWidth els)) (given (resizeHeight els))
  | _ => false
  end.

Definition is_video (f : File) : bool := JsString.startsWith (type f) "video/".
Definition is_image (f : File) : bool := JsString.startsWith (type f) "image/".

(** The page has the controls that [convertMedia] reads and shows before it
    enters its [try] block. *)
Definition page_ready (e : Elements) : Prop :=
  mediaType e <> None /\ formatSelect e <> None /\ videoFormatSelect e <> None
  /\ qualitySlider e <> None /\ progressSection e <> None /\ convertBtn e <> None.

(** [r] is the record of the rename-only path for the file [f]: the bytes of
    the file as they are, both sizes equal to the size of the file, the
    metadata probed from the file, and the flag that asks for a conversion on
    a server. *)
Definition passthrough_of (w : World) (f : File) (r : Converted) : Prop :=
  blob r = content f
  /\ originalSize r = size f
  /\ convertedSize r = originalSize r
  /\ requiresServerConversion r = true
  /\ isVideo r = true
  /\ exists vw vh secs,
       video_probe w f = Some (vw, vh, secs)
       /\ dimensions r = (JsNum.round vw, JsNum.round vh)
       /\ duration r = Some (JsNum.round secs).

(** The events that come from the engine, as opposed to the loop. *)
Definition is_engine_event (e : Event) : bool :=
  match e with
  | EvFileStart _ _ => false
  | _ => true
  end.

(** The files that the loop started on, in the order of the log. *)
Definition file_starts (l : list Event) : list (nat * string) :=
  flat_map (fun e => match e with
                     | EvFileStart i n => [(i, n)]
                     | _ => []
                     end) l.

(** The indices and names of a list of files, counted from [i]. *)
Fixpoint numbered (i : nat) (files : list File) : list (nat * string) :=
  match files with
  | [] => []
  | f :: rest => (i, name f) :: numbered (S i) rest
  end.

(** A method keeps a property of the converter when the property holds after
    the method whenever it held before, however the method ends. *)
Definition keeps (I : Converter -> Prop) {A} (c : M A) : Prop :=
  forall s, I s -> I (snd (c s)).

(** ** Sample inputs *)

(** A clock that reads 2 November 2026, 10:20:30 UTC. *)
Definition sample_clock : Clock :=
  mkClock "2026-11-02T10:20:30.000Z"
          "10:20:30 GMT+0000 (Coordinated Universal Time)"
          1793614830000.

(** A page on which only the resize controls are present. *)
Definition resize_page (w h : option string) (lock : option bool) : Elements :=
  mkElements None None None None None w h lock None None None None.

(** A page with every control, set for a conversion of videos to MP4; the
    resize controls and the pattern control are not among the cached
    elements, as in the script. *)
Definition sample_page : Elements :=
  mkElements (Some (mkButton false "convert" false))
    (Some "video") (Some "webp") (Some "mp4") (Some "85")
    None None None None
    (Some "none") (Some (JsNum.ofZ 0)) (Some "").

Definition sample_video : File :=
  mkFile "clip.avi" "video/avi" [Byte.x52; Byte.x49; Byte.x46; Byte.x46].

Definition sample_image : File :=
  mkFile "pic.png" "image/png" [Byte.x89; Byte.x50; Byte.x4e].

(** A world in which every request to the browser and the engine succeeds. *)
Definition obliging_world : World :=
  mkWorld (fun _ => sample_clock)
    (fun _ => true)
    (fun _ _ _ => Transcoded [Byte.x00; Byte.x01] (JsNum.ofZ 640) (JsNum.ofZ 480) (JsNum.ofZ 3))
    (fun _ => Some (JsNum.ofZ 640, JsNum.ofZ 480))
    (fun _ _ _ _ => inr [Byte.x00])
    (fun _ => Some (JsNum.ofZ 640, JsNum.ofZ 480, JsNum.ofZ 3))
    "0.01"
    None.

(** The same world, except that the engine transcodes once and fails from
    its second run on. *)
Definition flaky_world : World :=
  mkWorld (clock obliging_world)
    (engine_load obliging_world)
    (fun k f t => match k with
                  | O => transcode obliging_world k f t
                  | S _ => ExecFails
                  end)
    (image_load obliging_world)
    (image_encode obliging_world)
    (video_probe obliging_world)
    (elapsed obliging_world)
    (preview_error obliging_world).

(** The same world, except that the engine never loads. *)
Definition engineless_world : World :=
  mkWorld (clock obliging_world)
    (fun _ => false)
    (transcode obliging_world)
    (image_load obliging_world)
    (image_encode obliging_world)
    (video_probe obliging_world)
    (elapsed obliging_world)
    (preview_error obliging_world).

(** The same world as the obliging one, except that building the preview
    throws. *)
Definition previewless_world : World :=
  mkWorld (clock obliging_world)
    (engine_load obliging_world)
    (transcode obliging_world)
    (image_load obliging_world)
    (image_encode obliging_world)
    (video_probe obliging_world)
    (elapsed obliging_world)
    (Some "imagesContainer is null").

(** The same world as the obliging one, except that the first load of the
    engine fails and the later ones succeed. *)
Definition late_engine_world : World :=
  mkWorld (clock obliging_world)
    (fun k => match k with O => false | S _ => true end)
    (transcode obliging_world)
    (image_load obliging_world)
    (image_encode obliging_world)
    (video_probe obliging_world)
    (elapsed obliging_world)
    (preview_error obliging_world).

(** The sample page without its progress section. *)
Definition page_without_progress : Elements :=
  set_progressSection None sample_page.

(** The sample page without its quality slider. *)
Definition page_without_slider : Elements :=
  mkElements (convertBtn sample_page) (mediaType sample_page)
    (formatSelect sample_page) (videoFormatSelect sample_page) None
    (resizeWidth sample_page) (resizeHeight sample_page) (lockAspect sample_page)
    (filenamePattern sample_page) (progressSection sample_page)
    (progressFill sample_page) (progressText sample_page).

(** A converter with the given selection, idle, on the sample page. *)
Definition idle_converter (files : list File) (engineLoaded : bool) : Converter :=
  mkConverter files [] false engineLoaded false sample_page [] [] [].

(** ** Arguments for the transcoding engine *)

(** One argument of the engine's command line: a text, or the text that
    [String] gives for a number. *)
Inductive Arg : Type :=
| Text (s : string)
| Num (x : num).

(** The decimal literal [n / 100] of the script: the double nearest to it,
    which is what the division of the two integers rounds to. *)
Definition hundredths (n : Z) : num := JsNum.div (JsNum.ofZ n) (JsNum.ofZ 100).

(** [parseInt(this.elements.qualitySlider?.value || 85)]. *)
Definition sliderQuality (els : Elements) : num :=
  parseInt (Some (match qualitySlider els with
                  | Some v => if String.eqb v "" then "85" else v
                  | None => "85"
                  end)).

(** [String(Math.round(top - quality * step))]. *)
Definition qualityFactor (top : Z) (step : num) (quality : num) : Arg :=
  Num (JsNum.round (JsNum.sub (JsNum.ofZ top) (JsNum.mul quality step))).

(** The arguments that the [switch] pushes for a target format. *)
Definition codecArgs (quality : num) (lowered : string) : list Arg :=
  if String.eqb lowered "mp4" then
    [Text "-c:v"; Text "libx264"; Text "-preset"; Text "medium";
     Text "-crf"; qualityFactor 51 (hundredths 51) quality;
     Text "-c:a"; Text "aac"; Text "-b:a"; Text "128k"]
  else if String.eqb lowered "webm" then
    [Text "-c:v"; Text "libvpx-vp9";
     Text "-crf"; qualityFactor 63 (hundredths 63) quality;
     Text "-b:v"; Text "0"; Text "-c:a"; Text "libopus"; Text "-b:a"; Text "128k"]
  else if String.eqb lowered "avi" then
    [Text "-c:v"; Text "mpeg4";
     Text "-q:v"; qualityFactor 31 (hundredths 29) quality;
     Text "-c:a"; Text "mp3"; Text "-b:a"; Text "128k"]
  else if String.eqb lowered "mov" then
    [Text "-c:v"; Text "libx264"; Text "-preset"; Text "medium";
     Text "-crf"; qualityFactor 51 (hundredths 51) quality;
     Text "-c:a"; Text "aac"; Text "-b:a"; Text "128k";
     Text "-movflags"; Text "+faststart"]
  else
    [Text "-c:v"; Text "libx264"; Text "-c:a"; Text "aac"].

(** [v || -1] inside the template of the scale filter. *)
Definition or_auto (v : option string) : string :=
  match v with
  | Some s => if String.eqb s "" then "-1" else s
  | None => "-1"
  end.

Definition buildFFmpegArgs (els : Elements)
    (inputName outputName targetFormat : string) : list Arg :=
  let args := [Text "-i"; Text inputName] in
  let quality := sliderQuality els in
  let args := (args ++ codecArgs quality (JsString.toLowerCase targetFormat))%list in
  let widthInput := resizeWidth els in
  let heightInput := resizeHeight els in
  let args :=
    if given widthInput || given heightInput then
      (args ++ [Text "-vf";
                Text ("scale=" ++ or_auto widthInput ++ ":" ++ or_auto heightInput)])%list
    else args in
  (args ++ [Text "-y"; Text outputName])%list.

(** The numbers among the arguments. *)
Definition numbers (args : list Arg) : list num :=
  flat_map (fun a => match a with Num x => [x] | Text _ => [] end) args.

(** A page on which only the quality slider is present. *)
Definition quality_page (v : string) : Elements :=
  mkElements None None None None (Some v) None None None None None None None.

(** ** The records of a run *)

(** The target format that [convertMedia] reads from the page: the value of
    the video format control when the media type is [video], of the image
    format control otherwise. *)
Definition targetFormatOf (els : Elements) : option string :=
  match mediaType els with
  | Some m => if String.eqb m "video" then videoFormatSelect els else formatSelect els
  | None => None
  end.

Definition present {A} (control : option A) : bool :=
  match control with
  | Some _ => true
  | None => false
  end.

(** The page has the controls that [convertMedia] dereferences before its
    [try] block: the media type, the format control in use, the quality
    slider, the progress section and the convert button. *)
Definition controls_present (els : Elements) : bool :=
  present (targetFormatOf els) && present (qualitySlider els)
  && present (progressSection els) && present (convertBtn els).

(** [c] is a record made from the file [f] at index [i] of the selection. *)
Definition record_of (w : World) (pattern fmt : string) (i : nat) (f : File)
    (c : Converted) : Prop :=
  outName c
  = getConvertedFileName (applyFileNamePattern (clock w i) pattern (name f) i) fmt
  /\ originalSize c = size f
  /\ format c = JsString.toUpperCase fmt
  /\ isVideo c = is_video f.

(** The records are made from files of the selection, in the order of the
    selection, at most one from each file; [i] is the index of the first
    file. *)
Inductive records_of (w : World) (pattern fmt : string)
    : nat -> list File -> list Converted -> Prop :=
| records_done (i : nat) : records_of w pattern fmt i [] []
| records_skip (i : nat) (f : File) (fs : list File) (cs : list Converted) :
    records_of w pattern fmt (S i) fs cs ->
    records_of w pattern fmt i (f :: fs) cs
| records_push (i : nat) (f : File) (fs : list File) (c : Converted)
    (cs : list Converted) :
    record_of w pattern fmt i f c ->
    records_of w pattern fmt (S i) fs cs ->
    records_of w pattern fmt i (f :: fs) (c :: cs).

(** The loads of the engine that ended with the engine loaded. *)
Definition completed_loads (os : list LoadProtocol.Observation) : nat :=
  List.length (filter (fun o => match o with
                               | LoadProtocol.LoadFinished (Ok true) => true
                               | _ => false
                               end) os).

(** ** Regular expressions of the page script *)

Module JsRegExp.

(** The patterns that the page script builds: literal text, a character
    class repeated once or more (greedily) or a fixed number of times,
    sequence, alternative, a numbered capturing group and the two anchors
    (none of the patterns has a flag). *)
Inductive re : Type :=
| Lit (s : string)
| OneOrMore (p : ascii -> bool)
| Exactly (n : nat) (p : ascii -> bool)
| Seq (a b : re)
| Alt (a b : re)
| Group (i : nat) (a : re)
| Bol
| Eol.

Definition Captures : Type := list (nat * string).

(** The number of characters at the start of [s] that are in the class. *)
Fixpoint run (p : ascii -> bool) (s : string) : nat :=
  match s with
  | String c r => if p c then S (run p r) else O
  | EmptyString => O
  end.

(** The greedy choice of a repetition: the longest length first, down to
    one. *)
Fixpoint longest_first {A} (n : nat) (k : nat -> option A) : option A :=
  match n with
  | O => None
  | S m => match k n with
           | Some a => Some a
           | None => longest_first m k
           end
  end.

(** The backtracking matcher.  [matches r pos rest caps k] matches [r] at the
    position [pos] of the input, [rest] being the input from there on, and
    hands the position reached, the input left and the captures to [k]; when
    [k] fails, the next alternative or a shorter repetition is tried. *)
Fixpoint matches (r : re) (pos : nat) (rest : string) (caps : Captures)
    (k : nat -> string -> Captures -> option Captures) : option Captures :=
  match r with
  | Lit l =>
      if String.prefix l rest
      then k (pos + String.length l) (JsString.drop (String.length l) rest) caps
      else None
  | OneOrMore p =>
      longest_first (run p rest) (fun n => k (pos + n) (JsString.drop n rest) caps)
  | Exactly n p =>
      if (n <=? run p rest)%nat
      then k (pos + n) (JsString.drop n rest) caps
      else None
  | Seq a b =>
      matches a pos rest caps (fun pos' rest' caps' => matches b pos' rest' caps' k)
  | Alt a b =>
      match matches a pos rest caps k with
      | Some c => Some c
      | None => matches b pos rest caps k
      end
  | Group i a =>
      matches a pos rest caps
        (fun pos' rest' caps' => k pos' rest' ((i, JsString.take (pos' - pos) rest) :: caps'))
  | Bol => if (pos =? 0)%nat then k pos rest caps else None
  | Eol =>
      match rest with
      | EmptyString => k pos rest caps
      | String _ _ => None
      end
  end.

(** The leftmost match from the position [pos] on. *)
Fixpoint exec_from (r : re) (pos : nat) (rest : string) : option Captures :=
  match matches r pos rest [] (fun _ _ caps => Some caps) with
  | Some caps => Some caps
  | None =>
      match rest with
      | EmptyString => None
      | String _ rest' => exec_from r (S pos) rest'
      end
  end.

(** [s.match(r)]: the captures of the leftmost match, [None] for [null]. *)
Definition exec (r : re) (s : string) : option Captures := exec_from r 0 s.

(** [match[i]] for a capturing group. *)
Definition group (i : nat) (caps : Captures) : jsval :=
  match find (fun c => (fst c =? i)%nat) caps with
  | Some c => JString (snd c)
  | None => JUndefined
  end.

End JsRegExp.

(** ** Identifiers in the addresses of videos and posts *)

(** The loop of both extractors: the first pattern of the list that matches
    somewhere in the address gives the result, its first group; [None] is
    [null]. *)
Fixpoint firstGroupOf (patterns : list JsRegExp.re) (url : string) : option jsval :=
  match patterns with
  | [] => None
  | pattern :: rest =>
      match JsRegExp.exec pattern url with
      | Some m => Some (JsRegExp.group 1 m)
      | None => firstGroupOf rest url
      end
  end.

Definition is_digit (c : ascii) : bool :=
  let n := nat_of_ascii c in (48 <=? n)%nat && (n <=? 57)%nat.

(** The class [[^&\n?#]]. *)
Definition video_id_tail (c : ascii) : bool :=
  negb (Ascii.eqb c "&" || Ascii.eqb c "010" || Ascii.eqb c "?" || Ascii.eqb c "#").

(** The class [[a-zA-Z0-9_-]]. *)
Definition video_id_char (c : ascii) : bool :=
  JsString.is_lower c || JsString.is_upper c || is_digit c
  || Ascii.eqb c "_" || Ascii.eqb c "-".

(** The class [[^/]]. *)
Definition not_slash (c : ascii) : bool := negb (Ascii.eqb c "/").

Definition video_markers : list string :=
  ["youtube.com/watch?v="; "youtu.be/"; "youtube.com/embed/"].

Definition videoUrlPattern : JsRegExp.re :=
  JsRegExp.Seq
    (JsRegExp.Alt (JsRegExp.Lit "youtube.com/watch?v=")
       (JsRegExp.Alt (JsRegExp.Lit "youtu.be/") (JsRegExp.Lit "youtube.com/embed/")))
    (JsRegExp.Group 1 (JsRegExp.OneOrMore video_id_tail)).

Definition videoIdPattern : JsRegExp.re :=
  JsRegExp.Seq JsRegExp.Bol
    (JsRegExp.Seq (JsRegExp.Group 1 (JsRegExp.Exactly 11 video_id_char)) JsRegExp.Eol).

Definition extractVideoId (url : string) : option jsval :=
  firstGroupOf [videoUrlPattern; videoIdPattern] url.

(** The pattern [instagram\.com\/<kind>\/([^/]+)]. *)
Definition instagramPattern (kind : string) : JsRegExp.re :=
  JsRegExp.Seq (JsRegExp.Lit ("instagram.com/" ++ kind ++ "/"))
    (JsRegExp.Group 1 (JsRegExp.OneOrMore not_slash)).

Definition instagramStoryPattern : JsRegExp.re :=
  JsRegExp.Seq (JsRegExp.Lit "instagram.com/stories/")
    (JsRegExp.Seq (JsRegExp.Group 1 (JsRegExp.OneOrMore not_slash))
       (JsRegExp.Seq (JsRegExp.Lit "/")
          (JsRegExp.Group 2 (JsRegExp.OneOrMore not_slash)))).

Definition extractInstagramId (url : string) : option jsval :=
  firstGroupOf [instagramPattern "p"; instagramPattern "reel"; instagramPattern "tv";
                instagramStoryPattern] url.

(** Every character of the string is in the class. *)
Fixpoint every_char (p : ascii -> bool) (s : string) : bool :=
  match s with
  | EmptyString => true
  | String c r => p c && every_char p r
  end.

(** A character of ASCII: on a text of such characters [toLowerCase] and
    [toUpperCase] are the ASCII case mappings. *)
Definition is_ascii (c : ascii) : bool := (nat_of_ascii c <? 128)%nat.

(** ** Choosing the files *)

(** The parts of the page that the methods for choosing files touch and that
    the model of the conversion does not hold: for each panel whether it is
    on the page, for each of the three controls that the methods assign to
    the values that it offers ([None] for a control that takes any text),
    and the text that the engine gives for a member of [Object.prototype].
    What the methods write into the panels (markup, [style.display]) is not
    read by the script again and is left out.  The page is static: an element
    cached in [this.elements] and the one found by id are the same. *)
Record Panels : Type := mkPanels {
  uploadArea : bool;
  previewSection : bool;
  optionsSection : bool;
  imageFormats : bool;
  videoFormats : bool;
  qualityGroup : bool;
  mediaTypeOffers : option (list string);
  formatOffers : option (list string);
  videoFormatOffers : option (list string);
  memberText : string -> string
}.

(** The value that a control holds after [control.value = v]: a selection
    control without such an option is left with no option selected, and its
    value is the empty text. *)
Definition assigned (offers : option (list string)) (v : string) : string :=
  match offers with
  | None => v
  | Some options => if existsb (String.eqb v) options then v else ""
  end.

Definition set_selectedFiles (v : list File) (s : Converter) : Converter :=
  mkConverter v (convertedMedia s) (isConverting s) (ffmpegLoaded s)
    (ffmpegLoading s) (elements s) (notifications s) (console s) (log s).

Definition set_mediaType (v : option string) (e : Elements) : Elements :=
  mkElements (convertBtn e) v (formatSelect e) (videoFormatSelect e)
    (qualitySlider e) (resizeWidth e) (resizeHeight e) (lockAspect e)
    (filenamePattern e) (progressSection e) (progressFill e) (progressText e).

Definition set_formatSelect (v : option string) (e : Elements) : Elements :=
  mkElements (convertBtn e) (mediaType e) v (videoFormatSelect e)
    (qualitySlider e) (resizeWidth e) (resizeHeight e) (lockAspect e)
    (filenamePattern e) (progressSection e) (progressFill e) (progressText e).

Definition set_videoFormatSelect (v : option string) (e : Elements) : Elements :=
  mkElements (convertBtn e) (mediaType e) (formatSelect e) v
    (qualitySlider e) (resizeWidth e) (resizeHeight e) (lockAspect e)
    (filenamePattern e) (progressSection e) (progressFill e) (progressText e).

(** A property of an element is written or read: a type error when the
    element is missing. *)
Definition touch (element : bool) : M unit :=
  if element then ret tt else throw type_error.

Definition jsval_eqb (a b : jsval) : bool :=
  match a, b with
  | JUndefined, JUndefined => true
  | JString x, JString y => String.eqb x y
  | JInherited x, JInherited y => String.eqb x y
  | _, _ => false
  end.

(** [[...new Set(l)]]: the values of [l] without repetition, each at its
    first place. *)
Fixpoint unique_after (seen l : list jsval) : list jsval :=
  match l with
  | [] => []
  | x :: r =>
      if existsb (jsval_eqb x) seen then unique_after seen r
      else x :: unique_after (x :: seen) r
  end.

Definition unique (l : list jsval) : list jsval := unique_after [] l.

(** [l.join(', ')]. *)
Fixpoint join (l : list string) : string :=
  match l with
  | [] => ""
  | [x] => x
  | x :: r => x ++ ", " ++ join r
  end.

(** The text of a format inside [join]: nothing for [undefined]. *)
Definition format_text (p : Panels) (v : jsval) : string :=
  match v with
  | JUndefined => ""
  | JString s => s
  | JInherited key => memberText p key
  end.

(** A value on which [toUpperCase] can be called. *)
Definition is_text (v : jsval) : bool :=
  match v with
  | JString _ => true
  | _ => false
  end.

Definition isMediaFile (file : File) : bool :=
  JsString.startsWith (type file) "image/" || JsString.startsWith (type file) "video/".

Definition plural (n : nat) : string := if (1 <? n)%nat then "s" else "".

Definition clearSelection (p : Panels) : M unit :=
  modify (set_selectedFiles []) ;;
  modify (set_convertedMedia []) ;;
  touch (uploadArea p) ;;
  touch (previewSection p) ;;
  touch (optionsSection p).

(** The markup of the file list is left out; building it calls
    [toUpperCase] on the format of each file when there are at most five. *)
Definition showFileInfo (p : Panels) : M unit :=
  s <- get ;;
  (if (List.length (selectedFiles s) <=? 5)%nat
      && negb (forallb (fun file => is_text (getFileFormat file)) (selectedFiles s))
   then throw type_error
   else ret tt) ;;
  touch (uploadArea p).

Definition showOptionsSection (p : Panels) : M unit :=
  touch (optionsSection p).

Definition handleFormatChange (p : Panels) : M unit :=
  s <- get ;;
  match formatSelect (elements s) with
  | None => throw type_error
  | Some _ => touch (qualityGroup p)
  end.

Definition handleVideoFormatChange (p : Panels) : M unit :=
  touch (qualityGroup p).

Definition handleMediaTypeChange (p : Panels) : M unit :=
  s <- get ;;
  match mediaType (elements s) with
  | None => throw type_error
  | Some v =>
      if String.eqb v "video" then
        touch (imageFormats p) ;; touch (videoFormats p) ;; handleVideoFormatChange p
      else
        touch (imageFormats p) ;; touch (videoFormats p) ;; handleFormatChange p
  end.

(** [document.getElementById('mediaType').value = v]. *)
Definition assignMediaType (p : Panels) (v : string) : M unit :=
  s <- get ;;
  match mediaType (elements s) with
  | None => throw type_error
  | Some _ =>
      modify (fun s =>
        set_elements (set_mediaType (Some (assigned (mediaTypeOffers p) v)) (elements s)) s)
  end.

Definition suggestImageFormat (p : Panels) : M unit :=
  s <- get ;;
  let formats := map getFileFormat (selectedFiles s) in
  let uniqueFormats := unique formats in
  let suggestedFormat :=
    if existsb (jsval_eqb (JString "png")) uniqueFormats
       && (List.length formats =? 1)%nat
    then "png"
    else if forallb (fun f => existsb (jsval_eqb f) [JString "jpg"; JString "jpeg"])
              uniqueFormats
    then "jpeg"
    else "webp" in
  (match formatSelect (elements s) with
   | Some _ =>
       modify (fun s =>
         set_elements
           (set_formatSelect (Some (assigned (formatOffers p) suggestedFormat))
              (elements s)) s)
   | None => ret tt
   end) ;;
  showNotification
    ("Detected " ++ JsString.toUpperCase (join (map (format_text p) uniqueFormats))
       ++ " files - suggested output: " ++ JsString.toUpperCase suggestedFormat).

Definition suggestVideoFormat (p : Panels) : M unit :=
  s <- get ;;
  let formats := map getFileFormat (selectedFiles s) in
  let uniqueFormats := unique formats in
  let suggestedFormat := "mp4" in
  (match videoFormatSelect (elements s) with
   | Some _ =>
       modify (fun s =>
         set_elements
           (set_videoFormatSelect (Some (assigned (videoFormatOffers p) suggestedFormat))
              (elements s)) s)
   | None => ret tt
   end) ;;
  showNotification
    ("Detected " ++ JsString.toUpperCase (join (map (format_text p) uniqueFormats))
       ++ " videos - suggested output: " ++ JsString.toUpperCase suggestedFormat).

Definition updateMediaTypeBasedOnFiles (p : Panels) : M unit :=
  s <- get ;;
  let hasImages :=
    existsb (fun file => JsString.startsWith (type file) "image/") (selectedFiles s) in
  let hasVideos :=
    existsb (fun file => JsString.startsWith (type file) "video/") (selectedFiles s) in
  if hasVideos && hasImages then
    assignMediaType p "image" ;;
    handleMediaTypeChange p ;;
    showNotification
      "Mixed file types detected - convert videos and images separately for best results"
  else if hasVideos then
    assignMediaType p "video" ;;
    handleMediaTypeChange p ;;
    suggestVideoFormat p
  else
    assignMediaType p "image" ;;
    handleMediaTypeChange p ;;
    suggestImageFormat p.

(** The notices of [processFiles] about the files that it was given. *)
Definition processFiles_notices (files mediaFiles : list File) : M unit :=
  let rejectedCount := List.length files - List.length mediaFiles in
  (if (0 <? rejectedCount)%nat
   then showNotification
          (JsString.ofNat rejectedCount ++ " unsupported file" ++ plural rejectedCount
             ++ " skipped")
   else ret tt) ;;
  let totalSize := fold_left (fun sum file => sum + size file)%Z mediaFiles 0%Z in
  let largeFiles := filter (fun file => (10 * 1024 * 1024 <? size file)%Z) mediaFiles in
  (if (100 * 1024 * 1024 <? totalSize)%Z
   then showNotification "large batch detected - processing may take a while"
   else ret tt) ;;
  (if (0 <? List.length largeFiles)%nat
   then showNotification
          (JsString.ofNat (List.length largeFiles) ++ " large file"
             ++ plural (List.length largeFiles) ++ " detected - conversion may take longer")
   else ret tt).

(** The [try] block of [processFiles]. *)
Definition processFiles_body (p : Panels) (files : list File) : M unit :=
  touch (uploadArea p) ;;
  yieldToMain ;;
  let mediaFiles := filter isMediaFile files in
  if (List.length mediaFiles =? 0)%nat then
    showError
      "no valid image or video files found. supported formats: png, jpeg, webp, gif, bmp, mp4, webm, avi, mov" ;;
    clearSelection p
  else
    processFiles_notices files mediaFiles ;;
    modify (set_selectedFiles mediaFiles) ;;
    yieldToMain ;;
    showFileInfo p ;;
    yieldToMain ;;
    showOptionsSection p ;;
    yieldToMain ;;
    updateMediaTypeBasedOnFiles p.

(** The method, run without another task of the page touching the converter
    between its steps. *)
Definition processFiles (p : Panels) (files : list File) : M unit :=
  try_catch (processFiles_body p files)
    (fun e =>
       modify (add_console ("Error processing files: " ++ e)) ;;
       showError "failed to process files. please try again." ;;
       clearSelection p).

(** A page with all its panels, on which the controls take any text. *)
Definition full_panels : Panels :=
  mkPanels true true true true true true None None None (fun key => key).

(** ** The rate limiter of the download server *)

Module RateLimit.

(** A client is counted under the key [req.ip ||
    req.connection.remoteAddress], a text or [undefined], which is [None]. *)
Definition key_eqb (a b : option string) : bool :=
  match a, b with
  | Some x, Some y => String.eqb x y
  | None, None => true
  | _, _ => false
  end.

(** The map [requestCounts]: for each key that it has, the times in
    milliseconds of the requests counted for it. *)
Definition Counts : Type := option string -> option (list Z).

Definition empty : Counts := fun _ => None.

Definition set (key : option string) (v : list Z) (m : Counts) : Counts :=
  fun k => if key_eqb k key then Some v else m k.

(** The times kept for a client, none when the map has no such key. *)
Definition stored (m : Counts) (ip : option string) : list Z :=
  match m ip with
  | Some l => l
  | None => []
  end.

Definition windowMs : Z := 15 * 60 * 1000.
Definition maxRequests : nat := 100.

(** What the middleware does with a request: it hands it on, or it answers
    429 with the number of seconds to wait. *)
Inductive Answer : Type :=
| Next
| TooManyRequests (retryAfter : Z).

Definition is_next (a : Answer) : bool :=
  match a with
  | Next => true
  | TooManyRequests _ => false
  end.

(** The middleware, for a request of the client with the key [ip] at the
    time [now] that [Date.now()] gives. *)
Definition rateLimit (now : Z) (ip : option string) (requestCounts : Counts)
    : Answer * Counts :=
  let requestCounts :=
    match requestCounts ip with
    | Some _ => requestCounts
    | None => set ip [] requestCounts
    end in
  let requests :=
    filter (fun time => (now - time <? windowMs)%Z)
      (match requestCounts ip with Some l => l | None => [] end) in
  if (maxRequests <=? List.length requests)%nat then
    (TooManyRequests (windowMs / 1000), requestCounts)
  else
    (Next, set ip (requests ++ [now]) requestCounts).

(** A request as the server sees it, and what became of it. *)
Record Served : Type := mkServed {
  at_time : Z;
  client : option string;
  answer : Answer
}.

(** The requests served one after the other, from the first on. *)
Fixpoint serve (requests : list (Z * option string)) (requestCounts : Counts)
    : list Served * Counts :=
  match requests with
  | [] => ([], requestCounts)
  | (now, ip) :: rest =>
      let (a, requestCounts') := rateLimit now ip requestCounts in
      let (served, final) := serve rest requestCounts' in
      (mkServed now ip a :: served, final)
  end.

(** The requests of the client [ip] among [served] that were handed on less
    than a window before the time [t]. *)
Definition handed_on (ip : option string) (t : Z) (served : list Served) : list Served :=
  filter (fun r => key_eqb (client r) ip && is_next (answer r)
                   && (t - at_time r <? windowMs)%Z) served.

(** The clock of the server does not go back. *)
Fixpoint clock_steady (last : Z) (requests : list (Z * option string)) : Prop :=
  match requests with
  | [] => True
  | (now, _) :: rest => (last <= now)%Z /\ clock_steady now rest
  end.

End RateLimit.

(** ** Proof steps *)

(** A fact about fields that an update does not touch: take the records
    apart and compute. *)
Ltac frame_by_computation :=
  intros;
  repeat match goal with
         | s : Converter |- _ => destruct s
         | e : Elements |- _ => destruct e
         end;
  cbn in *; try assumption; try congruence.

(** ** Properties *)

(** *** Format resolver *)

Lemma split_acc_no_sep (c : ascii) (s cur : string) :
  contains_char c s = false ->
  JsString.split_acc c s cur = [cur ++ s].
Proof.
  revert cur. induction s as [|d r IH]; intros cur H; simpl in *.
  - f_equal. induction cur; simpl; congruence.
  - apply orb_false_iff in H. destruct H as [Hd Hr].
    rewrite Hd. rewrite IH by exact Hr.
    f_equal. induction cur; simpl; congruence.
Qed.

Lemma split_acc_at_sep (c : ascii) (a b cur : string) :
  contains_char c a = false ->
  JsString.split_acc c (a ++ String c b) cur
  = (cur ++ a) :: JsString.split_acc c b EmptyString.
Proof.
  revert cur. induction a as [|d r IH]; intros cur H; simpl in *.
  - rewrite Ascii.eqb_refl. f_equal. induction cur; simpl; congruence.
  - apply orb_false_iff in H. destruct H as [Hd Hr].
    rewrite Hd. rewrite IH by exact Hr.
    f_equal. induction cur; simpl; congruence.
Qed.

Lemma split_mime (category subtype : string) :
  contains_char "/" category = false ->
  contains_char "/" subtype = false ->
  JsString.split (category ++ "/" ++ subtype) "/" = [category; subtype].
Proof.
  intros Hc Hs. unfold JsString.split.
  change (category ++ "/" ++ subtype) with (category ++ String "/" subtype).
  rewrite split_acc_at_sep by exact Hc.
  rewrite split_acc_no_sep by exact Hs. reflexivity.
Qed.

Lemma mime_not_empty (category subtype : string) :
  String.eqb (category ++ "/" ++ subtype) "" = false.
Proof. destruct category; reflexivity. Qed.

Lemma split_acc_not_nil (c : ascii) (s cur : string) :
  JsString.split_acc c s cur <> [].
Proof.
  revert cur. induction s as [|d r IH]; intros cur; cbn; [discriminate|].
  destruct (Ascii.eqb c d); [discriminate | apply IH].
Qed.

Lemma last_cons_nonempty {A} (x d : A) (l : list A) :
  l <> [] -> List.last (x :: l) d = List.last l d.
Proof. destruct l; [contradiction | reflexivity]. Qed.

(** The last piece of [split] is the text after the last separator. *)
Lemma pop_split_last (c : ascii) (a b : string) :
  contains_char c b = false ->
  JsString.pop (JsString.split (a ++ String c b) c) = b.
Proof.
  intros H. unfold JsString.pop, JsString.split.
  assert (G : forall cur,
             List.last (JsString.split_acc c (a ++ String c b) cur) "" = b).
  { induction a as [|d r IH]; intros cur; cbn [append JsString.split_acc].
    - rewrite Ascii.eqb_refl. rewrite split_acc_no_sep by exact H. reflexivity.
    - destruct (Ascii.eqb c d).
      + rewrite last_cons_nonempty by apply split_acc_not_nil. apply IH.
      + apply IH. }
  apply G.
Qed.

Lemma pop_split_absent (c : ascii) (s : string) :
  contains_char c s = false ->
  JsString.pop (JsString.split s c) = s.
Proof.
  intros H. unfold JsString.pop, JsString.split.
  rewrite split_acc_no_sep by exact H. reflexivity.
Qed.

(** The last piece of [split] holds no separator. *)
Lemma pop_split_no_sep (c : ascii) (s : string) :
  contains_char c (JsString.pop (JsString.split s c)) = false.
Proof.
  unfold JsString.pop, JsString.split.
  assert (G : forall cur, contains_char c cur = false ->
                contains_char c (List.last (JsString.split_acc c s cur) "") = false).
  { induction s as [|d r IH]; intros cur Hc; cbn [JsString.split_acc].
    - exact Hc.
    - destruct (Ascii.eqb c d) eqn:E.
      + rewrite last_cons_nonempty by apply split_acc_not_nil. apply IH. reflexivity.
      + apply IH. clear IH. induction cur as [|x y IHc]; cbn in *.
        * rewrite E. reflexivity.
        * apply orb_false_iff in Hc. destruct Hc as [H1 H2].
          rewrite H1. apply IHc. exact H2. }
  apply G. reflexivity.
Qed.

Lemma toLowerCase_empty (s : string) :
  String.eqb (JsString.toLowerCase s) "" = String.eqb s "".
Proof. destruct s; reflexivity. Qed.

(** Every name ends in a text without a dot that is the whole name or
    follows its last dot. *)
Lemma last_dot (s : string) :
  exists tail,
    contains_char "." tail = false
    /\ (s = tail \/ exists stem, s = stem ++ "." ++ tail).
Proof.
  induction s as [|c r IH].
  - exists "". split; [reflexivity|left; reflexivity].
  - destruct IH as (tail & Hdot & [->|[stem ->]]).
    + destruct (Ascii.eqb "." c) eqn:E.
      * apply Ascii.eqb_eq in E. subst c.
        exists tail. split; [exact Hdot|]. right. exists "". reflexivity.
      * exists (String c tail).
        split; [cbn [contains_char]; rewrite E; exact Hdot|left; reflexivity].
    + exists tail. split; [exact Hdot|]. right. exists (String c stem). reflexivity.
Qed.

(** The resolver on a file with no MIME type, by the shape of the name. *)
Lemma getFileFormat_untyped (file : File) (tail : string) :
  type file = "" ->
  contains_char "." tail = false ->
  (name file = tail \/ exists stem, name file = stem ++ "." ++ tail) ->
  getFileFormat file
  = JString (if String.eqb tail "" then "unknown" else JsString.toLowerCase tail).
Proof.
  intros Ht Hdot Hname. unfold getFileFormat. rewrite Ht. cbn [String.eqb negb].
  assert (P : JsString.pop (JsString.split (name file) ".") = tail).
  { destruct Hname as [->|[stem ->]].
    - apply pop_split_absent. exact Hdot.
    - apply (pop_split_last "." stem tail). exact Hdot. }
  rewrite P, toLowerCase_empty. destruct (String.eqb tail ""); reflexivity.
Qed.

(** The lookup in the alias table: an alias, the inherited member for a key
    of [Object.prototype], and otherwise the subtype itself. *)
Lemma formatMap_lookup (subtype : string) :
  match formatMap subtype with
  | JUndefined => JString subtype
  | v => v
  end
  = if existsb (String.eqb subtype) object_prototype_keys
    then JInherited subtype
    else JString (canonical_format subtype).
Proof.
  unfold formatMap, canonical_format.
  destruct (String.eqb_spec subtype "jpeg") as [->|_]; [reflexivity|].
  destruct (String.eqb_spec subtype "svg+xml") as [->|_]; [reflexivity|].
  destruct (String.eqb_spec subtype "x-ms-wmv") as [->|_]; [reflexivity|].
  destruct (String.eqb_spec subtype "quicktime") as [->|_]; [reflexivity|].
  destruct (existsb (String.eqb subtype) object_prototype_keys); reflexivity.
Qed.

(** C9, as the claim states it, fails: for the MIME type [image/jpeg] the
    resolver does not answer [jpeg]. *)
Lemma getFileFormat_jpeg_not_canonical :
  getFileFormat (mkFile "photo.jpeg" "image/jpeg" []) <> JString "jpeg".
Proof. vm_compute. discriminate. Qed.

(** C9 (amended): for a file with a MIME type [category/subtype] the resolver
    answers the subtype, where [jpeg] is aliased to [jpg], [svg+xml] to [svg],
    [x-ms-wmv] to [wmv] and [quicktime] to [mov], except that for a subtype
    that names a member of [Object.prototype] it answers that member, which
    is no text; for a type that is not empty and has no slash it answers
    [undefined].  For a file with no MIME type it answers the text after the
    last dot of the name, or the whole name when the name has no dot,
    lower-cased (for ASCII text), and [unknown] when that text is empty. *)
Theorem getFileFormat_resolution (file : File) :
  (forall category subtype,
      type file = category ++ "/" ++ subtype ->
      contains_char "/" category = false ->
      contains_char "/" subtype = false ->
      getFileFormat file
      = if existsb (String.eqb subtype) object_prototype_keys
        then JInherited subtype
        else JString (canonical_format subtype))
  /\ (type file <> "" ->
      contains_char "/" (type file) = false ->
      getFileFormat file = JUndefined)
  /\ (forall tail,
        type file = "" ->
        contains_char "." tail = false ->
        every_char is_ascii tail = true ->
        (name file = tail \/ exists stem, name file = stem ++ "." ++ tail) ->
        getFileFormat file
        = JString (if String.eqb tail "" then "unknown"
                   else JsString.toLowerCase tail)).
Proof.
  split; [|split].
  - intros category subtype Ht Hc Hs. unfold getFileFormat.
    rewrite Ht, mime_not_empty. cbn [negb].
    rewrite split_mime by assumption. cbn [nth_error].
    apply formatMap_lookup.
  - intros Hne Hslash. unfold getFileFormat.
    destruct (String.eqb_spec (type file) "") as [E|_]; [contradiction|].
    cbn [negb]. unfold JsString.split.
    rewrite split_acc_no_sep by exact Hslash. reflexivity.
  - intros tail Ht Hdot _ Hname. apply getFileFormat_untyped; assumption.
Qed.

Lemma getFileFormat_resolution_witness :
  getFileFormat (mkFile "photo.jpeg" "image/jpeg" []) = JString "jpg"
  /\ getFileFormat (mkFile "x.bin" "image/constructor" []) = JInherited "constructor"
  /\ getFileFormat (mkFile "x.bin" "image" []) = JUndefined
  /\ getFileFormat (mkFile "clip.MOV" "" []) = JString "mov"
  /\ getFileFormat (mkFile "README" "" []) = JString "readme"
  /\ getFileFormat (mkFile "archive." "" []) = JString "unknown".
Proof.
  split; [|split; [|split; [|split; [|split]]]].
  - apply (proj1 (getFileFormat_resolution (mkFile "photo.jpeg" "image/jpeg" []))
             "image" "jpeg"); reflexivity.
  - apply (proj1 (getFileFormat_resolution (mkFile "x.bin" "image/constructor" []))
             "image" "constructor"); reflexivity.
  - apply (proj1 (proj2 (getFileFormat_resolution (mkFile "x.bin" "image" []))));
      [discriminate|reflexivity].
  - apply (proj2 (proj2 (getFileFormat_resolution (mkFile "clip.MOV" "" []))) "MOV");
      try reflexivity.
    right. exists "clip". reflexivity.
  - apply (proj2 (proj2 (getFileFormat_resolution (mkFile "README" "" []))) "README");
      try reflexivity.
    left. reflexivity.
  - apply (proj2 (proj2 (getFileFormat_resolution (mkFile "archive." "" []))) "");
      try reflexivity.
    right. exists "archive". reflexivity.
Defined.

(** *** Filename pattern engine *)

(** The pattern engine on the example of the specification: the name without
    its extension, the index plus one padded to three digits, the date. *)
Lemma applyFileNamePattern_vacation :
  applyFileNamePattern sample_clock "{name}_{index}_{date}" "vacation.png" 4
  = "vacation_005_2026-11-02".
Proof. vm_compute. reflexivity. Qed.

(** Each token is replaced where it occurs first, and only there. *)
Lemma applyFileNamePattern_first_occurrence :
  applyFileNamePattern sample_clock "{index}-{name}-{index}-{name}" "vacation.png" 4
  = "005-vacation-{index}-{name}".
Proof. vm_compute. reflexivity. Qed.

(** The caller hands the expanded pattern to [getConvertedFileName], which
    cuts its argument at the last dot: a name without a dot loses all of its
    text. *)
Lemma getConvertedFileName_no_dot (expanded targetFormat : string) :
  JsString.lastIndexOf expanded "." = (-1)%Z ->
  getConvertedFileName expanded targetFormat = "." ++ targetFormat.
Proof.
  intros H. unfold getConvertedFileName. rewrite H.
  unfold JsString.substring.
  replace (Z.min (Z.max (-1) 0) (Z.of_nat (String.length expanded))) with 0%Z by lia.
  replace (Z.min (Z.max 0 0) (Z.of_nat (String.length expanded))) with 0%Z by lia.
  reflexivity.
Qed.

(** C6, at the example of the specification: the pattern engine expands the
    pattern to [vacation_005_2026-11-02], but the name that the caller gives
    the converted file is [.png], not [vacation_005_2026-11-02.png]. *)
Theorem converted_name_of_vacation :
  let expanded :=
    applyFileNamePattern sample_clock "{name}_{index}_{date}" "vacation.png" 4 in
  expanded = "vacation_005_2026-11-02"
  /\ getConvertedFileName expanded "png" = ".png"
  /\ getConvertedFileName expanded "png" <> "vacation_005_2026-11-02.png".
Proof. vm_compute. repeat split; discriminate. Qed.

(** *** Dimension calculator *)

(** C7, as the claim states it, fails: a width of 1 for an original of
    1000 x 100 with the aspect lock on gives the height 0, which is not
    clamped to 1; and for an original height of zero the derived height is 0,
    where an aspect ratio of 1 would give 400. *)
Lemma calculateResizeDimensions_not_clamped :
  calculateResizeDimensions (resize_page (Some "1") None (Some true))
    (JsNum.ofZ 1000) (JsNum.ofZ 100) = (JsNum.ofZ 1, JsNum.ofZ 0)
  /\ calculateResizeDimensions (resize_page (Some "400") None (Some true))
       (JsNum.ofZ 1000) (JsNum.ofZ 0) = (JsNum.ofZ 400, JsNum.ofZ 0)
  /\ ~ positive_integer (JsNum.ofZ 0).
Proof.
  split; [vm_compute; reflexivity|].
  split; [vm_compute; reflexivity|].
  intros [p Hp]. vm_compute in Hp. discriminate Hp.
Qed.

Lemma or_else_positive (a b : num) :
  (JsNum.truthy a = true -> positive_integer a) ->
  positive_integer b ->
  positive_integer (JsNum.or_else a b).
Proof.
  intros Ha Hb. unfold JsNum.or_else.
  destruct (JsNum.truthy a); [apply Ha; reflexivity | exact Hb].
Qed.

(** C7 (amended): the calculator is a total function, it raises nothing.  For
    positive integer originals and targets that parse to a positive integer
    (or to 0 or NaN, which count as absent), both results are positive
    integers when no side is derived; when the aspect lock derives a side, the
    given side is a positive integer and the derived side is [Math.round] of
    the quotient or product as it is, with no clamp and no guard on a zero
    height. *)
Theorem calculateResizeDimensions_results (els : Elements) (ow oh : num) :
  positive_integer ow ->
  positive_integer oh ->
  (JsNum.truthy (parseInt (resizeWidth els)) = true ->
   positive_integer (parseInt (resizeWidth els))) ->
  (JsNum.truthy (parseInt (resizeHeight els)) = true ->
   positive_integer (parseInt (resizeHeight els))) ->
  let r := calculateResizeDimensions els ow oh in
  (derives_a_side els = false ->
   positive_integer (fst r) /\ positive_integer (snd r))
  /\ (derives_a_side els = true -> given (resizeWidth els) = true ->
      positive_integer (fst r)
      /\ snd r = JsNum.round (JsNum.div (fst r) (JsNum.div ow oh)))
  /\ (derives_a_side els = true -> given (resizeHeight els) = true ->
      positive_integer (snd r)
      /\ fst r = JsNum.round (JsNum.mul (snd r) (JsNum.div ow oh))).
Proof.
  intros How Hoh Hw Hh.
  pose proof (or_else_positive _ _ Hw How) as Pw.
  pose proof (or_else_positive _ _ Hh Hoh) as Ph.
  unfold calculateResizeDimensions, derives_a_side.
  destruct (given (resizeWidth els)) eqn:Gw;
    destruct (given (resizeHeight els)) eqn:Gh;
    destruct (lockAspect els) as [[|]|]; cbn;
    repeat split; intros; try discriminate; auto.
Qed.

Lemma calculateResizeDimensions_results_witness :
  let r := calculateResizeDimensions (resize_page (Some "400") (Some "300") None)
             (JsNum.ofZ 1000) (JsNum.ofZ 500) in
  positive_integer (fst r) /\ positive_integer (snd r).
Proof.
  apply (calculateResizeDimensions_results
           (resize_page (Some "400") (Some "300") None)
           (JsNum.ofZ 1000) (JsNum.ofZ 500)).
  - exists 1000%positive. vm_compute. reflexivity.
  - exists 500%positive. vm_compute. reflexivity.
  - intros _. exists 400%positive. vm_compute. reflexivity.
  - intros _. exists 300%positive. vm_compute. reflexivity.
  - reflexivity.
Defined.

(** C8: with the aspect lock on and only the width given (a value that
    parses to a number other than 0), the width is returned as given and the
    height is [Math.round (width / (originalWidth / originalHeight))]; with
    only the height given, the height is returned as given and the width is
    [Math.round (height * (originalWidth / originalHeight))]; and for an
    original of 1000 x 500 with the width 400 the result is 400 x 200. *)
Theorem calculateResizeDimensions_aspect_locked (els : Elements) (ow oh : num) :
  lockAspect els = Some true ->
  (given (resizeWidth els) = true -> given (resizeHeight els) = false ->
   JsNum.truthy (parseInt (resizeWidth els)) = true ->
   calculateResizeDimensions els ow oh
   = (parseInt (resizeWidth els),
      JsNum.round (JsNum.div (parseInt (resizeWidth els)) (JsNum.div ow oh))))
  /\ (given (resizeHeight els) = true -> given (resizeWidth els) = false ->
      JsNum.truthy (parseInt (resizeHeight els)) = true ->
      calculateResizeDimensions els ow oh
      = (JsNum.round (JsNum.mul (parseInt (resizeHeight els)) (JsNum.div ow oh)),
         parseInt (resizeHeight els)))
  /\ calculateResizeDimensions (resize_page (Some "400") None (Some true))
       (JsNum.ofZ 1000) (JsNum.ofZ 500) = (JsNum.ofZ 400, JsNum.ofZ 200).
Proof.
  intros Hlock. unfold calculateResizeDimensions. rewrite Hlock.
  split; [|split].
  - intros Gw Gh Tw. rewrite Gw, Gh. cbn.
    unfold JsNum.or_else. rewrite Tw. reflexivity.
  - intros Gh Gw Th. rewrite Gw, Gh. cbn.
    unfold JsNum.or_else. rewrite Th. reflexivity.
  - vm_compute. reflexivity.
Qed.

Lemma calculateResizeDimensions_aspect_locked_witness :
  calculateResizeDimensions (resize_page None (Some "300") (Some true))
    (JsNum.ofZ 1000) (JsNum.ofZ 500) = (JsNum.ofZ 600, JsNum.ofZ 300).
Proof.
  rewrite (proj1 (proj2 (calculateResizeDimensions_aspect_locked
             (resize_page None (Some "300") (Some true))
             (JsNum.ofZ 1000) (JsNum.ofZ 500) eq_refl)));
    reflexivity.
Defined.

(** *** Reentrancy guard *)

(** With no file selected the first guard of [convertMedia] answers, whether
    a run is in progress or not. *)
Lemma convertMedia_no_files (w : World) (s : Converter) :
  selectedFiles s = [] ->
  convertMedia w s = (Ok NoFilesSelected, add_notification "please select files first" s).
Proof. intros H. unfold convertMedia, bind, get. rewrite H. reflexivity. Qed.

(** C3: a call of [convertMedia] made while a run is in progress (the files
    of that run still selected) returns at once, notifies that a conversion
    is already in progress, and changes nothing else: the results, the
    selection, the flags, the page with its progress display, the console and
    the event log are as they were. *)
Theorem convertMedia_rejects_reentry (w : World) (s : Converter) :
  isConverting s = true ->
  selectedFiles s <> [] ->
  exists s',
    convertMedia w s = (Ok AlreadyInProgress, s')
    /\ notifications s' = (notifications s ++ ["conversion already in progress"])%list
    /\ convertedMedia s' = convertedMedia s
    /\ selectedFiles s' = selectedFiles s
    /\ isConverting s' = true
    /\ ffmpegLoaded s' = ffmpegLoaded s
    /\ ffmpegLoading s' = ffmpegLoading s
    /\ elements s' = elements s
    /\ console s' = console s
    /\ log s' = log s.
Proof.
  intros Hrun Hsel.
  exists (add_notification "conversion already in progress" s).
  unfold convertMedia, bind, get.
  destruct (selectedFiles s) as [|f fs] eqn:E; [contradiction|].
  cbn [List.length Nat.eqb]. rewrite Hrun. cbn.
  rewrite E. repeat split; assumption.
Qed.

(** *** Loading the engine *)

Import LoadProtocol.

Lemma step_keeps_consistent (a : Action) (sys sys' : Sys) (o : Observation) :
  consistent sys -> step a sys = Some (o, sys') -> consistent sys'.
Proof.
  intros [Hn Hl] Hstep. destruct sys as [s n]. cbn in *.
  destruct a as [|ok]; cbn in Hstep.
  - unfold loadFFmpeg_enter in Hstep.
    destruct (ffmpegLoaded s) eqn:L1; destruct (ffmpegLoading s) eqn:L2;
      cbn in Hstep; inversion Hstep; subst; clear Hstep;
      split; cbn; try rewrite L1; try rewrite L2; auto.
  - destruct n as [|n]; [discriminate|].
    destruct (ffmpegLoading s) eqn:L2; [|discriminate].
    injection Hn as Hn. subst n.
    destruct ok; cbn in Hstep; inversion Hstep; subst; clear Hstep;
      split; cbn; auto; discriminate.
Qed.

Lemma run_keeps_consistent (acts : list Action) :
  forall sys sys' os,
    consistent sys -> run acts sys = Some (os, sys') -> consistent sys'.
Proof.
  induction acts as [|a rest IH]; intros sys sys' os Hc Hrun; cbn in Hrun.
  - inversion Hrun; subst; exact Hc.
  - destruct (step a sys) as [[o sys1]|] eqn:E; [|discriminate].
    destruct (run rest sys1) as [[os1 sys2]|] eqn:R; [|discriminate].
    inversion Hrun; subst; clear Hrun.
    eapply IH; [|exact R]. eapply step_keeps_consistent; eauto.
Qed.

(** C5, as the claim states it, fails: a second call made while the load is
    in flight returns [false] at once, before the load has settled, and the
    load then succeeds. *)
Lemma loadFFmpeg_does_not_await :
  exists sys',
    run [Request; Request; Settle true] (mkSys (new_converter sample_page) 0)
    = Some ([LoadStarted; Returned false; LoadFinished (Ok true)], sys')
    /\ ffmpegLoaded (this sys') = true.
Proof. eexists. split; reflexivity. Qed.

(** C5 (amended): from the converter as constructed, whatever calls of
    [loadFFmpeg] and settlements of loads follow, at most one load of the
    engine is in flight; and a call made while a load is in flight starts no
    second load: it leaves the converter as it is and returns at once, with
    [false], without awaiting the load in flight. *)
Theorem loadFFmpeg_single_flight (page : Elements) (acts : list Action)
    (os : list Observation) (sys : Sys) :
  run acts (mkSys (new_converter page) 0) = Some (os, sys) ->
  inFlight sys <= 1
  /\ (inFlight sys = 1 -> step Request sys = Some (Returned false, sys)).
Proof.
  intros Hrun.
  assert (Hc : consistent sys).
  { eapply run_keeps_consistent; [|exact Hrun]. split; cbn; [reflexivity|discriminate]. }
  destruct Hc as [Hn Hl]. destruct sys as [s n]. cbn in *.
  destruct (ffmpegLoading s) eqn:L2; subst n.
  - split; [lia|]. intros _. unfold step, loadFFmpeg_enter. cbn.
    rewrite L2, (Hl eq_refl). reflexivity.
  - split; [lia|]. discriminate.
Qed.

Lemma loadFFmpeg_single_flight_witness :
  step Request (mkSys (add_event EvLoadEngine
                         (add_notification "loading video converter engine..."
                            (set_ffmpegLoading true (new_converter sample_page)))) 1)
  = Some (Returned false,
          mkSys (add_event EvLoadEngine
                   (add_notification "loading video converter engine..."
                      (set_ffmpegLoading true (new_converter sample_page)))) 1).
Proof.
  apply (proj2 (loadFFmpeg_single_flight sample_page [Request] [LoadStarted] _ eq_refl)).
  reflexivity.
Defined.

Lemma convertMedia_rejects_reentry_witness :
  exists s',
    convertMedia obliging_world
      (mkConverter [sample_image] [] true false false sample_page [] [] [])
    = (Ok AlreadyInProgress, s')
    /\ convertedMedia s' = [] /\ selectedFiles s' = [sample_image].
Proof.
  destruct (convertMedia_rejects_reentry obliging_world
              (mkConverter [sample_image] [] true false false sample_page [] [] []))
    as [s' H]; [reflexivity | discriminate |].
  exists s'. repeat split; apply H.
Defined.

(** *** Invariants of the methods *)

(** A property of the converter that no display, console or log update
    breaks, that survives a change of the loading flag and the replacement of
    the results, and that survives [ffmpegLoaded = true] in a world where the
    engine can load, is kept by every method that the batch loop runs. *)
Section Invariant.

Variable w : World.
Variable I : Converter -> Prop.

Hypothesis I_notification : forall m s, I s -> I (add_notification m s).
Hypothesis I_console : forall m s, I s -> I (add_console m s).
Hypothesis I_engine_event :
  forall e s, is_engine_event e = true -> I s -> I (add_event e s).
Hypothesis I_file_start : forall i n s, I s -> I (add_event (EvFileStart i n) s).
Hypothesis I_loading : forall b s, I s -> I (set_ffmpegLoading b s).
Hypothesis I_loaded :
  forall k s, engine_load w k = true -> I s -> I (set_ffmpegLoaded true s).
Hypothesis I_results : forall v s, I s -> I (set_convertedMedia v s).
Hypothesis I_progress :
  forall p t s, I s ->
    I (set_elements
         (set_progressText t (set_progressFill p (elements s))) s).

Lemma keeps_ret {A} (a : A) : keeps I (ret a).
Proof. intros s H. exact H. Qed.

Lemma keeps_throw {A} (e : string) : keeps I (@throw A e).
Proof. intros s H. exact H. Qed.

Lemma keeps_get : keeps I get.
Proof. intros s H. exact H. Qed.

Lemma keeps_modify (f : Converter -> Converter) :
  (forall s, I s -> I (f s)) -> keeps I (modify f).
Proof. intros Hf s H. apply Hf. exact H. Qed.

Lemma keeps_bind {A B} (c : M A) (k : A -> M B) :
  keeps I c -> (forall a, keeps I (k a)) -> keeps I (bind c k).
Proof.
  intros Hc Hk s H. unfold bind. specialize (Hc s H).
  destruct (c s) as [[a|e] s1]; cbn in *; [apply Hk|]; exact Hc.
Qed.

Lemma keeps_try_catch {A} (c : M A) (h : string -> M A) :
  keeps I c -> (forall e, keeps I (h e)) -> keeps I (try_catch c h).
Proof.
  intros Hc Hh s H. unfold try_catch. specialize (Hc s H).
  destruct (c s) as [[a|e] s1]; cbn in *; [|apply Hh]; exact Hc.
Qed.

Lemma keeps_try_finally {A} (c : M A) (f : M unit) :
  keeps I c -> keeps I f -> keeps I (try_finally c f).
Proof.
  intros Hc Hf s H. unfold try_finally. specialize (Hc s H).
  destruct (c s) as [r s1]. cbn in Hc. specialize (Hf s1 Hc).
  destruct (f s1) as [[u|e] s2]; exact Hf.
Qed.

Lemma keeps_showNotification (m : string) : keeps I (showNotification m).
Proof. apply keeps_modify. intros s. apply I_notification. Qed.

Lemma keeps_updateProgress (p : num) (t : string) : keeps I (updateProgress p t).
Proof.
  intros s H. unfold updateProgress, modify. cbn.
  pose proof (I_progress (match progressFill (elements s) with
                          | Some _ => Some (JsNum.round p)
                          | None => None
                          end)
                         (match progressText (elements s) with
                          | Some _ => Some t
                          | None => None
                          end) s H) as P.
  destruct (elements s) as [b mt fs vs qs rw rh la fp ps pf pt] eqn:E.
  destruct pf, pt; exact P.
Qed.

Lemma keeps_loadFFmpeg_settle (k : nat) :
  keeps I (loadFFmpeg_settle (engine_load w k)).
Proof.
  unfold loadFFmpeg_settle. apply keeps_try_finally.
  - apply keeps_try_catch.
    + destruct (engine_load w k) eqn:E.
      * apply keeps_bind; [apply keeps_modify; intros s; apply (I_loaded k); exact E|].
        intros _. apply keeps_bind; [apply keeps_showNotification|].
        intros _. apply keeps_ret.
      * apply keeps_throw.
    + intros e. apply keeps_bind; [apply keeps_modify; intros s; apply I_console|].
      intros _. apply keeps_bind; [apply keeps_showNotification|].
      intros _. apply keeps_ret.
  - apply keeps_modify. intros s. apply I_loading.
Qed.

Lemma keeps_loadFFmpeg : keeps I (loadFFmpeg w).
Proof.
  intros s H. unfold loadFFmpeg, loadFFmpeg_enter.
  destruct (ffmpegLoaded s || ffmpegLoading s); [exact H|].
  apply keeps_loadFFmpeg_settle.
  apply I_engine_event; [reflexivity|]. apply I_notification, I_loading. exact H.
Qed.

Lemma keeps_convertSingleImageAsync file fmt quality i :
  keeps I (convertSingleImageAsync w file fmt quality i).
Proof.
  unfold convertSingleImageAsync.
  destruct (image_load w file) as [[iw ih]|]; [|apply keeps_throw].
  apply keeps_bind; [apply keeps_ret|]. intros _.
  apply keeps_bind; [apply keeps_get|]. intros s0.
  apply keeps_bind; [apply keeps_ret|]. intros _.
  destruct (image_encode w file _ _ _) as [e|out].
  - apply keeps_bind; [apply keeps_modify; intros s; apply I_console|].
    intros _. apply keeps_throw.
  - apply keeps_ret.
Qed.

Lemma keeps_convertVideoWithFFmpeg file fmt i :
  keeps I (convertVideoWithFFmpeg w file fmt i).
Proof.
  unfold convertVideoWithFFmpeg. apply keeps_try_catch.
  - apply keeps_bind; [apply keeps_get|]. intros s0.
    apply keeps_bind.
    { destruct (negb (ffmpegLoaded s0)); [apply keeps_loadFFmpeg|apply keeps_ret]. }
    intros proceed. destruct (negb proceed); [apply keeps_ret|].
    apply keeps_bind; [apply keeps_ret|]. intros _.
    apply keeps_bind; [apply keeps_get|]. intros s1.
    apply keeps_bind;
      [apply keeps_modify; intros s; apply I_engine_event; reflexivity|]. intros _.
    destruct (transcode w _ file fmt).
    + apply keeps_throw.
    + apply keeps_bind;
        [apply keeps_modify; intros s; apply I_engine_event; reflexivity|].
      intros _. apply keeps_throw.
    + apply keeps_bind;
        [apply keeps_modify; intros s; apply I_engine_event; reflexivity|].
      intros _. apply keeps_throw.
    + apply keeps_bind;
        [apply keeps_modify; intros s; apply I_engine_event; reflexivity|].
      intros _. apply keeps_ret.
    + apply keeps_bind;
        [apply keeps_modify; intros s; apply I_engine_event; reflexivity|].
      intros _. apply keeps_bind; [apply keeps_get|]. intros s2. apply keeps_ret.
  - intros e. apply keeps_bind; [apply keeps_modify; intros s; apply I_console|].
    intros _. apply keeps_ret.
Qed.

Lemma keeps_convertSingleVideoAsync file fmt i :
  keeps I (convertSingleVideoAsync w file fmt i).
Proof.
  unfold convertSingleVideoAsync.
  apply keeps_bind; [apply keeps_convertVideoWithFFmpeg|].
  intros [c|]; [apply keeps_convertVideoWithFFmpeg|].
  apply keeps_bind; [apply keeps_ret|]. intros _.
  apply keeps_bind; [apply keeps_get|]. intros s0.
  destruct (video_probe w file) as [[[vw vh] secs]|];
    [apply keeps_ret | apply keeps_throw].
Qed.

Lemma keeps_processFile fmt quality i file :
  keeps I (processFile w fmt quality i file).
Proof.
  unfold processFile. apply keeps_try_catch.
  - apply keeps_bind.
    + destruct (JsString.startsWith (type file) "image/").
      * apply keeps_bind; [apply keeps_convertSingleImageAsync|].
        intros c. apply keeps_ret.
      * destruct (JsString.startsWith (type file) "video/");
          [apply keeps_convertSingleVideoAsync | apply keeps_ret].
    + intros [c|]; [|apply keeps_ret].
      apply keeps_bind; [|intros _; apply keeps_ret].
      apply keeps_modify. intros s. apply I_results.
  - intros e. apply keeps_bind; [apply keeps_modify; intros s; apply I_console|].
    intros _. apply keeps_ret.
Qed.

Lemma keeps_batchLoop fmt quality total files :
  forall i sc fc, keeps I (batchLoop w fmt quality total files i sc fc).
Proof.
  induction files as [|file rest IH]; intros i sc fc; cbn [batchLoop].
  - apply keeps_ret.
  - apply keeps_bind; [apply keeps_updateProgress|]. intros _.
    apply keeps_bind; [apply keeps_modify; intros s; apply I_file_start|]. intros _.
    apply keeps_bind; [apply keeps_processFile|]. intros o.
    apply keeps_bind; [apply keeps_ret|]. intros _.
    destruct o; apply IH.
Qed.

End Invariant.

(** *** The end of a run *)

(** Loading the engine never throws and touches neither the selection, the
    results, the running flag nor the page; where the engine cannot load it
    answers [false] and leaves [ffmpegLoaded] false. *)
Lemma loadFFmpeg_spec (w : World) (s : Converter) :
  exists b s',
    loadFFmpeg w s = (Ok b, s')
    /\ selectedFiles s' = selectedFiles s
    /\ convertedMedia s' = convertedMedia s
    /\ isConverting s' = isConverting s
    /\ elements s' = elements s
    /\ ((forall k, engine_load w k = false) -> ffmpegLoaded s = false ->
        b = false /\ ffmpegLoaded s' = false).
Proof.
  unfold loadFFmpeg, loadFFmpeg_enter.
  destruct (ffmpegLoaded s) eqn:L1; destruct (ffmpegLoading s) eqn:L2; cbn [orb].
  1-3: exists (ffmpegLoaded s), s; rewrite L1; repeat split; auto; discriminate.
  destruct (engine_load w (count_loads (log s))) eqn:L.
  - eexists _, _. split; [reflexivity|]. cbn. repeat split; auto;
      specialize (H (count_loads (log s))); congruence.
  - eexists _, _. split; [reflexivity|]. cbn. repeat split; auto.
Qed.

Local Arguments loadFFmpeg : simpl never.

Lemma convertMedia_setup_ready (w : World) (s : Converter) :
  page_ready (elements s) ->
  exists fmt quality s1,
    convertMedia_setup w s = (Ok (fmt, quality), s1)
    /\ convertBtn (elements s1) = Some (mkButton true "converting..." true)
    /\ selectedFiles s1 = selectedFiles s
    /\ convertedMedia s1 = []
    /\ isConverting s1 = isConverting s
    /\ ((forall k, engine_load w k = false) -> ffmpegLoaded s = false ->
        ffmpegLoaded s1 = false).
Proof.
  intros (Hmt & Hfs & Hvs & Hqs & Hps & Hb).
  destruct s as [sel cm conv loaded loading els nots cons lg].
  destruct els as [b mt fs vs qs rw rh la fp ps pf pt]. cbn in *.
  destruct b as [b|]; [|contradiction].
  destruct mt as [mt|]; [|contradiction].
  destruct fs as [fs|]; [|contradiction].
  destruct vs as [vs|]; [|contradiction].
  destruct qs as [qs|]; [|contradiction].
  destruct ps as [ps|]; [|contradiction].
  unfold convertMedia_setup, bind, get, value_of, ret. cbn.
  destruct (String.eqb mt "video"); cbn;
    destruct (existsb _ sel && negb loaded) eqn:E; cbn.
  all: try match goal with
       | |- context [loadFFmpeg ?w0 ?x] =>
           destruct (loadFFmpeg_spec w0 x) as (ld & s' & EQ & F1 & F2 & F3 & F4 & F5);
           rewrite EQ; clear EQ;
           destruct s' as [sel' cm' conv' loaded' loading' els' nots' cons' lg'];
           cbn in F1, F2, F3, F4, F5; subst sel' cm' conv' els'
       end.
  all: try destruct ld; cbn.
  all: destruct pf, pt; cbn.
  all: do 3 eexists; (split; [reflexivity|]); cbn.
  all: repeat split; auto.
  all: intros HL HF; try (destruct (F5 HL HF); congruence).
Qed.

Local Arguments convertMedia_setup : simpl never.
Local Arguments convertMedia_batch : simpl never.
Local Arguments summaryText : simpl never.
Local Arguments JsNum.round : simpl never.
Local Arguments JsNum.ofZ : simpl never.

(** The outer [try]/[catch]/[finally]: whatever the loop and the preview do,
    the method ends normally with the running flag off and the button
    enabled, and what the loop left of the results, the selection and the
    engine flag stays. *)
Lemma convertMedia_batch_spec (w : World) (fmt : string) (quality : num)
    (s : Converter) :
  let run := batchLoop w fmt quality (List.length (selectedFiles s))
               (selectedFiles s) 0 0 0 s in
  exists r s',
    convertMedia_batch w fmt quality s = (Ok r, s')
    /\ isConverting s' = false
    /\ convertedMedia s' = convertedMedia (snd run)
    /\ selectedFiles s' = selectedFiles (snd run)
    /\ ffmpegLoaded s' = ffmpegLoaded (snd run)
    /\ (convertBtn (elements (snd run)) <> None ->
        convertBtn (elements s') = Some (mkButton false "convert" false))
    /\ ((exists sc fc, r = BatchCompleted sc fc /\ fst run = Ok (sc, fc))
        \/ (exists e, r = BatchFailed e)).
Proof.
  cbv zeta. unfold convertMedia_batch, try_finally, try_catch, bind, get.
  destruct (batchLoop w fmt quality _ _ 0 0 0 s) as [[[sc fc]|e] s1].
  - destruct s1 as [sel cm conv loaded loading els nots cons lg].
    destruct els as [b mt fs vs qs rw rh la fp ps pf pt].
    unfold showPreviewSection.
    destruct (preview_error w) as [e|]; cbn;
      destruct pf, pt, b; cbn; do 2 eexists; (split; [reflexivity|]); cbn;
      repeat split; eauto; intros H; try reflexivity; contradiction.
  - destruct s1 as [sel cm conv loaded loading els nots cons lg].
    destruct els as [b mt fs vs qs rw rh la fp ps pf pt]. cbn.
    destruct pf, pt, b; cbn; do 2 eexists; (split; [reflexivity|]); cbn;
      repeat split; eauto; intros H; try reflexivity; contradiction.
Qed.

(** A call of [convertMedia] on an idle converter is not turned away as a
    second run. *)
Lemma convertMedia_idle_not_rejected (w : World) (s : Converter) :
  isConverting s = false ->
  fst (convertMedia w s) <> Ok AlreadyInProgress.
Proof.
  intros Hidle. unfold convertMedia, bind, get.
  destruct (List.length (selectedFiles s) =? 0)%nat; [cbn; discriminate|].
  rewrite Hidle. cbn.
  destruct (convertMedia_setup w (set_isConverting true s)) as [[[fmt q]|e] s1];
    [|cbn; discriminate].
  cbn [fst snd].
  destruct (convertMedia_batch_spec w fmt q s1) as (r & s' & EQ & _ & _ & _ & _ & _ & R).
  rewrite EQ. cbn.
  destruct R as [(sc & fc & R & _)|(e & R)]; rewrite R; discriminate.
Qed.

(** A run of [convertMedia] that got past its guards and found the controls
    of the page ends normally, whether the batch completed or an error was
    caught on the way, with [isConverting] false and the convert button
    enabled; a call made afterwards is not turned away as a second run. *)
Theorem convertMedia_releases_the_converter (w : World) (s : Converter) :
  selectedFiles s <> [] ->
  isConverting s = false ->
  page_ready (elements s) ->
  exists r s',
    convertMedia w s = (Ok r, s')
    /\ ((exists sc fc, r = BatchCompleted sc fc) \/ (exists e, r = BatchFailed e))
    /\ isConverting s' = false
    /\ (exists b, convertBtn (elements s') = Some b /\ disabled b = false)
    /\ (forall w', fst (convertMedia w' s') <> Ok AlreadyInProgress).
Proof.
  intros Hsel Hidle Hpage.
  unfold convertMedia, bind, get.
  destruct (selectedFiles s) as [|f fs] eqn:E; [contradiction|].
  cbn [List.length Nat.eqb]. rewrite Hidle. cbn [modify].
  destruct (convertMedia_setup_ready w (set_isConverting true s) Hpage)
    as (fmt & q & s1 & EQ & Hbtn & _).
  rewrite EQ. cbn [fst snd].
  destruct (convertMedia_batch_spec w fmt q s1)
    as (r & s' & EQ' & Hflag & _ & _ & _ & Hb & R).
  exists r, s'. split; [exact EQ'|]. split.
  { destruct R as [(sc & fc & R & _)|(e & R)]; eauto. }
  split; [exact Hflag|]. split.
  - exists (mkButton false "convert" false). split; [|reflexivity].
    apply Hb.
    pose proof (keeps_batchLoop w
                  (fun x => convertBtn (elements x) = Some (mkButton true "converting..." true))) as K.
    rewrite K; try discriminate; try exact Hbtn; clear K;
      intros; destruct s0 as [? ? ? ? ? els ? ? ?]; try destruct els; cbn in *; assumption.
  - intros w'. apply convertMedia_idle_not_rejected. exact Hflag.
Qed.

Lemma convertMedia_releases_the_converter_witness :
  exists r s',
    convertMedia obliging_world (idle_converter [sample_image; sample_video] false)
    = (Ok r, s')
    /\ isConverting s' = false.
Proof.
  destruct (convertMedia_releases_the_converter obliging_world
              (idle_converter [sample_image; sample_video] false))
    as (r & s' & EQ & _ & H & _).
  - discriminate.
  - reflexivity.
  - repeat split; discriminate.
  - exists r, s'. split; assumption.
Defined.

(** C10 fails on the code.  The method raises [isConverting] and then,
    before its [try] block, reads the quality slider without a guard: on a
    page without the slider the run throws a type error, the [finally]
    block is never entered, the flag stays raised, and a later call is
    turned away as a second run. *)
Theorem convertMedia_stays_locked_after_setup_error :
  exists s',
    convertMedia obliging_world
      (mkConverter [sample_image] [] false false false page_without_slider [] [] [])
    = (Throw type_error, s')
    /\ isConverting s' = true
    /\ convertBtn (elements s') = Some (mkButton false "convert" false)
    /\ convertMedia obliging_world s'
       = (Ok AlreadyInProgress, add_notification "conversion already in progress" s').
Proof.
  eexists. split; [vm_compute; reflexivity|].
  split; [reflexivity|]. split; reflexivity.
Qed.

(** *** The rename-only path *)

Lemma video_is_not_image (t : string) :
  JsString.startsWith t "video/" = true -> JsString.startsWith t "image/" = false.
Proof.
  unfold JsString.startsWith. destruct t as [|c r]; [discriminate|].
  cbn [String.prefix]. destruct (ascii_dec "v" c) as [<-|]; [|discriminate].
  intros _. reflexivity.
Qed.

Lemma fallbackResult_passthrough (w : World) (f : File) (nm fmt : string)
    (vw vh secs : num) :
  video_probe w f = Some (vw, vh, secs) ->
  passthrough_of w f (fallbackResult nm fmt f vw vh secs).
Proof.
  intros H. unfold passthrough_of, fallbackResult. cbn.
  repeat split; try reflexivity. exists vw, vh, secs. auto.
Qed.

(** One turn of the loop: the progress display is updated, the conversion
    of the file is attempted, and the loop goes on with the counters that the
    outcome gives. *)
Lemma batchLoop_cons (w : World) fmt quality total file rest i sc fc (s : Converter) :
  batchLoop w fmt quality total (file :: rest) i sc fc s
  = match processFile w fmt quality i file
            (add_event (EvFileStart i (name file))
               (snd (updateProgress (progressPercent i total)
                       (progressCaption i total file) s))) with
    | (Ok Succeeded, s1) => batchLoop w fmt quality total rest (S i) (S sc) fc s1
    | (Ok NotCounted, s1) => batchLoop w fmt quality total rest (S i) sc fc s1
    | (Ok Failed, s1) => batchLoop w fmt quality total rest (S i) sc (S fc) s1
    | (Throw e, s1) => (Throw e, s1)
    end.
Proof.
  cbn [batchLoop]. unfold bind at 1 2 3. cbn [updateProgress modify snd].
  destruct (processFile w fmt quality i file _) as [[[| |]|e] s1]; reflexivity.
Qed.

Section Engineless.

Variable w : World.
Hypothesis never_loads : forall k, engine_load w k = false.

(** Without an engine the transcoding method answers [null]. *)
Lemma convertVideoWithFFmpeg_engineless file fmt i (s : Converter) :
  ffmpegLoaded s = false ->
  exists s',
    convertVideoWithFFmpeg w file fmt i s = (Ok None, s')
    /\ convertedMedia s' = convertedMedia s
    /\ ffmpegLoaded s' = false.
Proof.
  intros Hl. unfold convertVideoWithFFmpeg, try_catch, bind, get.
  rewrite Hl. cbn [negb].
  destruct (loadFFmpeg_spec w s) as (b & s' & EQ & _ & Hcm & _ & _ & Hf).
  destruct (Hf never_loads Hl) as [-> Hl']. rewrite EQ. cbn.
  exists s'. auto.
Qed.

(** Without an engine the video stage takes the rename-only path: it
    returns the record built from the original file, or throws when the file
    cannot be probed. *)
Lemma convertSingleVideoAsync_engineless file fmt i (s : Converter) :
  ffmpegLoaded s = false ->
  exists s',
    convertedMedia s' = convertedMedia s
    /\ ffmpegLoaded s' = false
    /\ match video_probe w file with
       | Some (vw, vh, secs) =>
           exists nm,
             convertSingleVideoAsync w file fmt i s
             = (Ok (Some (fallbackResult nm fmt file vw vh secs)), s')
       | None =>
           convertSingleVideoAsync w file fmt i s
           = (Throw ("failed to load video: " ++ name file), s')
       end.
Proof.
  intros Hl.
  destruct (convertVideoWithFFmpeg_engineless file fmt i s Hl) as (s' & EQ & Hcm & Hl').
  exists s'. split; [exact Hcm|]. split; [exact Hl'|].
  unfold convertSingleVideoAsync, bind. rewrite EQ. cbn.
  destruct (video_probe w file) as [[[vw vh] secs]|]; [|reflexivity].
  eexists. reflexivity.
Qed.

Lemma convertSingleImageAsync_spec file fmt quality i (s : Converter) :
  exists r s',
    convertSingleImageAsync w file fmt quality i s = (r, s')
    /\ convertedMedia s' = convertedMedia s
    /\ ffmpegLoaded s' = ffmpegLoaded s
    /\ (forall c, r = Ok c -> isVideo c = false).
Proof.
  unfold convertSingleImageAsync.
  destruct (image_load w file) as [[iw ih]|].
  - unfold bind, yieldToMain, ret, get. cbn.
    destruct (image_encode w file _ _ _) as [e|out]; cbn.
    + eexists _, _. split; [reflexivity|]. cbn. repeat split; auto. discriminate.
    + eexists _, _. split; [reflexivity|]. repeat split; auto.
      intros c H. injection H as <-. reflexivity.
  - eexists _, _. split; [reflexivity|]. repeat split; auto. discriminate.
Qed.

Lemma processFile_engineless fmt quality i file (s : Converter) :
  ffmpegLoaded s = false ->
  exists o s' new,
    processFile w fmt quality i file s = (Ok o, s')
    /\ ffmpegLoaded s' = false
    /\ convertedMedia s' = (convertedMedia s ++ new)%list
    /\ (forall c, In c new -> isVideo c = true ->
        is_video file = true /\ passthrough_of w file c)
    /\ (is_video file = true -> video_probe w file <> None ->
        exists c, In c new /\ passthrough_of w file c).
Proof.
  intros Hl. unfold processFile, try_catch, bind, is_video.
  destruct (JsString.startsWith (type file) "image/") eqn:Ei.
  - destruct (convertSingleImageAsync_spec file fmt quality i s)
      as (r & s1 & EQ & Hcm & Hl1 & Hv).
    rewrite EQ. destruct r as [c|e]; cbn.
    + exists Succeeded, (set_convertedMedia (convertedMedia s1 ++ [c]) s1), [c].
      split; [reflexivity|]. cbn. rewrite Hcm, Hl1.
      split; [exact Hl|]. split; [reflexivity|]. split.
      * intros c' [<-|[]] Hvid. rewrite (Hv c eq_refl) in Hvid. discriminate.
      * intros Hvid. apply video_is_not_image in Hvid. congruence.
    + exists Failed, (add_console ("Failed to convert " ++ name file ++ ": " ++ e) s1), [].
      split; [reflexivity|]. cbn. rewrite Hcm, Hl1, app_nil_r.
      split; [exact Hl|]. split; [reflexivity|]. split.
      * intros c' [].
      * intros Hvid. apply video_is_not_image in Hvid. congruence.
  - destruct (JsString.startsWith (type file) "video/") eqn:Ev.
    + destruct (convertSingleVideoAsync_engineless file fmt i s Hl)
        as (s1 & Hcm & Hl1 & R).
      destruct (video_probe w file) as [[[vw vh] secs]|] eqn:P.
      * destruct R as [nm EQ]. rewrite EQ. cbn.
        eexists Succeeded, _, [_]. split; [reflexivity|]. cbn.
        rewrite Hcm.
        split; [exact Hl1|]. split; [reflexivity|]. split.
        -- intros c' [<-|[]] _. split; [reflexivity|].
           apply fallbackResult_passthrough. exact P.
        -- intros _ _. eexists. split; [left; reflexivity|].
           apply fallbackResult_passthrough. exact P.
      * rewrite R. cbn.
        eexists Failed, _, []. split; [reflexivity|]. cbn.
        rewrite Hcm, app_nil_r.
        split; [exact Hl1|]. split; [reflexivity|]. split.
        -- intros c' [].
        -- intros _ N. contradiction.
    + cbn. exists NotCounted, s, []. split; [reflexivity|].
      rewrite app_nil_r.
      split; [exact Hl|]. split; [reflexivity|]. split.
      * intros c' [].
      * discriminate.
Qed.

Lemma batchLoop_engineless fmt quality total files :
  forall i sc fc (s : Converter),
    ffmpegLoaded s = false ->
    exists counts s' new,
      batchLoop w fmt quality total files i sc fc s = (Ok counts, s')
      /\ ffmpegLoaded s' = false
      /\ convertedMedia s' = (convertedMedia s ++ new)%list
      /\ (forall c, In c new -> isVideo c = true ->
          exists f, In f files /\ is_video f = true /\ passthrough_of w f c)
      /\ (forall f, In f files -> is_video f = true -> video_probe w f <> None ->
          exists c, In c new /\ passthrough_of w f c).
Proof.
  induction files as [|file rest IH]; intros i sc fc s Hl.
  - exists (sc, fc), s, []. split; [reflexivity|]. rewrite app_nil_r.
    repeat split; auto; intros; contradiction.
  - rewrite batchLoop_cons.
    destruct (processFile_engineless fmt quality i file
                (add_event (EvFileStart i (name file))
                   (snd (updateProgress (progressPercent i total)
                           (progressCaption i total file) s))) Hl)
      as (o & s1 & new1 & EQ & Hl1 & Hcm1 & Hv1 & Hf1).
    rewrite EQ. cbn in Hcm1.
    assert (exists sc' fc',
              (match o with
               | Succeeded => batchLoop w fmt quality total rest (S i) (S sc) fc s1
               | NotCounted => batchLoop w fmt quality total rest (S i) sc fc s1
               | Failed => batchLoop w fmt quality total rest (S i) sc (S fc) s1
               end) = batchLoop w fmt quality total rest (S i) sc' fc' s1) as (sc' & fc' & ->).
    { destruct o; eauto. }
    destruct (IH (S i) sc' fc' s1 Hl1) as (counts & s2 & new2 & EQ2 & Hl2 & Hcm2 & Hv2 & Hf2).
    exists counts, s2, (new1 ++ new2)%list. split; [exact EQ2|].
    split; [exact Hl2|]. split.
    { rewrite Hcm2, Hcm1, app_assoc. reflexivity. }
    split.
    + intros c Hin Hvid. apply in_app_or in Hin. destruct Hin as [Hin|Hin].
      * destruct (Hv1 c Hin Hvid) as [Hf Hp]. exists file. split; [left; reflexivity|]. auto.
      * destruct (Hv2 c Hin Hvid) as (f & Hf & Hp). exists f. split; [right; exact Hf|]. exact Hp.
    + intros f [<-|Hin] Hvid Hp.
      * destruct (Hf1 Hvid Hp) as (c & Hc & Hpass). exists c. split; [|exact Hpass].
        apply in_or_app. left. exact Hc.
      * destruct (Hf2 f Hin Hvid Hp) as (c & Hc & Hpass). exists c. split; [|exact Hpass].
        apply in_or_app. right. exact Hc.
Qed.

End Engineless.

(** C2: when the engine is not loaded and every attempt to load it fails, a
    run of [convertMedia] leaves, for every video file of the batch whose
    metadata can be probed, a record whose blob is the bytes of the file,
    whose converted size equals the original size, whose dimensions and
    duration are those probed from the file, and whose
    [requiresServerConversion] is true; and every video record of the run is
    such a record of a video file of the batch. *)
Theorem convertMedia_engine_unavailable (w : World) (s : Converter) :
  (forall k, engine_load w k = false) ->
  ffmpegLoaded s = false ->
  selectedFiles s <> [] ->
  isConverting s = false ->
  page_ready (elements s) ->
  exists r s',
    convertMedia w s = (Ok r, s')
    /\ (forall f, In f (selectedFiles s) -> is_video f = true ->
        video_probe w f <> None ->
        exists c, In c (convertedMedia s') /\ passthrough_of w f c)
    /\ (forall c, In c (convertedMedia s') -> isVideo c = true ->
        exists f, In f (selectedFiles s) /\ is_video f = true
                  /\ passthrough_of w f c).
Proof.
  intros Hw Hl Hsel Hidle Hpage.
  unfold convertMedia, bind, get.
  destruct (selectedFiles s) as [|f0 fs] eqn:E; [contradiction|].
  cbn [List.length Nat.eqb]. rewrite Hidle. cbn [modify].
  destruct (convertMedia_setup_ready w (set_isConverting true s) Hpage)
    as (fmt & q & s1 & EQ & _ & Hsel1 & Hcm1 & _ & Hl1).
  rewrite EQ. cbn [fst snd].
  specialize (Hl1 Hw Hl). cbn in Hsel1. rewrite E in Hsel1.
  destruct (convertMedia_batch_spec w fmt q s1)
    as (r & s' & EQ' & _ & Hcm' & _ & _ & _ & _).
  destruct (batchLoop_engineless w Hw fmt q (List.length (selectedFiles s1))
              (selectedFiles s1) 0 0 0 s1 Hl1)
    as (counts & s2 & new & EQ2 & _ & Hcm2 & Hv & Hf).
  rewrite EQ2 in Hcm'. cbn in Hcm'. rewrite Hcm2, Hcm1 in Hcm'. cbn in Hcm'.
  rewrite Hsel1 in Hv, Hf.
  exists r, s'. split; [exact EQ'|]. rewrite Hcm'. split; assumption.
Qed.

Lemma convertMedia_engine_unavailable_witness :
  exists r s',
    convertMedia engineless_world
      (idle_converter [sample_image; sample_video] false) = (Ok r, s')
    /\ exists c, In c (convertedMedia s')
                 /\ passthrough_of engineless_world sample_video c.
Proof.
  destruct (convertMedia_engine_unavailable engineless_world
              (idle_converter [sample_image; sample_video] false))
    as (r & s' & EQ & Hf & _).
  - reflexivity.
  - reflexivity.
  - discriminate.
  - reflexivity.
  - repeat split; discriminate.
  - exists r, s'. split; [exact EQ|].
    apply Hf; [right; left; reflexivity | reflexivity | discriminate].
Defined.

(** *** The engine is run twice *)

Lemma count_exec_app (n : string) (l1 l2 : list Event) :
  count_exec n (l1 ++ l2) = count_exec n l1 + count_exec n l2.
Proof. unfold count_exec. rewrite filter_app, length_app. reflexivity. Qed.

Lemma count_runs_app (l1 l2 : list Event) :
  count_runs (l1 ++ l2) = count_runs l1 + count_runs l2.
Proof. unfold count_runs. rewrite filter_app, length_app. reflexivity. Qed.

(** A call of the transcoding method when the engine is loaded: one run of
    the engine, and [null] unless the run gives an output that can be
    probed. *)
Lemma convertVideoWithFFmpeg_loaded (w : World) (file : File) (fmt : string)
    (i : nat) (s : Converter) :
  ffmpegLoaded s = true ->
  convertVideoWithFFmpeg w file fmt i s
  = let s1 := add_event (EvTranscodeBegin (name file)) s in
    let s2 := add_event (EvExec (name file) fmt) s1 in
    let failed e st :=
      (Ok None, add_console ("FFmpeg conversion error for " ++ name file ++ ": " ++ e) st) in
    match transcode w (count_runs (log s)) file fmt with
    | WriteFails => failed "write failed" s1
    | ExecFails => failed "exec failed" s2
    | ReadFails => failed "read failed" s2
    | OutputUnreadable _ => (Ok None, s2)
    | Transcoded out vw vh secs =>
        (Ok (Some (transcodedResult
                     (applyFileNamePattern (clock w i) (currentPattern s2) (name file) i)
                     fmt file out vw vh secs)), s2)
    end.
Proof.
  intros Hl. unfold convertVideoWithFFmpeg, try_catch, bind, get, yieldToMain, ret, modify.
  rewrite Hl. cbn [negb].
  destruct (transcode w (count_runs (log s)) file fmt); reflexivity.
Qed.

(** Whenever the engine is loaded and transcodes the file, the video stage
    starts a second run of the engine on the same file, and returns what that
    second run gives: [exec] is called twice, unless the second run fails
    before it gets there. *)
Lemma convertSingleVideoAsync_second_run (w : World) (file : File)
    (fmt : string) (i : nat) (s : Converter) out vw vh secs :
  ffmpegLoaded s = true ->
  transcode w (count_runs (log s)) file fmt = Transcoded out vw vh secs ->
  transcode w (S (count_runs (log s))) file fmt <> WriteFails ->
  count_exec (name file) (log (snd (convertSingleVideoAsync w file fmt i s)))
  = 2 + count_exec (name file) (log s).
Proof.
  intros Hl T1 T2.
  unfold convertSingleVideoAsync, bind.
  rewrite (convertVideoWithFFmpeg_loaded w file fmt i s Hl), T1. cbv beta iota zeta.
  rewrite convertVideoWithFFmpeg_loaded by exact Hl. cbv beta iota zeta.
  assert (R : count_runs
                (log (add_event (EvExec (name file) fmt)
                        (add_event (EvTranscodeBegin (name file)) s)))
              = S (count_runs (log s))).
  { cbn [log add_event]. rewrite !count_runs_app. cbn. lia. }
  rewrite R.
  destruct (transcode w (S (count_runs (log s))) file fmt); try contradiction;
    cbn [snd log add_event add_console]; rewrite !count_exec_app; cbn;
    rewrite String.eqb_refl; cbn; lia.
Qed.

(** C4, at a video file that the loaded engine transcodes: one call of the
    video stage calls [exec] twice for the file. *)
Theorem convertSingleVideoAsync_runs_engine_twice :
  log (snd (convertSingleVideoAsync obliging_world sample_video "mp4" 0
              (idle_converter [sample_video] true)))
  = [EvTranscodeBegin "clip.avi"; EvExec "clip.avi" "mp4";
     EvTranscodeBegin "clip.avi"; EvExec "clip.avi" "mp4"]
  /\ count_exec "clip.avi"
       (log (snd (convertSingleVideoAsync obliging_world sample_video "mp4" 0
                    (idle_converter [sample_video] true)))) = 2.
Proof. split; vm_compute; reflexivity. Qed.

(** *** Counting the files of a batch *)

(** The stages leave [convertedMedia] alone: only the loop pushes. *)
Lemma stage_keeps_results (w : World) (file : File) (fmt : string) (quality : num)
    (i : nat) (s : Converter) :
  convertedMedia (snd (convertSingleImageAsync w file fmt quality i s)) = convertedMedia s
  /\ convertedMedia (snd (convertSingleVideoAsync w file fmt i s)) = convertedMedia s.
Proof.
  split.
  - apply (keeps_convertSingleImageAsync w (fun x => convertedMedia x = convertedMedia s));
      try reflexivity; frame_by_computation.
  - apply (keeps_convertSingleVideoAsync w (fun x => convertedMedia x = convertedMedia s));
      try reflexivity; frame_by_computation.
Qed.

(** The inner [try]/[catch] never lets an error out, and pushes one record
    exactly when it counts a success. *)
Lemma processFile_spec (w : World) (fmt : string) (quality : num) (i : nat)
    (file : File) (s : Converter) :
  exists o s',
    processFile w fmt quality i file s = (Ok o, s')
    /\ match o with
       | Succeeded => exists c, convertedMedia s' = (convertedMedia s ++ [c])%list
       | _ => convertedMedia s' = convertedMedia s
       end.
Proof.
  destruct (stage_keeps_results w file fmt quality i s) as [Hi Hv].
  unfold processFile, try_catch, bind.
  destruct (JsString.startsWith (type file) "image/").
  - destruct (convertSingleImageAsync w file fmt quality i s) as [[c|e] s1];
      cbn in *.
    + eexists Succeeded, _. split; [reflexivity|]. exists c. cbn. rewrite Hi. reflexivity.
    + eexists Failed, _. split; [reflexivity|]. cbn. exact Hi.
  - destruct (JsString.startsWith (type file) "video/").
    + destruct (convertSingleVideoAsync w file fmt i s) as [[[c|]|e] s1]; cbn in *.
      * eexists Succeeded, _. split; [reflexivity|]. exists c. cbn. rewrite Hv. reflexivity.
      * eexists NotCounted, _. split; [reflexivity|]. exact Hv.
      * eexists Failed, _. split; [reflexivity|]. cbn. exact Hv.
    + cbn. eexists NotCounted, _. split; [reflexivity|]. reflexivity.
Qed.

(** The loop never throws: an error in one file does not end the batch.  It
    starts on the files one after the other in the order of the selection,
    [successCount] grows by the number of records pushed, and the two
    counters together grow by at most the number of files. *)
Lemma batchLoop_counts (w : World) (fmt : string) (quality : num) (total : nat)
    (files : list File) :
  forall i sc fc (s : Converter),
    exists sc' fc' s' new,
      batchLoop w fmt quality total files i sc fc s = (Ok (sc', fc'), s')
      /\ convertedMedia s' = (convertedMedia s ++ new)%list
      /\ sc' = sc + List.length new
      /\ fc <= fc'
      /\ sc' + fc' <= sc + fc + List.length files.
Proof.
  induction files as [|file rest IH]; intros i sc fc s.
  - exists sc, fc, s, []. split; [reflexivity|]. rewrite app_nil_r. cbn.
    repeat split; lia.
  - rewrite batchLoop_cons.
    destruct (processFile_spec w fmt quality i file
                (add_event (EvFileStart i (name file))
                   (snd (updateProgress (progressPercent i total)
                           (progressCaption i total file) s))))
      as (o & s1 & EQ & Ho).
    rewrite EQ. cbn in Ho.
    destruct o.
    + destruct Ho as [c Hc].
      destruct (IH (S i) (S sc) fc s1) as (sc' & fc' & s2 & new & EQ2 & Hcm & Hsc & Hfc & Hle).
      exists sc', fc', s2, (c :: new). split; [exact EQ2|].
      rewrite Hcm, Hc, <- app_assoc. cbn. repeat split; lia.
    + destruct (IH (S i) sc fc s1) as (sc' & fc' & s2 & new & EQ2 & Hcm & Hsc & Hfc & Hle).
      exists sc', fc', s2, new. split; [exact EQ2|].
      rewrite Hcm, Ho. cbn. repeat split; lia.
    + destruct (IH (S i) sc (S fc) s1) as (sc' & fc' & s2 & new & EQ2 & Hcm & Hsc & Hfc & Hle).
      exists sc', fc', s2, new. split; [exact EQ2|].
      rewrite Hcm, Ho. cbn. repeat split; lia.
Qed.

Lemma file_starts_app (l1 l2 : list Event) :
  file_starts (l1 ++ l2) = (file_starts l1 ++ file_starts l2)%list.
Proof. unfold file_starts. apply flat_map_app. Qed.

(** The loop starts on the files in the order of the selection, each with
    its own index. *)
Lemma batchLoop_order (w : World) (fmt : string) (quality : num) (total : nat)
    (files : list File) :
  forall i sc fc (s : Converter),
    file_starts (log (snd (batchLoop w fmt quality total files i sc fc s)))
    = (file_starts (log s) ++ numbered i files)%list.
Proof.
  induction files as [|file rest IH]; intros i sc fc s.
  - cbn. rewrite app_nil_r. reflexivity.
  - rewrite batchLoop_cons.
    set (s0 := add_event (EvFileStart i (name file))
                 (snd (updateProgress (progressPercent i total)
                         (progressCaption i total file) s))).
    assert (H0 : file_starts (log s0) = (file_starts (log s) ++ [(i, name file)])%list).
    { subst s0. cbn. rewrite file_starts_app. reflexivity. }
    assert (H1 : file_starts (log (snd (processFile w fmt quality i file s0)))
                 = file_starts (log s0)).
    { apply (keeps_processFile w (fun x => file_starts (log x) = file_starts (log s0)));
        try reflexivity; intros; try (destruct s1; cbn in *; assumption).
      - destruct e; try discriminate; destruct s1; cbn in *;
          rewrite file_starts_app; cbn; rewrite app_nil_r; assumption. }
    destruct (processFile_spec w fmt quality i file s0) as (o & s1 & EQ & _).
    rewrite EQ in H1 |- *. cbn [snd] in H1.
    destruct o; rewrite IH, H1, H0, <- app_assoc; reflexivity.
Qed.

(** C1, at a batch of one video that the loaded engine transcodes once and
    then fails on: the run ends with both counters at zero, no record and no
    line that says that the file failed, although one file was selected. *)
Theorem convertMedia_loses_count_of_a_file :
  exists s',
    convertMedia flaky_world (idle_converter [sample_video] true)
    = (Ok (BatchCompleted 0 0), s')
    /\ List.length (selectedFiles s') = 1
    /\ convertedMedia s' = []
    /\ console s' = ["FFmpeg conversion error for clip.avi: exec failed"]
    /\ notifications s' = ["converted 0 files in 0.01s"].
Proof. eexists. split; [vm_compute; reflexivity|]. repeat split. Qed.

(** A media file goes uncounted only in one way: it is a video, the first
    call of the transcoding method gave a record and the second call, made to
    fetch it, gave [null]. *)
Lemma processFile_not_counted (w : World) (fmt : string) (quality : num) (i : nat)
    (file : File) (s s' : Converter) :
  is_image file || is_video file = true ->
  processFile w fmt quality i file s = (Ok NotCounted, s') ->
  is_image file = false
  /\ exists c s1,
       convertVideoWithFFmpeg w file fmt i s = (Ok (Some c), s1)
       /\ convertVideoWithFFmpeg w file fmt i s1 = (Ok None, s').
Proof.
  unfold is_image, is_video, processFile, try_catch, bind. intros Hmedia.
  destruct (JsString.startsWith (type file) "image/").
  - destruct (convertSingleImageAsync w file fmt quality i s) as [[c|e] s1];
      cbn; discriminate.
  - cbn in Hmedia. rewrite Hmedia.
    unfold convertSingleVideoAsync, bind.
    destruct (convertVideoWithFFmpeg w file fmt i s) as [[[c|]|e] s1] eqn:E1.
    + destruct (convertVideoWithFFmpeg w file fmt i s1) as [[[c2|]|e] s2] eqn:E2;
        cbn; try discriminate.
      intros H. injection H as <-. split; [reflexivity|]. exists c, s1. auto.
    + unfold yieldToMain, ret, get. cbn.
      destruct (video_probe w file) as [[[vw vh] secs]|]; cbn; discriminate.
    + cbn. discriminate.
Qed.

(** In a batch of images every file is counted, as a success or as a
    failure. *)
Lemma batchLoop_counts_images (w : World) (fmt : string) (quality : num)
    (total : nat) (files : list File) :
  forallb is_image files = true ->
  forall i sc fc (s : Converter),
    exists sc' fc' s',
      batchLoop w fmt quality total files i sc fc s = (Ok (sc', fc'), s')
      /\ sc' + fc' = sc + fc + List.length files.
Proof.
  induction files as [|file rest IH]; intros Himg i sc fc s.
  - exists sc, fc, s. split; [reflexivity|]. cbn. lia.
  - cbn in Himg. apply andb_prop in Himg. destruct Himg as [Hf Hrest].
    rewrite batchLoop_cons.
    destruct (processFile_spec w fmt quality i file
                (add_event (EvFileStart i (name file))
                   (snd (updateProgress (progressPercent i total)
                           (progressCaption i total file) s))))
      as (o & s1 & EQ & _).
    rewrite EQ.
    destruct o.
    + destruct (IH Hrest (S i) (S sc) fc s1) as (sc' & fc' & s2 & EQ2 & Hsum).
      exists sc', fc', s2. split; [exact EQ2|]. cbn. lia.
    + apply processFile_not_counted in EQ; [|rewrite Hf; reflexivity].
      destruct EQ as [Hno _]. congruence.
    + destruct (IH Hrest (S i) sc (S fc) s1) as (sc' & fc' & s2 & EQ2 & Hsum).
      exists sc', fc', s2. split; [exact EQ2|]. cbn. lia.
Qed.

(** *** Further facts *)

(** The constructor does not cache the resize controls in [this.elements]:
    on such a page the calculator returns the original size. *)
Lemma calculateResizeDimensions_uncached (els : Elements) (ow oh : num) :
  resizeWidth els = None ->
  resizeHeight els = None ->
  calculateResizeDimensions els ow oh = (ow, oh).
Proof.
  intros Hw Hh. unfold calculateResizeDimensions. rewrite Hw, Hh. reflexivity.
Qed.

(** Whatever the body of the outer [try] does and however it ends, the
    [finally] block leaves the running flag off, and the method ends
    normally when the handler does. *)
Lemma outer_finally_releases (body : M RunOutcome) (handler : string -> M RunOutcome)
    (s : Converter) :
  (forall e s0, exists r s1, handler e s0 = (Ok r, s1)) ->
  exists r s',
    try_finally (try_catch body handler)
      (modify (set_isConverting false) ;; setConvertButtonState false "convert") s
    = (Ok r, s')
    /\ isConverting s' = false.
Proof.
  intros Hh. unfold try_finally, try_catch.
  destruct (body s) as [[r|e] s1].
  - eexists _, _. split; [reflexivity|].
    destruct s1 as [? ? ? ? ? els ? ? ?]. destruct els as [[b|] ? ? ? ? ? ? ? ? ? ? ?];
      reflexivity.
  - destruct (Hh e s1) as (r & s2 & ->).
    eexists _, _. split; [reflexivity|].
    destruct s2 as [? ? ? ? ? els ? ? ?]. destruct els as [[b|] ? ? ? ? ? ? ? ? ? ? ?];
      reflexivity.
Qed.

(** A run in which building the preview throws: the outer [catch] reports
    the failure and the [finally] block releases the converter. *)
Example convertMedia_recovers_from_preview_error :
  exists s',
    convertMedia previewless_world (idle_converter [sample_image] false)
    = (Ok (BatchFailed "imagesContainer is null"), s')
    /\ isConverting s' = false
    /\ convertBtn (elements s') = Some (mkButton false "convert" false)
    /\ List.length (convertedMedia s') = 1.
Proof. eexists. split; [vm_compute; reflexivity|]. repeat split. Qed.

(** The second scenario of the specification: two images and a video, the
    engine failing to load.  All three files succeed, and the record of the
    video is the rename-only one. *)
Example convertMedia_two_images_one_video_no_engine :
  exists s' c1 c2 c3,
    convertMedia engineless_world
      (idle_converter [sample_image; sample_image; sample_video] false)
    = (Ok (BatchCompleted 3 0), s')
    /\ convertedMedia s' = [c1; c2; c3]
    /\ isVideo c1 = false /\ isVideo c2 = false
    /\ requiresServerConversion c3 = true
    /\ convertedSize c3 = originalSize c3
    /\ blob c3 = content sample_video.
Proof.
  eexists _, _, _, _. split; [vm_compute; reflexivity|].
  split; [reflexivity|]. repeat split.
Qed.

(** A run over images only, on a ready page: when the batch completes, the
    two counters add up to the number of files, and as many records as
    successes are left. *)
Lemma convertMedia_counts_images (w : World) (s : Converter) :
  selectedFiles s <> [] ->
  isConverting s = false ->
  page_ready (elements s) ->
  forallb is_image (selectedFiles s) = true ->
  exists r s',
    convertMedia w s = (Ok r, s')
    /\ (forall sc fc, r = BatchCompleted sc fc ->
        List.length (convertedMedia s') = sc
        /\ sc + fc = List.length (selectedFiles s)).
Proof.
  intros Hsel Hidle Hpage Himg.
  unfold convertMedia, bind, get.
  destruct (selectedFiles s) as [|f0 fs] eqn:E; [contradiction|].
  cbn [List.length Nat.eqb]. rewrite Hidle. cbn [modify].
  destruct (convertMedia_setup_ready w (set_isConverting true s) Hpage)
    as (fmt & q & s1 & EQ & _ & Hsel1 & Hcm1 & _ & _).
  rewrite EQ. cbn [fst snd]. cbn in Hsel1. rewrite E in Hsel1.
  destruct (convertMedia_batch_spec w fmt q s1)
    as (r & s' & EQ' & _ & Hcm' & _ & _ & _ & R).
  rewrite Hsel1 in *.
  destruct (batchLoop_counts w fmt q (List.length (f0 :: fs)) (f0 :: fs) 0 0 0 s1)
    as (sc & fc & s2 & new & EQ2 & Hcm2 & Hsc & _ & _).
  destruct (batchLoop_counts_images w fmt q (List.length (f0 :: fs)) (f0 :: fs) Himg 0 0 0 s1)
    as (sc' & fc' & s2' & EQ3 & Hsum).
  rewrite EQ2 in EQ3. injection EQ3 as <- <- <-.
  exists r, s'. split; [exact EQ'|].
  intros sc0 fc0 Hr. rewrite EQ2 in R, Hcm'. cbn [fst snd] in R, Hcm'.
  destruct R as [(a & b & Hab & Hrun)|(e & He)]; [|congruence].
  rewrite Hr in Hab. injection Hab as -> ->. injection Hrun as <- <-.
  rewrite Hcm', Hcm2, Hcm1. cbn in *. split; lia.
Qed.

(** In a batch of images and videos every file is counted, as a success or
    as a failure, provided that the transcoding method, called again after it
    gave a record, does not give [null]. *)
Lemma batchLoop_counts_media (w : World) (fmt : string) (quality : num)
    (total : nat) (files : list File) :
  forallb (fun f => is_image f || is_video f) files = true ->
  (forall file i s c s1,
      convertVideoWithFFmpeg w file fmt i s = (Ok (Some c), s1) ->
      fst (convertVideoWithFFmpeg w file fmt i s1) <> Ok None) ->
  forall i sc fc (s : Converter),
    exists sc' fc' s',
      batchLoop w fmt quality total files i sc fc s = (Ok (sc', fc'), s')
      /\ sc' + fc' = sc + fc + List.length files.
Proof.
  intros Hmedia Hsecond. induction files as [|file rest IH]; intros i sc fc s.
  - exists sc, fc, s. split; [reflexivity|]. cbn. lia.
  - cbn in Hmedia. apply andb_prop in Hmedia. destruct Hmedia as [Hf Hrest].
    rewrite batchLoop_cons.
    destruct (processFile_spec w fmt quality i file
                (add_event (EvFileStart i (name file))
                   (snd (updateProgress (progressPercent i total)
                           (progressCaption i total file) s))))
      as (o & s1 & EQ & _).
    rewrite EQ.
    destruct o.
    + destruct (IH Hrest (S i) (S sc) fc s1) as (sc' & fc' & s2 & EQ2 & Hsum).
      exists sc', fc', s2. split; [exact EQ2|]. cbn. lia.
    + apply processFile_not_counted in EQ; [|exact Hf].
      destruct EQ as (_ & c & s0 & E1 & E2).
      exfalso. apply (Hsecond _ _ _ _ _ E1). rewrite E2. reflexivity.
    + destruct (IH Hrest (S i) sc (S fc) s1) as (sc' & fc' & s2 & EQ2 & Hsum).
      exists sc', fc', s2. split; [exact EQ2|]. cbn. lia.
Qed.

(** The load of the engine is attempted again for each video while it has
    not succeeded: when the attempt at the start of the run fails and the
    next one succeeds, the video is transcoded and its record does not ask
    for a conversion on a server. *)
Example convertMedia_later_load_succeeds :
  exists s' c,
    convertMedia late_engine_world (idle_converter [sample_video] false)
    = (Ok (BatchCompleted 1 0), s')
    /\ convertedMedia s' = [c]
    /\ requiresServerConversion c = false
    /\ ffmpegLoaded s' = true
    /\ count_loads (log s') = 2.
Proof.
  eexists _, _. split; [vm_compute; reflexivity|].
  split; [reflexivity|]. repeat split.
Qed.

(** On a page without the progress section the method throws before its
    [try] block, after it has set the running flag: the flag stays on. *)
Example convertMedia_setup_error_keeps_flag :
  exists s',
    convertMedia obliging_world
      (mkConverter [sample_image] [] false false false page_without_progress [] [] [])
    = (Throw type_error, s')
    /\ isConverting s' = true.
Proof. eexists. split; [vm_compute; reflexivity|]. reflexivity. Qed.

(** ** Further properties of the script *)

(** *** Strings *)

Lemma length_take (n : nat) (s : string) :
  String.length (JsString.take n s) = Nat.min n (String.length s).
Proof.
  revert s. induction n as [|n IH]; intros [|c r]; cbn; try reflexivity.
  rewrite IH. reflexivity.
Qed.

Lemma length_append (a b : string) :
  String.length (a ++ b) = String.length a + String.length b.
Proof. induction a as [|c r IH]; cbn; [reflexivity|]. rewrite IH. reflexivity. Qed.

Lemma append_empty_r (a : string) : a ++ "" = a.
Proof. induction a as [|c r IH]; cbn; [reflexivity|]. rewrite IH. reflexivity. Qed.

Lemma append_assoc (a b c : string) : (a ++ b) ++ c = a ++ (b ++ c).
Proof. induction a as [|x r IH]; cbn; [reflexivity|]. rewrite IH. reflexivity. Qed.

Lemma take_append_exact (a b : string) :
  JsString.take (String.length a) (a ++ b) = a.
Proof. induction a as [|c r IH]; cbn; [reflexivity|]. rewrite IH. reflexivity. Qed.

Lemma take_all (n : nat) (s : string) :
  String.length s <= n -> JsString.take n s = s.
Proof.
  revert s. induction n as [|n IH]; intros [|c r] H; cbn in *; try reflexivity.
  - lia.
  - rewrite IH by lia. reflexivity.
Qed.

(** [s.substring(0, k)] is the prefix of [k] characters, of none when [k] is
    negative and of all when [k] exceeds the length. *)
Lemma substring_prefix (s : string) (k : Z) :
  JsString.substring s 0 k = JsString.take (Z.to_nat k) s.
Proof.
  unfold JsString.substring.
  set (len := Z.of_nat (String.length s)).
  assert (Hlen : (0 <= len)%Z) by (subst len; lia).
  replace (Z.min (Z.min (Z.max 0 0) len) (Z.min (Z.max k 0) len)) with 0%Z by lia.
  replace (Z.max (Z.min (Z.max 0 0) len) (Z.min (Z.max k 0) len))
    with (Z.min (Z.max k 0) len) by lia.
  cbn [Z.to_nat JsString.drop]. rewrite Z.sub_0_r.
  destruct (Z_le_gt_dec k len) as [Hk|Hk].
  - f_equal. lia.
  - replace (Z.min (Z.max k 0) len) with len by lia.
    subst len. rewrite Nat2Z.id.
    rewrite !take_all; [reflexivity | lia | lia].
Qed.

Lemma lastIndexOf_from_absent (c : ascii) (s : string) (i found : Z) :
  contains_char c s = false ->
  JsString.lastIndexOf_from c s i found = found.
Proof.
  revert i found. induction s as [|d r IH]; intros i found H; cbn in *.
  - reflexivity.
  - apply orb_false_iff in H. destruct H as [Hd Hr]. rewrite Hd. apply IH. exact Hr.
Qed.

Lemma lastIndexOf_from_last (c : ascii) (a b : string) (i found : Z) :
  contains_char c b = false ->
  JsString.lastIndexOf_from c (a ++ String c b) i found
  = (i + Z.of_nat (String.length a))%Z.
Proof.
  revert i found. induction a as [|d r IH]; intros i found H; cbn [append JsString.lastIndexOf_from].
  - rewrite Ascii.eqb_refl. rewrite lastIndexOf_from_absent by exact H. cbn. lia.
  - rewrite IH by exact H. cbn [String.length]. lia.
Qed.

(** [lastIndexOf] finds the last dot of a name, and answers -1 when there is
    none. *)
Lemma lastIndexOf_last (c : ascii) (a b : string) :
  contains_char c b = false ->
  JsString.lastIndexOf (a ++ String c b) c = Z.of_nat (String.length a).
Proof.
  intros H. unfold JsString.lastIndexOf. rewrite lastIndexOf_from_last by exact H. lia.
Qed.

Lemma lastIndexOf_absent (c : ascii) (s : string) :
  contains_char c s = false -> JsString.lastIndexOf s c = (-1)%Z.
Proof. intros H. apply lastIndexOf_from_absent. exact H. Qed.

(** *** Renaming *)

(** [getConvertedFileName] replaces the extension of a name that has one:
    whatever follows the last dot gives way to the target format. *)
Theorem getConvertedFileName_replaces_extension (stem ext targetFormat : string) :
  contains_char "." ext = false ->
  getConvertedFileName (stem ++ "." ++ ext) targetFormat = stem ++ "." ++ targetFormat.
Proof.
  intros H. unfold getConvertedFileName.
  change (stem ++ "." ++ ext) with (stem ++ String "." ext).
  rewrite lastIndexOf_last by exact H.
  rewrite substring_prefix, Nat2Z.id, take_append_exact. reflexivity.
Qed.

Lemma getConvertedFileName_replaces_extension_witness :
  getConvertedFileName ("holiday.2024" ++ "." ++ "JPG") "webp" = "holiday.2024" ++ "." ++ "webp".
Proof.
  apply (getConvertedFileName_replaces_extension "holiday.2024" "JPG" "webp").
  reflexivity.
Defined.

(** A name longer than the limit is cut to the start of its stem, three
    dots and its extension, and then has fewer characters than the limit,
    provided that the extension leaves room for the dots. *)
Theorem truncateFileName_fits (stem ext : string) (maxLength : nat) :
  contains_char "." ext = false ->
  maxLength < String.length (stem ++ "." ++ ext) ->
  String.length ext + 4 <= maxLength ->
  truncateFileName (stem ++ "." ++ ext) maxLength
  = JsString.take (maxLength - String.length ext - 4) stem ++ "..." ++ ext
  /\ String.length (truncateFileName (stem ++ "." ++ ext) maxLength) < maxLength.
Proof.
  intros Hext Hlong Hroom.
  assert (E : truncateFileName (stem ++ "." ++ ext) maxLength
              = JsString.take (maxLength - String.length ext - 4) stem ++ "..." ++ ext).
  { unfold truncateFileName.
    destruct (Nat.leb_spec (String.length (stem ++ "." ++ ext)) maxLength) as [Hle|_];
      [lia|].
    change (stem ++ "." ++ ext) with (stem ++ String "." ext).
    rewrite pop_split_last by exact Hext.
    rewrite lastIndexOf_last by exact Hext.
    rewrite !substring_prefix. rewrite Nat2Z.id, take_append_exact.
    replace (Z.to_nat (Z.of_nat maxLength - Z.of_nat (String.length ext) - 4))
      with (maxLength - String.length ext - 4) by lia.
    reflexivity. }
  split; [exact E|].
  rewrite E, !length_append, length_take. cbn [String.length]. lia.
Qed.

Lemma truncateFileName_fits_witness :
  String.length (truncateFileName ("a_very_long_file_name_that_goes_on_and_on" ++ "." ++ "jpeg") 30) < 30.
Proof.
  apply (truncateFileName_fits "a_very_long_file_name_that_goes_on_and_on" "jpeg" 30);
    [reflexivity | cbn; lia | cbn; lia].
Defined.

(** A name without a dot that is longer than the limit is not shortened at
    all: it only gets three dots in front. *)
Theorem truncateFileName_dotless_grows (fileName : string) (maxLength : nat) :
  contains_char "." fileName = false ->
  maxLength < String.length fileName ->
  truncateFileName fileName maxLength = "..." ++ fileName.
Proof.
  intros Hdot Hlong. unfold truncateFileName.
  destruct (Nat.leb_spec (String.length fileName) maxLength) as [Hle|_]; [lia|].
  rewrite pop_split_absent by exact Hdot.
  rewrite lastIndexOf_absent by exact Hdot.
  rewrite (substring_prefix fileName (-1)). cbn [Z.to_nat JsString.take].
  rewrite substring_prefix.
  destruct (Z.to_nat _); reflexivity.
Qed.

Lemma truncateFileName_dotless_grows_witness :
  truncateFileName "a_file_name_of_more_than_thirty_characters" 30
  = "..." ++ "a_file_name_of_more_than_thirty_characters".
Proof.
  apply (truncateFileName_dotless_grows "a_file_name_of_more_than_thirty_characters" 30);
    [reflexivity | cbn; lia].
Defined.

Lemma indexOf_brace_absent (token s : string) :
  contains_char "{" s = false ->
  JsString.indexOf (String "{" token) s = None.
Proof.
  intros H. induction s as [|d r IH].
  - reflexivity.
  - cbn [contains_char] in H. apply orb_false_iff in H. destruct H as [Hd Hr].
    cbn [JsString.indexOf String.prefix].
    destruct (ascii_dec "{" d) as [e|_].
    + subst d. rewrite Ascii.eqb_refl in Hd. discriminate.
    + rewrite IH by exact Hr. reflexivity.
Qed.

Lemma replace_brace_absent (s token repl : string) :
  contains_char "{" s = false ->
  JsString.replace s (String "{" token) repl = s.
Proof.
  intros H. unfold JsString.replace. rewrite indexOf_brace_absent by exact H.
  reflexivity.
Qed.

(** A pattern with no opening brace holds no token and comes back as it is,
    whatever the file, the index and the time. *)
Theorem applyFileNamePattern_plain (now : Clock) (pattern originalName : string)
    (index : nat) :
  contains_char "{" pattern = false ->
  applyFileNamePattern now pattern originalName index = pattern.
Proof.
  intros H. unfold applyFileNamePattern.
  rewrite (replace_brace_absent pattern "name}" _ H).
  rewrite (replace_brace_absent pattern "index}" _ H).
  rewrite (replace_brace_absent pattern "format}" _ H).
  rewrite (replace_brace_absent pattern "original_format}" _ H).
  rewrite (replace_brace_absent pattern "date}" _ H).
  rewrite (replace_brace_absent pattern "time}" _ H).
  apply (replace_brace_absent pattern "timestamp}" _ H).
Qed.

Lemma applyFileNamePattern_plain_witness :
  applyFileNamePattern sample_clock "export" "vacation.png" 4 = "export".
Proof. apply (applyFileNamePattern_plain sample_clock "export" "vacation.png" 4). reflexivity. Defined.

(** *** Format resolver, again *)

Lemma lower_char_not_dot (c : ascii) :
  Ascii.eqb "." (JsString.lower_char c) = Ascii.eqb "." c.
Proof.
  destruct c as [[] [] [] [] [] [] [] []]; vm_compute; reflexivity.
Qed.

Lemma toLowerCase_keeps_dots_out (s : string) :
  contains_char "." (JsString.toLowerCase s) = contains_char "." s.
Proof.
  unfold JsString.toLowerCase.
  induction s as [|c r IH]; [reflexivity|].
  cbn [JsString.map_string contains_char].
  rewrite lower_char_not_dot, IH. reflexivity.
Qed.

(** For a file with no MIME type and a name of ASCII characters the
    resolver answers a text that is not empty and holds no dot: the text
    after the last dot of the name, or the whole name when the name has no
    dot, lower-cased, and [unknown] when that text is empty. *)
Theorem getFileFormat_of_untyped_file (file : File) :
  type file = "" ->
  every_char is_ascii (name file) = true ->
  exists tail ext,
    contains_char "." tail = false
    /\ (name file = tail \/ exists stem, name file = stem ++ "." ++ tail)
    /\ ext = (if String.eqb tail "" then "unknown" else JsString.toLowerCase tail)
    /\ getFileFormat file = JString ext
    /\ ext <> ""
    /\ contains_char "." ext = false.
Proof.
  intros Ht _.
  destruct (last_dot (name file)) as (tail & Hdot & Hname).
  exists tail, (if String.eqb tail "" then "unknown" else JsString.toLowerCase tail).
  split; [exact Hdot|]. split; [exact Hname|]. split; [reflexivity|].
  split; [apply getFileFormat_untyped; assumption|].
  destruct (String.eqb_spec tail "") as [E|N].
  - split; [discriminate|reflexivity].
  - split.
    + intros E. apply N. destruct tail; [reflexivity|discriminate E].
    + rewrite toLowerCase_keeps_dots_out. exact Hdot.
Qed.

Lemma getFileFormat_of_untyped_file_witness :
  exists tail ext,
    (exists stem, "archive.tar.GZ" = stem ++ "." ++ tail)
    /\ getFileFormat (mkFile "archive.tar.GZ" "" []) = JString ext
    /\ ext = "gz".
Proof.
  destruct (getFileFormat_of_untyped_file (mkFile "archive.tar.GZ" "" []) eq_refl eq_refl)
    as (tail & ext & Hdot & Hname & Hext & Hfmt & _).
  cbn [name] in Hname.
  exists tail, ext. split; [|split; [exact Hfmt|]].
  - destruct Hname as [<-|H]; [discriminate Hdot|exact H].
  - assert (E : JString ext = JString "gz") by (rewrite <- Hfmt; reflexivity).
    injection E as ->. reflexivity.
Defined.

Lemma split_acc_prefix_char (c d : ascii) (s cur : string) :
  Ascii.eqb c d = false ->
  JsString.split_acc c (String d s) cur = JsString.split_acc c s (cur ++ String d "").
Proof. intros H. cbn. rewrite H. reflexivity. Qed.

Lemma startsWith_split (t p : string) :
  JsString.startsWith t p = true -> exists rest, t = p ++ rest.
Proof.
  unfold JsString.startsWith. revert t.
  induction p as [|c r IH]; intros t H.
  - exists t. reflexivity.
  - destruct t as [|d u]; [discriminate|]. cbn in H.
    destruct (ascii_dec c d) as [->|]; [|discriminate].
    destruct (IH u H) as [rest ->]. exists rest. reflexivity.
Qed.

(** For a file that the selection accepts, one whose MIME type starts with
    [image/] or [video/], the resolver never answers [undefined]. *)
Theorem getFileFormat_of_media_file (file : File) :
  is_image file || is_video file = true ->
  getFileFormat file <> JUndefined.
Proof.
  intros H. unfold getFileFormat.
  assert (S : exists seg more, JsString.split (type file) "/" = seg :: more /\ more <> []).
  { apply orb_true_iff in H. unfold is_image, is_video in H.
    destruct H as [H|H]; apply startsWith_split in H; destruct H as [rest ->].
    - exists "image", (JsString.split_acc "/" rest ""). split; [reflexivity|].
      apply split_acc_not_nil.
    - exists "video", (JsString.split_acc "/" rest ""). split; [reflexivity|].
      apply split_acc_not_nil. }
  destruct S as (seg & more & -> & Hmore).
  destruct (negb (String.eqb (type file) "")).
  - destruct more as [|sub more]; [contradiction|]. cbn [nth_error].
    destruct (formatMap sub) eqn:F; discriminate.
  - destruct (String.eqb _ ""); discriminate.
Qed.

Lemma getFileFormat_of_media_file_witness :
  getFileFormat (mkFile "x" "video/" []) <> JUndefined.
Proof. apply (getFileFormat_of_media_file (mkFile "x" "video/" [])). reflexivity. Defined.

(** *** Arguments for the engine *)

Lemma numbers_app (a b : list Arg) : numbers (a ++ b) = (numbers a ++ numbers b)%list.
Proof. unfold numbers. apply flat_map_app. Qed.

Lemma numbers_tail (els : Elements) (i o fmt : string) :
  numbers (buildFFmpegArgs els i o fmt)
  = numbers (codecArgs (sliderQuality els) (JsString.toLowerCase fmt)).
Proof.
  unfold buildFFmpegArgs.
  destruct (given (resizeWidth els) || given (resizeHeight els));
    rewrite !numbers_app; cbn [numbers flat_map app]; rewrite ?app_nil_r; reflexivity.
Qed.

Lemma slider_on_range (els : Elements) (q : nat) :
  qualitySlider els = Some (JsString.ofNat q) ->
  q <= 100 ->
  sliderQuality els = parseInt (Some (JsString.ofNat q)).
Proof.
  intros Hs Hq. unfold sliderQuality. rewrite Hs.
  do 101 (destruct q as [|q]; [reflexivity|]). exfalso. lia.
Qed.

Lemma h264_factor_on_range (q : nat) :
  q <= 100 ->
  qualityFactor 51 (hundredths 51) (parseInt (Some (JsString.ofNat q)))
  = Num (JsNum.ofZ ((5100 - 51 * Z.of_nat q + 50) / 100)).
Proof.
  intros Hq. do 101 (destruct q as [|q]; [vm_compute; reflexivity|]). exfalso. lia.
Qed.

Lemma vp9_factor_on_range (q : nat) :
  q <= 100 ->
  qualityFactor 63 (hundredths 63) (parseInt (Some (JsString.ofNat q)))
  = Num (JsNum.ofZ ((6300 - 63 * Z.of_nat q + 50) / 100)).
Proof.
  intros Hq. do 101 (destruct q as [|q]; [vm_compute; reflexivity|]). exfalso. lia.
Qed.

Lemma mpeg4_factor_on_range (q : nat) :
  q <= 100 ->
  qualityFactor 31 (hundredths 29) (parseInt (Some (JsString.ofNat q)))
  = Num (JsNum.ofZ ((3100 - 29 * Z.of_nat q + 50) / 100)).
Proof.
  intros Hq. do 101 (destruct q as [|q]; [vm_compute; reflexivity|]). exfalso. lia.
Qed.

Lemma hundredth_between (a lo hi : Z) :
  (100 * lo <= a < 100 * (hi + 1))%Z -> (lo <= a / 100 <= hi)%Z.
Proof.
  intros [H1 H2]. split.
  - apply Z.div_le_lower_bound; lia.
  - assert (a / 100 < hi + 1)%Z by (apply Z.div_lt_upper_bound; lia). lia.
Qed.

(** For a slider value from 0 to 100 the only number among the arguments is
    the quality factor, and the doubles of the script give exactly the
    rounded value of the exact formula: between 0 and 51 for MP4 and MOV,
    between 0 and 63 for WebM, between 2 and 31 for AVI. *)
Theorem buildFFmpegArgs_quality_factor (els : Elements) (i o fmt : string) (q : nat) :
  qualitySlider els = Some (JsString.ofNat q) ->
  q <= 100 ->
  let lowered := JsString.toLowerCase fmt in
  (lowered = "mp4" \/ lowered = "mov" ->
   exists k, numbers (buildFFmpegArgs els i o fmt) = [JsNum.ofZ k]
             /\ k = ((5100 - 51 * Z.of_nat q + 50) / 100)%Z /\ (0 <= k <= 51)%Z)
  /\ (lowered = "webm" ->
      exists k, numbers (buildFFmpegArgs els i o fmt) = [JsNum.ofZ k]
                /\ k = ((6300 - 63 * Z.of_nat q + 50) / 100)%Z /\ (0 <= k <= 63)%Z)
  /\ (lowered = "avi" ->
      exists k, numbers (buildFFmpegArgs els i o fmt) = [JsNum.ofZ k]
                /\ k = ((3100 - 29 * Z.of_nat q + 50) / 100)%Z /\ (2 <= k <= 31)%Z).
Proof.
  intros Hs Hq lowered. subst lowered.
  rewrite numbers_tail, (slider_on_range els q Hs Hq).
  split; [|split].
  - intros [E|E]; rewrite E; cbn [codecArgs String.eqb Ascii.eqb Bool.eqb numbers flat_map app];
      rewrite (h264_factor_on_range q Hq); eexists; (split; [reflexivity|]);
      (split; [reflexivity|]);
      apply hundredth_between; lia.
  - intros E. rewrite E. cbn [codecArgs String.eqb Ascii.eqb Bool.eqb numbers flat_map app].
    rewrite (vp9_factor_on_range q Hq). eexists. split; [reflexivity|].
    split; [reflexivity|].
    apply hundredth_between; lia.
  - intros E. rewrite E. cbn [codecArgs String.eqb Ascii.eqb Bool.eqb numbers flat_map app].
    rewrite (mpeg4_factor_on_range q Hq). eexists. split; [reflexivity|].
    split; [reflexivity|].
    apply hundredth_between; lia.
Qed.

Lemma buildFFmpegArgs_quality_factor_witness :
  exists k, numbers (buildFFmpegArgs (quality_page (JsString.ofNat 85)) "in.avi" "out.mp4" "MP4")
            = [JsNum.ofZ k] /\ k = 8%Z.
Proof.
  destruct (proj1 (buildFFmpegArgs_quality_factor
                     (quality_page (JsString.ofNat 85)) "in.avi" "out.mp4" "MP4" 85
                     eq_refl ltac:(lia)) (or_introl eq_refl))
    as (k & Hk & Hv & _).
  exists k. split; [exact Hk|]. rewrite Hv. reflexivity.
Defined.

Lemma codecArgs_no_filter (quality : num) (lowered : string) :
  ~ In (Text "-vf") (codecArgs quality lowered).
Proof.
  unfold codecArgs, qualityFactor.
  repeat match goal with
         | |- context [if ?b then _ else _] => destruct b
         end;
    cbn [In]; intros H;
    repeat match goal with
           | H : _ \/ _ |- _ => destruct H as [H|H]; [discriminate H|]
           end; exact H.
Qed.

(** The arguments always open with [-i] and the input name and close with
    [-y] and the output name.  Between them a scale filter stands exactly
    when a width or a height is set, right before [-y], with the values as
    typed and -1 for the side that is not set. *)
Theorem buildFFmpegArgs_frame (els : Elements) (i o fmt : string) :
  exists codec,
    ~ In (Text "-vf") codec
    /\ buildFFmpegArgs els i o fmt
       = (Text "-i" :: Text i :: codec
            ++ (if given (resizeWidth els) || given (resizeHeight els)
                then [Text "-vf";
                      Text ("scale="
                            ++ (if given (resizeWidth els)
                                then match resizeWidth els with Some v => v | None => "" end
                                else "-1")
                            ++ ":"
                            ++ (if given (resizeHeight els)
                                then match resizeHeight els with Some v => v | None => "" end
                                else "-1"))]
                else [])
            ++ [Text "-y"; Text o])%list.
Proof.
  exists (codecArgs (sliderQuality els) (JsString.toLowerCase fmt)).
  split; [apply codecArgs_no_filter|].
  unfold buildFFmpegArgs, or_auto, given.
  destruct (resizeWidth els) as [wv|]; destruct (resizeHeight els) as [hv|];
    try destruct (String.eqb wv ""); try destruct (String.eqb hv "");
    cbn [negb orb app]; rewrite <- ?app_assoc; reflexivity.
Qed.

(** For a target format other than MP4, WebM, AVI and MOV the arguments
    carry no quality factor at all, whatever the slider says: the video is
    encoded with the default settings of H.264 and AAC. *)
Theorem buildFFmpegArgs_unknown_format (els : Elements) (i o fmt : string) :
  let lowered := JsString.toLowerCase fmt in
  lowered <> "mp4" -> lowered <> "webm" -> lowered <> "avi" -> lowered <> "mov" ->
  numbers (buildFFmpegArgs els i o fmt) = []
  /\ exists rest,
       buildFFmpegArgs els i o fmt
       = (Text "-i" :: Text i
            :: Text "-c:v" :: Text "libx264" :: Text "-c:a" :: Text "aac" :: rest)%list.
Proof.
  intros lowered H1 H2 H3 H4.
  assert (C : codecArgs (sliderQuality els) lowered
              = [Text "-c:v"; Text "libx264"; Text "-c:a"; Text "aac"]).
  { unfold codecArgs.
    destruct (String.eqb_spec lowered "mp4"); [contradiction|].
    destruct (String.eqb_spec lowered "webm"); [contradiction|].
    destruct (String.eqb_spec lowered "avi"); [contradiction|].
    destruct (String.eqb_spec lowered "mov"); [contradiction|].
    reflexivity. }
  split.
  - rewrite numbers_tail. fold lowered. rewrite C. reflexivity.
  - unfold buildFFmpegArgs. fold lowered. rewrite C.
    destruct (given (resizeWidth els) || given (resizeHeight els));
      eexists; cbn [app]; reflexivity.
Qed.

Lemma buildFFmpegArgs_unknown_format_witness :
  numbers (buildFFmpegArgs (quality_page "40") "in.mov" "out.webp" "webp") = [].
Proof.
  apply (buildFFmpegArgs_unknown_format (quality_page "40") "in.mov" "out.webp" "webp");
    discriminate.
Defined.

(** *** The engine is loaded once *)

Lemma step_counts_loads (a : Action) (sys sys' : Sys) (o : Observation) :
  consistent sys -> step a sys = Some (o, sys') ->
  (if ffmpegLoaded (this sys) then 1 else 0) + completed_loads [o]
  = (if ffmpegLoaded (this sys') then 1 else 0).
Proof.
  intros [Hn Hl] Hstep. destruct sys as [s n]. cbn in *.
  destruct a as [|ok]; cbn in Hstep.
  - unfold loadFFmpeg_enter in Hstep.
    destruct (ffmpegLoaded s) eqn:L1; destruct (ffmpegLoading s) eqn:L2;
      cbn in Hstep; inversion Hstep; subst; clear Hstep;
      cbn; try rewrite L1; reflexivity.
  - destruct n as [|n]; [discriminate|].
    destruct (ffmpegLoading s) eqn:L2; [|discriminate].
    pose proof (Hl eq_refl) as L1.
    destruct ok; cbn in Hstep; inversion Hstep; subst; clear Hstep;
      cbn; rewrite ?L1; reflexivity.
Qed.

Lemma completed_loads_cons (o : Observation) (os : list Observation) :
  completed_loads (o :: os) = completed_loads [o] + completed_loads os.
Proof.
  unfold completed_loads. cbn [filter].
  destruct o as [b| |[[|]|e]]; reflexivity.
Qed.

Lemma run_counts_loads (acts : list Action) :
  forall sys sys' os,
    consistent sys -> run acts sys = Some (os, sys') ->
    (if ffmpegLoaded (this sys) then 1 else 0) + completed_loads os
    = (if ffmpegLoaded (this sys') then 1 else 0).
Proof.
  induction acts as [|a rest IH]; intros sys sys' os Hc Hrun; cbn in Hrun.
  - inversion Hrun; subst. cbn. lia.
  - destruct (step a sys) as [[o sys1]|] eqn:E; [|discriminate].
    destruct (run rest sys1) as [[os1 sys2]|] eqn:R; [|discriminate].
    inversion Hrun; subst; clear Hrun.
    pose proof (step_counts_loads a sys sys1 o Hc E) as H1.
    pose proof (IH sys1 sys' os1 (step_keeps_consistent a sys sys1 o Hc E) R) as H2.
    rewrite completed_loads_cons. lia.
Qed.

(** From the converter as constructed, whatever calls of [loadFFmpeg] and
    settlements of loads follow, at most one load ends with the engine
    loaded, and [ffmpegLoaded] tells whether one did.  Once the engine is
    loaded no load is in flight, and every call returns [true] at once and
    leaves the converter as it is. *)
Theorem loadFFmpeg_loads_once (page : Elements) (acts : list Action)
    (os : list Observation) (sys : Sys) :
  run acts (mkSys (new_converter page) 0) = Some (os, sys) ->
  completed_loads os = (if ffmpegLoaded (this sys) then 1 else 0)
  /\ (ffmpegLoaded (this sys) = true ->
      inFlight sys = 0 /\ step Request sys = Some (Returned true, sys)).
Proof.
  intros Hrun.
  assert (Hc0 : consistent (mkSys (new_converter page) 0)).
  { split; cbn; [reflexivity|discriminate]. }
  split.
  - exact (run_counts_loads acts _ _ _ Hc0 Hrun).
  - intros Hl.
    destruct (run_keeps_consistent acts _ _ _ Hc0 Hrun) as [Hn Hg].
    destruct sys as [s n]. cbn in *.
    destruct (ffmpegLoading s) eqn:L2.
    + rewrite (Hg eq_refl) in Hl. discriminate.
    + split; [exact Hn|]. unfold step, loadFFmpeg_enter. cbn. rewrite Hl. reflexivity.
Qed.

Lemma loadFFmpeg_loads_once_witness :
  completed_loads [LoadStarted; LoadFinished (Ok false); LoadStarted;
                   LoadFinished (Ok true); Returned true] = 1.
Proof.
  pose proof (loadFFmpeg_loads_once sample_page
                [Request; Settle false; Request; Settle true; Request]
                [LoadStarted; LoadFinished (Ok false); LoadStarted;
                 LoadFinished (Ok true); Returned true]) as H.
  vm_compute in H. vm_compute. exact (proj1 (H _ eq_refl)).
Defined.

(** A load that fails makes the call that started it return [false], and
    the failure is not remembered: no load is in flight afterwards, and the
    next call starts a new load of the engine. *)
Theorem loadFFmpeg_retries_after_failure (page : Elements) (acts : list Action)
    (os : list Observation) (sys sys1 : Sys) (o : Observation) :
  run acts (mkSys (new_converter page) 0) = Some (os, sys) ->
  step (Settle false) sys = Some (o, sys1) ->
  o = LoadFinished (Ok false)
  /\ inFlight sys1 = 0
  /\ exists sys2,
       step Request sys1 = Some (LoadStarted, sys2)
       /\ inFlight sys2 = 1
       /\ count_loads (log (this sys2)) = S (count_loads (log (this sys1))).
Proof.
  intros Hrun Hstep.
  assert (Hc : consistent sys).
  { eapply run_keeps_consistent; [|exact Hrun]. split; cbn; [reflexivity|discriminate]. }
  destruct Hc as [Hn Hl]. destruct sys as [s n]. cbn in *.
  destruct n as [|n]; [discriminate|].
  destruct (ffmpegLoading s) eqn:L2; [|discriminate].
  injection Hn as ->. specialize (Hl eq_refl).
  cbn in Hstep. inversion Hstep; subst; clear Hstep.
  split; [reflexivity|]. split; [reflexivity|].
  unfold step, loadFFmpeg_enter. cbn. rewrite Hl. cbn.
  eexists. split; [reflexivity|]. split; [reflexivity|].
  cbn. unfold count_loads. rewrite filter_app, length_app. cbn. lia.
Qed.

Lemma loadFFmpeg_retries_after_failure_witness :
  exists sys2,
    step Request
      (mkSys (set_ffmpegLoading false
                (add_notification "video conversion unavailable - using fallback"
                   (add_console "Failed to load FFmpeg: load failed"
                      (add_event EvLoadEngine
                         (add_notification "loading video converter engine..."
                            (set_ffmpegLoading true (new_converter sample_page))))))) 0)
    = Some (LoadStarted, sys2).
Proof.
  destruct (loadFFmpeg_retries_after_failure sample_page [Request] [LoadStarted]
              (mkSys (add_event EvLoadEngine
                        (add_notification "loading video converter engine..."
                           (set_ffmpegLoading true (new_converter sample_page)))) 1)
              (mkSys (set_ffmpegLoading false
                        (add_notification "video conversion unavailable - using fallback"
                           (add_console "Failed to load FFmpeg: load failed"
                              (add_event EvLoadEngine
                                 (add_notification "loading video converter engine..."
                                    (set_ffmpegLoading true (new_converter sample_page))))))) 0)
              (LoadFinished (Ok false)) eq_refl eq_refl) as (_ & _ & sys2 & H & _).
  exists sys2. exact H.
Defined.

(** *** Where the records of a run come from *)

Lemma currentPattern_eq (a b : Converter) :
  filenamePattern (elements a) = filenamePattern (elements b) ->
  currentPattern a = currentPattern b.
Proof. intros H. unfold currentPattern. rewrite H. reflexivity. Qed.

(** No stage of a conversion writes the control of the filename pattern. *)
Lemma stages_keep_pattern (w : World) (p : option string) :
  (forall file fmt quality i,
      keeps (fun x => filenamePattern (elements x) = p)
            (convertSingleImageAsync w file fmt quality i))
  /\ (forall file fmt i,
         keeps (fun x => filenamePattern (elements x) = p)
               (convertVideoWithFFmpeg w file fmt i))
  /\ (forall fmt quality total files i sc fc,
         keeps (fun x => filenamePattern (elements x) = p)
               (batchLoop w fmt quality total files i sc fc)).
Proof.
  split; [|split]; intros.
  - apply keeps_convertSingleImageAsync; frame_by_computation.
  - apply keeps_convertVideoWithFFmpeg; frame_by_computation.
  - apply keeps_batchLoop; frame_by_computation.
Qed.

Lemma convertSingleImageAsync_record (w : World) (file : File) (fmt : string)
    (quality : num) (i : nat) (s s' : Converter) (c : Converted) :
  convertSingleImageAsync w file fmt quality i s = (Ok c, s') ->
  outName c
  = getConvertedFileName
      (applyFileNamePattern (clock w i) (currentPattern s) (name file) i) fmt
  /\ originalSize c = size file
  /\ format c = JsString.toUpperCase fmt
  /\ isVideo c = false.
Proof.
  unfold convertSingleImageAsync.
  destruct (image_load w file) as [[iw ih]|]; [|discriminate].
  unfold bind, yieldToMain, ret, get, modify, throw.
  destruct (image_encode w file _ _ _) as [e|out]; intros H; inversion H.
  repeat split.
Qed.

Lemma convertVideoWithFFmpeg_record (w : World) (file : File) (fmt : string)
    (i : nat) (s s' : Converter) (c : Converted) :
  convertVideoWithFFmpeg w file fmt i s = (Ok (Some c), s') ->
  outName c
  = getConvertedFileName
      (applyFileNamePattern (clock w i) (currentPattern s) (name file) i) fmt
  /\ originalSize c = size file
  /\ format c = JsString.toUpperCase fmt
  /\ isVideo c = true.
Proof.
  assert (L : forall s0,
             ffmpegLoaded s0 = true ->
             currentPattern s0 = currentPattern s ->
             convertVideoWithFFmpeg w file fmt i s0 = (Ok (Some c), s') ->
             outName c
             = getConvertedFileName
                 (applyFileNamePattern (clock w i) (currentPattern s) (name file) i) fmt
             /\ originalSize c = size file
             /\ format c = JsString.toUpperCase fmt
             /\ isVideo c = true).
  { intros s0 Hl Hp. rewrite (convertVideoWithFFmpeg_loaded w file fmt i s0 Hl).
    cbv zeta.
    destruct (transcode w (count_runs (log s0)) file fmt); intros H; inversion H.
    rewrite <- Hp. repeat split. }
  destruct (ffmpegLoaded s) eqn:Hl; [apply L; [exact Hl|reflexivity]|].
  destruct (loadFFmpeg_spec w s) as (b & s1 & EQ & _ & _ & _ & Hels & _).
  intros H.
  destruct b.
  - destruct (ffmpegLoaded s1) eqn:Hl1.
    + apply (L s1 Hl1); [apply currentPattern_eq; rewrite Hels; reflexivity|].
      rewrite <- H. unfold convertVideoWithFFmpeg, try_catch, bind, get.
      rewrite Hl, Hl1. cbn [negb]. rewrite EQ. reflexivity.
    + revert H. unfold convertVideoWithFFmpeg, try_catch, bind, get.
      rewrite Hl. cbn [negb]. rewrite EQ. unfold yieldToMain, ret, modify.
      cbn [negb]. cbv beta iota.
      destruct (transcode w (count_runs (log s1)) file fmt); intros H; inversion H.
      rewrite <- (currentPattern_eq s1 s) by (rewrite Hels; reflexivity).
      repeat split.
  - revert H. unfold convertVideoWithFFmpeg, try_catch, bind, get.
    rewrite Hl. cbn [negb]. rewrite EQ. cbn. discriminate.
Qed.

Lemma convertSingleVideoAsync_record (w : World) (file : File) (fmt : string)
    (i : nat) (s s' : Converter) (c : Converted) :
  convertSingleVideoAsync w file fmt i s = (Ok (Some c), s') ->
  outName c
  = getConvertedFileName
      (applyFileNamePattern (clock w i) (currentPattern s) (name file) i) fmt
  /\ originalSize c = size file
  /\ format c = JsString.toUpperCase fmt
  /\ isVideo c = true.
Proof.
  unfold convertSingleVideoAsync, bind.
  destruct (convertVideoWithFFmpeg w file fmt i s) as [[[c0|]|e] s1] eqn:E1;
    [| |discriminate].
  all: assert (Hp : currentPattern s1 = currentPattern s)
         by (apply currentPattern_eq;
             pose proof (proj1 (proj2 (stages_keep_pattern w (filenamePattern (elements s))))
                           file fmt i s eq_refl) as K;
             rewrite E1 in K; exact K).
  - intros H. rewrite <- Hp. exact (convertVideoWithFFmpeg_record w file fmt i s1 s' c H).
  - unfold yieldToMain, ret, get.
    destruct (video_probe w file) as [[[vw vh] secs]|]; [|discriminate].
    intros H. injection H as <- <-. rewrite Hp. repeat split.
Qed.

Lemma processFile_record (w : World) (fmt : string) (quality : num) (i : nat)
    (file : File) (s : Converter) :
  exists o s',
    processFile w fmt quality i file s = (Ok o, s')
    /\ filenamePattern (elements s') = filenamePattern (elements s)
    /\ match o with
       | Succeeded =>
           exists c, convertedMedia s' = (convertedMedia s ++ [c])%list
                     /\ record_of w (currentPattern s) fmt i file c
       | _ => convertedMedia s' = convertedMedia s
       end.
Proof.
  destruct (stage_keeps_results w file fmt quality i s) as [Hi Hv].
  pose proof (keeps_processFile w
                (fun x => filenamePattern (elements x) = filenamePattern (elements s))) as K.
  specialize (K ltac:(frame_by_computation) ltac:(frame_by_computation)
                ltac:(frame_by_computation) ltac:(frame_by_computation)
                ltac:(frame_by_computation) ltac:(frame_by_computation)
                fmt quality i file s eq_refl).
  revert K. unfold processFile, try_catch, bind, is_video.
  destruct (JsString.startsWith (type file) "image/") eqn:Timg.
  - destruct (convertSingleImageAsync w file fmt quality i s) as [[c|e] s1] eqn:E;
      cbn in *; intros K.
    + eexists Succeeded, _. split; [reflexivity|]. split; [exact K|].
      exists c. cbn. rewrite Hi. split; [reflexivity|].
      destruct (convertSingleImageAsync_record w file fmt quality i s s1 c E)
        as (H1 & H2 & H3 & H4).
      unfold record_of, is_video. repeat split; try assumption.
      rewrite H4. symmetry.
      destruct (JsString.startsWith (type file) "video/") eqn:Tv; [|reflexivity].
      rewrite (video_is_not_image _ Tv) in Timg. discriminate.
    + eexists Failed, _. split; [reflexivity|]. split; [exact K|]. cbn. exact Hi.
  - destruct (JsString.startsWith (type file) "video/") eqn:Tv.
    + destruct (convertSingleVideoAsync w file fmt i s) as [[[c|]|e] s1] eqn:E;
        cbn in *; intros K.
      * eexists Succeeded, _. split; [reflexivity|]. split; [exact K|].
        exists c. cbn. rewrite Hv. split; [reflexivity|].
        destruct (convertSingleVideoAsync_record w file fmt i s s1 c E)
          as (H1 & H2 & H3 & H4).
        unfold record_of, is_video. rewrite Tv. repeat split; assumption.
      * eexists NotCounted, _. split; [reflexivity|]. split; [exact K|]. exact Hv.
      * eexists Failed, _. split; [reflexivity|]. split; [exact K|]. cbn. exact Hv.
    + cbn. intros K. eexists NotCounted, _. split; [reflexivity|]. split; reflexivity.
Qed.

Lemma batchLoop_records (w : World) (fmt : string) (quality : num) (total : nat)
    (files : list File) :
  forall i sc fc (s : Converter),
    exists sc' fc' s' new,
      batchLoop w fmt quality total files i sc fc s = (Ok (sc', fc'), s')
      /\ convertedMedia s' = (convertedMedia s ++ new)%list
      /\ sc' = sc + List.length new
      /\ records_of w (currentPattern s) fmt i files new.
Proof.
  induction files as [|file rest IH]; intros i sc fc s.
  - exists sc, fc, s, []. split; [reflexivity|]. rewrite app_nil_r. cbn.
    repeat split; [lia|constructor].
  - rewrite batchLoop_cons.
    set (s0 := add_event (EvFileStart i (name file))
                 (snd (updateProgress (progressPercent i total)
                         (progressCaption i total file) s))).
    assert (P0 : currentPattern s0 = currentPattern s).
    { apply currentPattern_eq. subst s0. clear. frame_by_computation.
      repeat match goal with
             | |- context [match ?x with _ => _ end] => destruct x
             end; reflexivity. }
    assert (C0 : convertedMedia s0 = convertedMedia s).
    { subst s0. clear. frame_by_computation. }
    destruct (processFile_record w fmt quality i file s0) as (o & s1 & EQ & Hp & Ho).
    rewrite EQ.
    assert (P1 : currentPattern s1 = currentPattern s).
    { rewrite <- P0. apply currentPattern_eq. exact Hp. }
    destruct o.
    + destruct Ho as (c & Hc & Hr).
      destruct (IH (S i) (S sc) fc s1) as (sc' & fc' & s2 & new & EQ2 & Hcm & Hsc & Hrs).
      exists sc', fc', s2, (c :: new). split; [exact EQ2|].
      rewrite Hcm, Hc, C0, <- app_assoc. cbn. repeat split; [lia|].
      apply records_push; [rewrite <- P0; exact Hr|rewrite <- P1; exact Hrs].
    + destruct (IH (S i) sc fc s1) as (sc' & fc' & s2 & new & EQ2 & Hcm & Hsc & Hrs).
      exists sc', fc', s2, new. split; [exact EQ2|].
      rewrite Hcm, Ho, C0. repeat split; [lia|].
      apply records_skip. rewrite <- P1. exact Hrs.
    + destruct (IH (S i) sc (S fc) s1) as (sc' & fc' & s2 & new & EQ2 & Hcm & Hsc & Hrs).
      exists sc', fc', s2, new. split; [exact EQ2|].
      rewrite Hcm, Ho, C0. repeat split; [lia|].
      apply records_skip. rewrite <- P1. exact Hrs.
Qed.

Lemma controls_present_inv (els : Elements) :
  controls_present els = true ->
  exists fmt q ps b,
    targetFormatOf els = Some fmt /\ qualitySlider els = Some q
    /\ progressSection els = Some ps /\ convertBtn els = Some b.
Proof.
  unfold controls_present, present. intros H.
  destruct (targetFormatOf els) as [fmt|]; [|discriminate].
  destruct (qualitySlider els) as [q|]; [|discriminate].
  destruct (progressSection els) as [ps|]; [|discriminate].
  destruct (convertBtn els) as [b|]; [|discriminate].
  exists fmt, q, ps, b. repeat split.
Qed.

(** With its controls on the page the first part of [convertMedia] ends
    normally and returns the format that the page gives; it empties the
    results and leaves the selection and the filename pattern as they
    are. *)
Lemma convertMedia_setup_settings (w : World) (s : Converter) (fmt : string) :
  controls_present (elements s) = true ->
  targetFormatOf (elements s) = Some fmt ->
  exists quality s1,
    convertMedia_setup w s = (Ok (fmt, quality), s1)
    /\ selectedFiles s1 = selectedFiles s
    /\ convertedMedia s1 = []
    /\ currentPattern s1 = currentPattern s.
Proof.
  intros Hc Hfmt.
  destruct (controls_present_inv _ Hc) as (fmt' & q & ps & b & H1 & H2 & H3 & H4).
  rewrite Hfmt in H1. injection H1 as <-. clear Hc.
  destruct s as [sel cm conv loaded loading els nots cons lg].
  destruct els as [b0 mt fs vs qs rw rh la fp ps0 pf pt].
  unfold targetFormatOf in Hfmt. cbn in *. subst b0 qs ps0.
  destruct mt as [mt|]; [|discriminate].
  unfold convertMedia_setup, bind, get, value_of, ret. cbn.
  destruct (String.eqb mt "video"); subst; cbn;
    destruct (existsb _ sel && negb loaded) eqn:E; cbn.
  all: try match goal with
       | |- context [loadFFmpeg ?w0 ?x] =>
           destruct (loadFFmpeg_spec w0 x) as (ld & s' & EQ & F1 & F2 & F3 & F4 & F5);
           rewrite EQ; clear EQ;
           destruct s' as [sel' cm' conv' loaded' loading' els' nots' cons' lg'];
           cbn in F1, F2, F3, F4, F5; subst sel' cm' conv' els'
       end.
  all: try destruct ld; cbn.
  all: destruct pf, pt; cbn.
  all: do 2 eexists; (split; [reflexivity|]); cbn.
  all: repeat split.
Qed.

(** A run of [convertMedia] on an idle converter with a selection and its
    controls on the page ends normally and leaves in [convertedMedia] only
    records of this run: each one made from a file of the selection, in the
    order of the selection and at most one for a file, named by the filename
    pattern and the target format of the page, with the size of the file as
    its original size, the target format in upper case as its format and the
    video flag of its file.  When the batch completes, there are as many
    records as successes counted. *)
Theorem convertMedia_records_follow_selection (w : World) (s : Converter) :
  selectedFiles s <> [] ->
  isConverting s = false ->
  controls_present (elements s) = true ->
  exists fmt r s',
    targetFormatOf (elements s) = Some fmt
    /\ convertMedia w s = (Ok r, s')
    /\ records_of w (currentPattern s) fmt 0 (selectedFiles s) (convertedMedia s')
    /\ (forall sc fc, r = BatchCompleted sc fc -> List.length (convertedMedia s') = sc).
Proof.
  intros Hsel Hidle Hc.
  destruct (controls_present_inv _ Hc) as (fmt & _ & _ & _ & Hfmt & _).
  exists fmt.
  unfold convertMedia, bind, get.
  destruct (selectedFiles s) as [|f0 fs] eqn:E; [contradiction|].
  cbn [List.length Nat.eqb]. rewrite Hidle. cbn [modify].
  destruct (convertMedia_setup_settings w (set_isConverting true s) fmt Hc Hfmt)
    as (q & s1 & EQ & Hsel1 & Hcm1 & Hp1).
  rewrite EQ. cbn [fst snd]. cbn in Hsel1. rewrite E in Hsel1.
  destruct (convertMedia_batch_spec w fmt q s1)
    as (r & s' & EQ' & _ & Hcm' & _ & _ & _ & R).
  rewrite Hsel1 in *.
  destruct (batchLoop_records w fmt q (List.length (f0 :: fs)) (f0 :: fs) 0 0 0 s1)
    as (sc & fc & s2 & new & EQ2 & Hcm2 & Hsc & Hrs).
  rewrite EQ2 in R, Hcm'. cbn [fst snd] in R, Hcm'.
  rewrite Hcm1, app_nil_l in Hcm2.
  exists r, s'. split; [exact Hfmt|]. split; [exact EQ'|]. split.
  - rewrite Hcm', Hcm2. rewrite Hp1 in Hrs. exact Hrs.
  - intros sc0 fc0 Hr.
    destruct R as [(a & b & Hab & Hrun)|(e & He)]; [|congruence].
    rewrite Hr in Hab. injection Hab as -> ->. injection Hrun as <- <-.
    rewrite Hcm', Hcm2. lia.
Qed.

Lemma convertMedia_records_follow_selection_witness :
  exists fmt r s',
    targetFormatOf sample_page = Some fmt
    /\ convertMedia obliging_world (idle_converter [sample_image; sample_video] false)
       = (Ok r, s').
Proof.
  destruct (convertMedia_records_follow_selection obliging_world
              (idle_converter [sample_image; sample_video] false))
    as (fmt & r & s' & H1 & H2 & _).
  - discriminate.
  - reflexivity.
  - reflexivity.
  - exists fmt, r, s'. split; assumption.
Defined.

(** *** A page without a control *)

Lemma convertMedia_setup_missing_control (w : World) (s : Converter) :
  controls_present (elements s) = false ->
  exists s1,
    convertMedia_setup w s = (Throw type_error, s1)
    /\ isConverting s1 = isConverting s
    /\ selectedFiles s1 = selectedFiles s.
Proof.
  intros H.
  destruct s as [sel cm conv loaded loading els nots cons lg].
  destruct els as [b mt fs vs qs rw rh la fp ps pf pt].
  unfold controls_present, targetFormatOf, present in H. cbn in H.
  unfold convertMedia_setup, bind, get, value_of, ret, throw. cbn.
  destruct mt as [mt|]; [|eexists; repeat split].
  destruct (String.eqb mt "video");
    [destruct vs as [v|]|destruct fs as [v|]]; try (eexists; repeat split; fail).
  all: destruct qs as [q|]; [|eexists; repeat split]; cbn.
  all: destruct (existsb _ sel && negb loaded) eqn:E; cbn.
  all: try match goal with
       | |- context [loadFFmpeg ?w0 ?x] =>
           destruct (loadFFmpeg_spec w0 x) as (ld & s' & EQ & F1 & F2 & F3 & F4 & F5);
           rewrite EQ; clear EQ;
           destruct s' as [sel' cm' conv' loaded' loading' els' nots' cons' lg'];
           cbn in F1, F2, F3, F4, F5; subst sel' cm' conv' els'
       end.
  all: try destruct ld; cbn.
  all: destruct ps as [p|]; destruct b as [b|]; try discriminate H; cbn.
  all: eexists; repeat split.
Qed.

(** On a page that lacks one of the controls that [convertMedia]
    dereferences before its [try] block, a run on an idle converter with a
    selection throws a type error after it has set the running flag, and
    nothing clears the flag: every later call is turned away as a second
    run. *)
Theorem convertMedia_missing_control_locks (w : World) (s : Converter) :
  selectedFiles s <> [] ->
  isConverting s = false ->
  controls_present (elements s) = false ->
  exists s',
    convertMedia w s = (Throw type_error, s')
    /\ isConverting s' = true
    /\ forall w', fst (convertMedia w' s') = Ok AlreadyInProgress.
Proof.
  intros Hsel Hidle Hc.
  destruct (convertMedia_setup_missing_control w (set_isConverting true s) Hc)
    as (s1 & EQ & Hflag & Hsel1).
  exists s1.
  assert (R : convertMedia w s = (Throw type_error, s1)).
  { unfold convertMedia, bind, get.
    destruct (selectedFiles s) as [|f fs]; [contradiction|].
    cbn [List.length Nat.eqb]. rewrite Hidle. cbn [modify]. rewrite EQ. reflexivity. }
  split; [exact R|]. split; [exact Hflag|].
  intros w'. unfold convertMedia, bind, get.
  rewrite Hsel1. cbn [set_isConverting selectedFiles].
  destruct (selectedFiles s) as [|f fs]; [contradiction|].
  cbn [List.length Nat.eqb]. rewrite Hflag. reflexivity.
Qed.

Lemma convertMedia_missing_control_locks_witness :
  exists s',
    convertMedia obliging_world
      (mkConverter [sample_image] [] false false false page_without_progress [] [] [])
    = (Throw type_error, s')
    /\ isConverting s' = true.
Proof.
  destruct (convertMedia_missing_control_locks obliging_world
              (mkConverter [sample_image] [] false false false page_without_progress
                 [] [] []))
    as (s' & H1 & H2 & _).
  - discriminate.
  - reflexivity.
  - reflexivity.
  - exists s'. split; assumption.
Defined.

(** *** What a run leaves alone *)

Section Untouched.

Variable w : World.
Variable selection : list File.
Variable engineLoaded : bool.

Let untouched (x : Converter) : Prop :=
  selectedFiles x = selection /\ (engineLoaded = true -> ffmpegLoaded x = true).

Local Ltac untouched_by_computation :=
  unfold untouched; intros;
  repeat match goal with
         | s : Converter |- _ => destruct s
         | e : Elements |- _ => destruct e
         end;
  cbn in *;
  repeat match goal with
         | |- context [match ?x with _ => _ end] => destruct x
         end;
  cbn in *; intuition congruence.

Lemma untouched_value_of (control : option string) : keeps untouched (value_of control).
Proof. destruct control; [apply keeps_ret|apply keeps_throw]. Qed.

Lemma untouched_setConvertButtonState (dis : bool) (text : string) :
  keeps untouched (setConvertButtonState dis text).
Proof. apply keeps_modify. untouched_by_computation. Qed.

Lemma untouched_updateProgress (p : num) (t : string) :
  keeps untouched (updateProgress p t).
Proof. apply keeps_updateProgress. untouched_by_computation. Qed.

Lemma untouched_showNotification (m : string) : keeps untouched (showNotification m).
Proof. apply keeps_showNotification. untouched_by_computation. Qed.

Lemma untouched_showProgressSection : keeps untouched showProgressSection.
Proof.
  unfold showProgressSection.
  apply keeps_bind; [apply keeps_get|]. intros s0.
  destruct (progressSection (elements s0)); [|apply keeps_throw].
  apply keeps_bind; [apply keeps_modify; untouched_by_computation|]. intros _.
  apply keeps_bind; [apply keeps_get|]. intros s1.
  destruct (convertBtn (elements s1)); [|apply keeps_throw].
  apply keeps_bind; [apply keeps_modify; untouched_by_computation|]. intros _.
  apply untouched_updateProgress.
Qed.

Lemma untouched_convertMedia_setup : keeps untouched (convertMedia_setup w).
Proof.
  unfold convertMedia_setup.
  apply keeps_bind; [apply keeps_get|]. intros s0.
  apply keeps_bind; [apply untouched_value_of|]. intros mt.
  apply keeps_bind;
    [destruct (String.eqb mt "video"); apply untouched_value_of|]. intros fmt.
  apply keeps_bind; [apply untouched_value_of|]. intros qv. cbv zeta.
  apply keeps_bind.
  - destruct (_ && _); [|apply keeps_ret].
    apply keeps_bind; [apply untouched_showNotification|]. intros _.
    apply keeps_bind; [apply keeps_loadFFmpeg; untouched_by_computation|]. intros ld.
    destruct (negb ld); [apply untouched_showNotification|apply keeps_ret].
  - intros _.
    apply keeps_bind; [apply untouched_setConvertButtonState|]. intros _.
    apply keeps_bind; [apply untouched_showProgressSection|]. intros _.
    apply keeps_bind; [apply keeps_modify; untouched_by_computation|]. intros _.
    apply keeps_ret.
Qed.

Lemma untouched_convertMedia_batch (fmt : string) (quality : num) :
  keeps untouched (convertMedia_batch w fmt quality).
Proof.
  unfold convertMedia_batch, hideProgressSection, showError.
  apply keeps_try_finally; [apply keeps_try_catch|].
  - apply keeps_bind; [apply keeps_get|]. intros s0.
    apply keeps_bind; [apply keeps_batchLoop; untouched_by_computation|]. intros counts.
    apply keeps_bind; [apply untouched_updateProgress|]. intros _.
    apply keeps_bind;
      [unfold showPreviewSection; destruct (preview_error w);
       [apply keeps_throw|apply keeps_ret]|]. intros _.
    apply keeps_bind; [apply untouched_showNotification|]. intros _.
    apply keeps_ret.
  - intros e.
    apply keeps_bind; [apply keeps_modify; untouched_by_computation|]. intros _.
    apply keeps_bind; [apply untouched_showNotification|]. intros _.
    apply keeps_bind; [apply untouched_updateProgress|]. intros _.
    apply keeps_ret.
  - apply keeps_bind; [apply keeps_modify; untouched_by_computation|]. intros _.
    apply untouched_setConvertButtonState.
Qed.

Lemma untouched_convertMedia : keeps untouched (convertMedia w).
Proof.
  unfold convertMedia, showError.
  apply keeps_bind; [apply keeps_get|]. intros s0.
  destruct (_ =? _)%nat.
  { apply keeps_bind; [apply untouched_showNotification|]. intros _. apply keeps_ret. }
  destruct (isConverting s0).
  { apply keeps_bind; [apply untouched_showNotification|]. intros _. apply keeps_ret. }
  apply keeps_bind; [apply keeps_modify; untouched_by_computation|]. intros _.
  apply keeps_bind; [apply untouched_convertMedia_setup|]. intros settings.
  apply untouched_convertMedia_batch.
Qed.

End Untouched.

(** However a call of [convertMedia] ends, turned away, completed, failed
    or with an exception, it leaves the selection as it was, and an engine
    that was loaded stays loaded. *)
Theorem convertMedia_keeps_selection_and_engine (w : World) (s : Converter) :
  selectedFiles (snd (convertMedia w s)) = selectedFiles s
  /\ (ffmpegLoaded s = true -> ffmpegLoaded (snd (convertMedia w s)) = true).
Proof.
  apply (untouched_convertMedia w (selectedFiles s) (ffmpegLoaded s) s).
  split; [reflexivity|intros H; exact H].
Qed.

(** *** Identifiers in addresses *)

Import JsRegExp.

Lemma prefix_split (l s : string) :
  String.prefix l s = true -> s = l ++ JsString.drop (String.length l) s.
Proof.
  revert s. induction l as [|c l IH]; intros s H; [reflexivity|].
  destruct s as [|d s]; [discriminate|]. cbn in H.
  destruct (ascii_dec c d) as [<-|]; [|discriminate].
  cbn. rewrite <- (IH s H). reflexivity.
Qed.

Lemma prefix_append (l s : string) : String.prefix l (l ++ s) = true.
Proof.
  induction l as [|c l IH]; cbn; [destruct s; reflexivity|].
  destruct (ascii_dec c c); [exact IH|contradiction].
Qed.

Lemma drop_append (l s : string) : JsString.drop (String.length l) (l ++ s) = s.
Proof. induction l as [|c l IH]; cbn; [reflexivity|exact IH]. Qed.

Lemma prefix_first (c d : ascii) (l s : string) :
  c <> d -> String.prefix (String c l) (String d s) = false.
Proof. intros H. cbn. destruct (ascii_dec c d); [contradiction|reflexivity]. Qed.

Lemma take_drop (n : nat) (s : string) : s = JsString.take n s ++ JsString.drop n s.
Proof.
  revert s. induction n as [|n IH]; intros [|c r]; cbn; try reflexivity.
  rewrite <- IH. reflexivity.
Qed.

Lemma every_char_take_run (p : ascii -> bool) (s : string) :
  every_char p (JsString.take (run p s) s) = true.
Proof.
  induction s as [|c r IH]; cbn; [reflexivity|].
  destruct (p c) eqn:E; cbn; [rewrite E; exact IH|reflexivity].
Qed.

Lemma run_drop_run (p : ascii -> bool) (s : string) :
  run p (JsString.drop (run p s) s) = 0.
Proof.
  induction s as [|c r IH]; cbn; [reflexivity|].
  destruct (p c) eqn:E; cbn; [exact IH|rewrite E; reflexivity].
Qed.

Lemma run_append (p : ascii -> bool) (a b : string) :
  every_char p a = true -> run p (a ++ b) = String.length a + run p b.
Proof.
  induction a as [|c r IH]; cbn; [reflexivity|].
  intros H. apply andb_prop in H. destruct H as [-> H]. rewrite (IH H). reflexivity.
Qed.

Lemma run_le_length (p : ascii -> bool) (s : string) : run p s <= String.length s.
Proof. induction s as [|c r IH]; cbn; [lia|]. destruct (p c); lia. Qed.

Lemma run_all (p : ascii -> bool) (s : string) :
  run p s = String.length s -> every_char p s = true.
Proof.
  induction s as [|c r IH]; cbn; [reflexivity|].
  destruct (p c); [|discriminate]. intros H. apply IH. lia.
Qed.

Lemma drop_empty (n : nat) (s : string) :
  JsString.drop n s = "" -> String.length s <= n.
Proof.
  revert s. induction n as [|n IH]; intros [|c r] H; cbn in *; try lia.
  - discriminate.
  - specialize (IH r H). lia.
Qed.

Lemma drop_all (n : nat) (s : string) :
  String.length s <= n -> JsString.drop n s = "".
Proof.
  revert s. induction n as [|n IH]; intros [|c r] H; cbn in *; try reflexivity.
  - lia.
  - apply IH. lia.
Qed.

Lemma prefix_every_char (p : ascii -> bool) (l s : string) :
  String.prefix l s = true -> every_char p s = true -> every_char p l = true.
Proof.
  revert s. induction l as [|c l IH]; intros s H E; [reflexivity|].
  destruct s as [|d s]; [discriminate|]. cbn in H.
  destruct (ascii_dec c d) as [<-|]; [|discriminate].
  cbn in *. apply andb_prop in E. destruct E as [-> E]. exact (IH s H E).
Qed.

Lemma every_char_tail (p : ascii -> bool) (n : nat) (s : string) :
  every_char p s = true -> every_char p (JsString.drop n s) = true.
Proof.
  revert s. induction n as [|n IH]; intros [|c r] H; cbn in *; try assumption.
  apply andb_prop in H. apply IH, H.
Qed.

(** The greedy repetition takes the longest run when what follows it
    accepts that. *)
Lemma longest_first_accepts {A} (n : nat) (k : nat -> option A) (a : A) :
  k (S n) = Some a -> longest_first (S n) k = Some a.
Proof. intros H. cbn [longest_first]. rewrite H. reflexivity. Qed.

(** A group around a repetition at the end of a pattern captures the longest
    run of characters of the class, and fails when there is none. *)
Lemma matches_last_group (i : nat) (p : ascii -> bool) (pos : nat) (rest : string)
    (caps : Captures) :
  matches (Group i (OneOrMore p)) pos rest caps (fun _ _ c => Some c)
  = match run p rest with
    | O => None
    | S n => Some ((i, JsString.take (S n) rest) :: caps)
    end.
Proof.
  cbn [matches]. destruct (run p rest) as [|n]; [reflexivity|].
  cbn [longest_first]. replace (pos + S n - pos) with (S n) by lia. reflexivity.
Qed.

(** A match of [exec_from] is a match at some position further on. *)
Lemma exec_from_found (r : re) (rest : string) :
  forall pos caps,
    exec_from r pos rest = Some caps ->
    exists skipped rest',
      rest = skipped ++ rest'
      /\ matches r (pos + String.length skipped) rest' [] (fun _ _ c => Some c)
         = Some caps.
Proof.
  induction rest as [|c rest IH]; intros pos caps H; cbn [exec_from] in H.
  - destruct (matches r pos "" [] _) as [caps'|] eqn:E; [|discriminate].
    exists "", "". split; [reflexivity|]. cbn. rewrite Nat.add_0_r. congruence.
  - destruct (matches r pos (String c rest) [] _) as [caps'|] eqn:E.
    + exists "", (String c rest). split; [reflexivity|]. cbn. rewrite Nat.add_0_r.
      congruence.
    + destruct (IH (S pos) caps H) as (skipped & rest' & -> & M).
      exists (String c skipped), rest'. split; [reflexivity|].
      cbn. rewrite <- M. f_equal. lia.
Qed.

Lemma every_char_run (p : ascii -> bool) (s : string) :
  every_char p s = true -> run p s = String.length s.
Proof.
  induction s as [|c r IH]; cbn; [reflexivity|].
  intros H. apply andb_prop in H. destruct H as [-> H]. rewrite (IH H). reflexivity.
Qed.

Lemma matches_marker_group (marker : string) (p : ascii -> bool) (pos : nat)
    (rest : string) (caps : Captures) :
  matches (Seq (Lit marker) (Group 1 (OneOrMore p))) pos rest caps (fun _ _ c => Some c)
  = if String.prefix marker rest
    then match run p (JsString.drop (String.length marker) rest) with
         | O => None
         | S n => Some ((1, JsString.take (S n) (JsString.drop (String.length marker) rest))
                          :: caps)
         end
    else None.
Proof.
  change (matches (Seq (Lit marker) (Group 1 (OneOrMore p))) pos rest caps
            (fun _ _ c => Some c))
    with (if String.prefix marker rest
          then matches (Group 1 (OneOrMore p)) (pos + String.length marker)
                 (JsString.drop (String.length marker) rest) caps (fun _ _ c => Some c)
          else None).
  rewrite matches_last_group. reflexivity.
Qed.

(** What a match of a marker followed by the group gives: the text between
    the marker and the first character outside the class. *)
Lemma marker_group_found (marker : string) (p : ascii -> bool) (rest : string)
    (caps : Captures) (n : nat) :
  String.prefix marker rest = true ->
  run p (JsString.drop (String.length marker) rest) = S n ->
  exists id after,
    rest = marker ++ id ++ after
    /\ id = JsString.take (S n) (JsString.drop (String.length marker) rest)
    /\ id <> ""
    /\ every_char p id = true
    /\ run p after = 0.
Proof.
  intros Hp Hr.
  set (tail := JsString.drop (String.length marker) rest) in *.
  exists (JsString.take (S n) tail), (JsString.drop (S n) tail).
  split; [|split; [reflexivity|split; [|split]]].
  - rewrite <- take_drop. apply prefix_split. exact Hp.
  - destruct tail; [discriminate Hr|]. discriminate.
  - rewrite <- Hr. apply every_char_take_run.
  - rewrite <- Hr. apply run_drop_run.
Qed.

Lemma videoUrlPattern_at (pos : nat) (rest : string) :
  matches videoUrlPattern pos rest [] (fun _ _ c => Some c)
  = match matches (Seq (Lit "youtube.com/watch?v=") (Group 1 (OneOrMore video_id_tail)))
            pos rest [] (fun _ _ c => Some c) with
    | Some c => Some c
    | None =>
        match matches (Seq (Lit "youtu.be/") (Group 1 (OneOrMore video_id_tail)))
                pos rest [] (fun _ _ c => Some c) with
        | Some c => Some c
        | None =>
            matches (Seq (Lit "youtube.com/embed/") (Group 1 (OneOrMore video_id_tail)))
              pos rest [] (fun _ _ c => Some c)
        end
    end.
Proof. reflexivity. Qed.

Lemma videoUrlPattern_found (pos : nat) (rest : string) (caps : Captures) :
  matches videoUrlPattern pos rest [] (fun _ _ c => Some c) = Some caps ->
  exists marker id after,
    In marker video_markers
    /\ rest = marker ++ id ++ after
    /\ caps = [(1, id)]
    /\ id <> ""
    /\ every_char video_id_tail id = true
    /\ run video_id_tail after = 0.
Proof.
  rewrite videoUrlPattern_at, !matches_marker_group.
  assert (G : forall marker,
             In marker video_markers ->
             (if String.prefix marker rest
              then match run video_id_tail (JsString.drop (String.length marker) rest) with
                   | O => None
                   | S n => Some [(1, JsString.take (S n)
                                        (JsString.drop (String.length marker) rest))]
                   end
              else None) = Some caps ->
             exists marker id after,
               In marker video_markers
               /\ rest = marker ++ id ++ after
               /\ caps = [(1, id)]
               /\ id <> ""
               /\ every_char video_id_tail id = true
               /\ run video_id_tail after = 0).
  { intros marker Hin H.
    destruct (String.prefix marker rest) eqn:Hp; [|discriminate].
    destruct (run video_id_tail _) as [|n] eqn:Hr; [discriminate|].
    destruct (marker_group_found marker video_id_tail rest [] n Hp Hr)
      as (id & after & E1 & E2 & E3 & E4 & E5).
    assert (caps = [(1, id)]) by (rewrite E2; congruence).
    exists marker, id, after. auto 10. }
  intros H.
  destruct (if String.prefix "youtube.com/watch?v=" rest then _ else _) eqn:E1.
  { injection H as <-. apply (G "youtube.com/watch?v="); [cbn; auto|exact E1]. }
  destruct (if String.prefix "youtu.be/" rest then _ else _) eqn:E2.
  { injection H as <-. apply (G "youtu.be/"); [cbn; auto|exact E2]. }
  apply (G "youtube.com/embed/"); [cbn; auto|exact H].
Qed.

Lemma videoIdPattern_at (pos : nat) (rest : string) :
  matches videoIdPattern pos rest [] (fun _ _ c => Some c)
  = if (pos =? 0)%nat
    then if (11 <=? run video_id_char rest)%nat
         then match JsString.drop 11 rest with
              | EmptyString => Some [(1, JsString.take (pos + 11 - pos) rest)]
              | String _ _ => None
              end
         else None
    else None.
Proof. reflexivity. Qed.

(** Whatever [extractVideoId] returns is a text, never [undefined], and not
    empty.  It is either the text that follows one of the three markers in
    the address, up to the first [&], [?], [#] or line feed or to the end,
    or the address itself, which then consists of eleven letters, digits,
    underscores and hyphens. *)
Theorem extractVideoId_sound (url : string) (v : jsval) :
  extractVideoId url = Some v ->
  exists id,
    v = JString id
    /\ id <> ""
    /\ ((exists before marker after,
            In marker video_markers
            /\ url = before ++ marker ++ id ++ after
            /\ every_char video_id_tail id = true
            /\ run video_id_tail after = 0)
        \/ (id = url /\ String.length url = 11 /\ every_char video_id_char url = true)).
Proof.
  unfold extractVideoId. cbn [firstGroupOf]. unfold exec.
  destruct (exec_from videoUrlPattern 0 url) as [caps|] eqn:E1.
  - intros H. injection H as <-.
    destruct (exec_from_found _ _ _ _ E1) as (before & rest & -> & M).
    destruct (videoUrlPattern_found _ _ _ M)
      as (marker & id & after & Hin & -> & -> & Hne & Hall & Hend).
    exists id. split; [reflexivity|]. split; [exact Hne|]. left.
    exists before, marker, after. auto.
  - destruct (exec_from videoIdPattern 0 url) as [caps|] eqn:E2; [|discriminate].
    intros H. injection H as <-.
    destruct (exec_from_found _ _ _ _ E2) as (before & rest & -> & M).
    rewrite videoIdPattern_at in M.
    destruct before as [|c before]; [|discriminate M].
    cbn [String.length Nat.add Nat.eqb append] in *.
    destruct (11 <=? run video_id_char rest)%nat eqn:L; [|discriminate].
    destruct (JsString.drop 11 rest) eqn:D; [|discriminate].
    apply Nat.leb_le in L. apply drop_empty in D.
    pose proof (run_le_length video_id_char rest) as R.
    assert (Hlen : String.length rest = 11) by lia.
    rewrite take_all in M by lia. injection M as <-.
    exists rest. cbn [group find fst snd Nat.eqb].
    split; [reflexivity|]. split; [destruct rest; [discriminate Hlen|discriminate]|].
    right. split; [reflexivity|]. split; [exact Hlen|]. apply run_all. lia.
Qed.

Lemma extractVideoId_sound_witness :
  exists id,
    extractVideoId "https://youtu.be/dQw4w9WgXcQ?t=42" = Some (JString id) /\ id <> "".
Proof.
  destruct (extractVideoId_sound "https://youtu.be/dQw4w9WgXcQ?t=42"
              (JString "dQw4w9WgXcQ") eq_refl) as (id & H1 & H2 & _).
  exists id. split; [rewrite <- H1; reflexivity|exact H2].
Defined.

Lemma videoUrlPattern_not_in_id (s : string) :
  every_char video_id_char s = true ->
  forall pos, exec_from videoUrlPattern pos s = None.
Proof.
  assert (M : forall s pos,
             every_char video_id_char s = true ->
             matches videoUrlPattern pos s [] (fun _ _ c => Some c) = None).
  { intros s0 pos H. rewrite videoUrlPattern_at, !matches_marker_group.
    assert (P : forall marker,
               every_char video_id_char marker = false ->
               String.prefix marker s0 = false).
    { intros marker Hm. destruct (String.prefix marker s0) eqn:E; [|reflexivity].
      rewrite (prefix_every_char _ _ _ E H) in Hm. discriminate. }
    rewrite !P by reflexivity. reflexivity. }
  induction s as [|c r IH]; intros H pos; cbn [exec_from].
  - rewrite M by exact H. reflexivity.
  - rewrite M by exact H. apply IH. cbn in H. apply andb_prop in H. apply H.
Qed.

(** An address that is nothing but an identifier, eleven letters, digits,
    underscores and hyphens, is returned as it is. *)
Theorem extractVideoId_of_bare_id (url : string) :
  String.length url = 11 ->
  every_char video_id_char url = true ->
  extractVideoId url = Some (JString url).
Proof.
  intros Hlen Hall. unfold extractVideoId. cbn [firstGroupOf]. unfold exec.
  rewrite (videoUrlPattern_not_in_id url Hall 0).
  assert (E : exec_from videoIdPattern 0 url = Some [(1, url)]).
  { destruct url as [|c r]; [discriminate Hlen|].
    cbn [exec_from]. rewrite videoIdPattern_at.
    rewrite (every_char_run _ _ Hall), Hlen.
    cbn [Nat.eqb Nat.leb]. rewrite drop_all by lia.
    rewrite take_all by (cbn [Nat.add Nat.sub]; lia). reflexivity. }
  rewrite E. reflexivity.
Qed.

Lemma extractVideoId_of_bare_id_witness :
  extractVideoId "dQw4w9WgXcQ" = Some (JString "dQw4w9WgXcQ").
Proof. apply (extractVideoId_of_bare_id "dQw4w9WgXcQ"); reflexivity. Defined.

(** The search skips a text in which the first character of every marker
    is missing. *)
Lemma exec_from_skip (r : re) (first : ascii) (before rest : string) :
  (forall pos c tail, c <> first ->
      matches r pos (String c tail) [] (fun _ _ caps => Some caps) = None) ->
  contains_char first before = false ->
  forall pos,
    exec_from r pos (before ++ rest) = exec_from r (pos + String.length before) rest.
Proof.
  intros Hr. induction before as [|c before IH]; intros H pos.
  - cbn. rewrite Nat.add_0_r. reflexivity.
  - cbn [contains_char] in H. apply orb_false_elim in H. destruct H as [Hc H].
    cbn [append exec_from]. rewrite Hr.
    + rewrite (IH H). cbn [String.length]. f_equal. lia.
    + intros ->. rewrite Ascii.eqb_refl in Hc. discriminate.
Qed.

Lemma videoUrlPattern_first (pos : nat) (c : ascii) (tail : string) :
  c <> "y"%char ->
  matches videoUrlPattern pos (String c tail) [] (fun _ _ caps => Some caps) = None.
Proof.
  intros H. rewrite videoUrlPattern_at, !matches_marker_group.
  rewrite !prefix_first by (intros E; apply H; symmetry; exact E). reflexivity.
Qed.

(** The identifier of an address comes back: where one of the three markers
    is followed by an identifier without [&], [?], [#] and line feed, and
    then by one of these characters or by nothing, and no [y] stands before
    the marker, the extractor returns the identifier. *)
Theorem extractVideoId_of_address (before marker id after : string) :
  contains_char "y" before = false ->
  In marker video_markers ->
  id <> "" ->
  every_char video_id_tail id = true ->
  run video_id_tail after = 0 ->
  extractVideoId (before ++ marker ++ id ++ after) = Some (JString id).
Proof.
  intros Hb Hin Hne Hall Hend.
  unfold extractVideoId. cbn [firstGroupOf]. unfold exec.
  rewrite (exec_from_skip videoUrlPattern "y" before _ videoUrlPattern_first Hb).
  assert (R : run video_id_tail (id ++ after) = String.length id)
    by (rewrite run_append, Hend by exact Hall; lia).
  assert (T : JsString.take (String.length id) (id ++ after) = id)
    by apply take_append_exact.
  destruct id as [|c id]; [contradiction|]. cbn [String.length] in R, T.
  assert (M : matches videoUrlPattern (0 + String.length before)
                (marker ++ String c id ++ after) [] (fun _ _ caps => Some caps)
              = Some [(1, String c id)]).
  { rewrite videoUrlPattern_at, !matches_marker_group.
    destruct Hin as [<-|[<-|[<-|[]]]].
    - rewrite prefix_append, drop_append, R, T. reflexivity.
    - rewrite (prefix_append "youtu.be/"), (drop_append "youtu.be/"), R, T. reflexivity.
    - rewrite (prefix_append "youtube.com/embed/"), (drop_append "youtube.com/embed/"), R, T.
      reflexivity. }
  destruct (marker ++ String c id ++ after) eqn:E;
    cbn [exec_from]; rewrite M; reflexivity.
Qed.

Lemma extractVideoId_of_address_witness :
  extractVideoId "https://www.youtube.com/watch?v=dQw4w9WgXcQ&t=42"
  = Some (JString "dQw4w9WgXcQ").
Proof.
  apply (extractVideoId_of_address "https://www." "youtube.com/watch?v=" "dQw4w9WgXcQ"
           "&t=42"); try reflexivity.
  - cbn. auto.
  - discriminate.
Defined.

Lemma longest_first_none {A} (n : nat) (k : nat -> option A) :
  (forall j, 1 <= j <= n -> k j = None) -> longest_first n k = None.
Proof.
  induction n as [|n IH]; intros H; cbn [longest_first]; [reflexivity|].
  rewrite (H (S n)) by lia. apply IH. intros j Hj. apply H. lia.
Qed.

(** Before the end of a run the next character is in the class. *)
Lemma drop_inside_run (p : ascii -> bool) (n : nat) (s : string) :
  n < run p s ->
  exists c r, JsString.drop n s = String c r /\ p c = true.
Proof.
  revert s. induction n as [|n IH]; intros [|c r] H; cbn in H; try lia.
  - destruct (p c) eqn:E; [|lia]. exists c, r. split; [reflexivity|exact E].
  - destruct (p c) eqn:E; [|lia]. cbn. apply IH. lia.
Qed.

Lemma instagramStoryPattern_at (pos : nat) (rest : string) :
  matches instagramStoryPattern pos rest [] (fun _ _ c => Some c)
  = if String.prefix "instagram.com/stories/" rest
    then
      longest_first (run not_slash (JsString.drop 22 rest))
        (fun n =>
           if String.prefix "/" (JsString.drop n (JsString.drop 22 rest))
           then
             matches (Group 2 (OneOrMore not_slash)) (pos + 22 + n + 1)
               (JsString.drop 1 (JsString.drop n (JsString.drop 22 rest)))
               [(1, JsString.take (pos + 22 + n - (pos + 22)) (JsString.drop 22 rest))]
               (fun _ _ c => Some c)
           else None)
    else None.
Proof. reflexivity. Qed.

(** A match of the pattern of stories captures, as its first group, the
    text between the marker and the next slash. *)
Lemma instagramStoryPattern_found (pos : nat) (rest : string) (caps : Captures) :
  matches instagramStoryPattern pos rest [] (fun _ _ c => Some c) = Some caps ->
  exists id after,
    rest = "instagram.com/stories/" ++ id ++ after
    /\ group 1 caps = JString id
    /\ id <> ""
    /\ every_char not_slash id = true
    /\ run not_slash after = 0.
Proof.
  rewrite instagramStoryPattern_at.
  destruct (String.prefix "instagram.com/stories/" rest) eqn:Hp; [|discriminate].
  set (tail := JsString.drop 22 rest).
  destruct (run not_slash tail) as [|n] eqn:Hr; [discriminate|].
  cbn [longest_first].
  rewrite (longest_first_none n).
  - destruct (String.prefix "/" (JsString.drop (S n) tail)) eqn:Hs; [|discriminate].
    rewrite matches_last_group.
    destruct (run not_slash (JsString.drop 1 (JsString.drop (S n) tail))) as [|m];
      [discriminate|].
    intros H. injection H as <-.
    destruct (marker_group_found "instagram.com/stories/" not_slash rest [] n Hp Hr)
      as (id & after & E1 & E2 & E3 & E4 & E5).
    exists id, after. split; [exact E1|]. split; [|auto].
    cbn [group find fst snd Nat.eqb].
    replace (pos + 22 + S n - (pos + 22)) with (S n) by lia.
    rewrite E2. reflexivity.
  - intros j Hj.
    destruct (drop_inside_run not_slash j tail ltac:(lia)) as (c & r & -> & Hc).
    rewrite prefix_first; [reflexivity|].
    intros <-. discriminate Hc.
Qed.

Lemma instagramPattern_found (kind : string) (pos : nat) (rest : string)
    (caps : Captures) :
  matches (instagramPattern kind) pos rest [] (fun _ _ c => Some c) = Some caps ->
  exists id after,
    rest = "instagram.com/" ++ kind ++ "/" ++ id ++ after
    /\ group 1 caps = JString id
    /\ id <> ""
    /\ every_char not_slash id = true
    /\ run not_slash after = 0.
Proof.
  unfold instagramPattern. rewrite matches_marker_group.
  destruct (String.prefix _ rest) eqn:Hp; [|discriminate].
  destruct (run not_slash _) as [|n] eqn:Hr; [discriminate|].
  intros H. injection H as <-.
  destruct (marker_group_found _ not_slash rest [] n Hp Hr)
    as (id & after & E1 & E2 & E3 & E4 & E5).
  exists id, after. split.
  - rewrite E1 at 1. cbn [append]. rewrite append_assoc. reflexivity.
  - split; [rewrite E2; reflexivity|auto].
Qed.

(** Whatever [extractInstagramId] returns is a text, never [undefined], not
    empty and without a slash: the text that follows [instagram.com/p/],
    [.../reel/], [.../tv/] or [.../stories/] in the address, up to the next
    slash or to the end. *)
Theorem extractInstagramId_sound (url : string) (v : jsval) :
  extractInstagramId url = Some v ->
  exists id,
    v = JString id
    /\ id <> ""
    /\ every_char not_slash id = true
    /\ exists before kind after,
         In kind ["p"; "reel"; "tv"; "stories"]
         /\ url = before ++ "instagram.com/" ++ kind ++ "/" ++ id ++ after
         /\ run not_slash after = 0.
Proof.
  unfold extractInstagramId. cbn [firstGroupOf]. unfold exec.
  assert (G : forall kind caps,
             In kind ["p"; "reel"; "tv"; "stories"] ->
             (forall pos rest,
                 matches (if String.eqb kind "stories" then instagramStoryPattern
                          else instagramPattern kind) pos rest [] (fun _ _ c => Some c)
                 = Some caps ->
                 exists id after,
                   rest = "instagram.com/" ++ kind ++ "/" ++ id ++ after
                   /\ group 1 caps = JString id
                   /\ id <> ""
                   /\ every_char not_slash id = true
                   /\ run not_slash after = 0)).
  { intros kind caps Hin pos rest.
    destruct (String.eqb_spec kind "stories") as [->|_].
    - apply instagramStoryPattern_found.
    - apply instagramPattern_found. }
  assert (F : forall kind caps,
             In kind ["p"; "reel"; "tv"; "stories"] ->
             exec_from (if String.eqb kind "stories" then instagramStoryPattern
                        else instagramPattern kind) 0 url = Some caps ->
             exists id,
               group 1 caps = JString id
               /\ id <> ""
               /\ every_char not_slash id = true
               /\ exists before kind after,
                    In kind ["p"; "reel"; "tv"; "stories"]
                    /\ url = before ++ "instagram.com/" ++ kind ++ "/" ++ id ++ after
                    /\ run not_slash after = 0).
  { intros kind caps Hin E.
    destruct (exec_from_found _ _ _ _ E) as (before & rest & -> & M).
    destruct (G kind caps Hin _ _ M) as (id & after & -> & E2 & E3 & E4 & E5).
    exists id. split; [exact E2|]. split; [exact E3|]. split; [exact E4|].
    exists before, kind, after. auto. }
  destruct (exec_from (instagramPattern "p") 0 url) as [caps|] eqn:E1.
  { intros H. injection H as <-. apply (F "p"); [cbn; auto|exact E1]. }
  destruct (exec_from (instagramPattern "reel") 0 url) as [caps|] eqn:E2.
  { intros H. injection H as <-. apply (F "reel"); [cbn; auto|exact E2]. }
  destruct (exec_from (instagramPattern "tv") 0 url) as [caps|] eqn:E3.
  { intros H. injection H as <-. apply (F "tv"); [cbn; auto|exact E3]. }
  destruct (exec_from instagramStoryPattern 0 url) as [caps|] eqn:E4; [|discriminate].
  intros H. injection H as <-. apply (F "stories"); [cbn; auto 10|exact E4].
Qed.

Lemma extractInstagramId_sound_witness :
  exists id,
    extractInstagramId "https://www.instagram.com/reel/Cx1_aB-9z/?hl=en"
    = Some (JString id)
    /\ id <> "".
Proof.
  destruct (extractInstagramId_sound "https://www.instagram.com/reel/Cx1_aB-9z/?hl=en"
              (JString "Cx1_aB-9z") eq_refl) as (id & H1 & H2 & _).
  exists id. split; [rewrite <- H1; reflexivity|exact H2].
Defined.

Lemma instagramPattern_first (kind : string) (pos : nat) (c : ascii) (tail : string) :
  c <> "i"%char ->
  matches (instagramPattern kind) pos (String c tail) [] (fun _ _ caps => Some caps) = None.
Proof.
  intros H. unfold instagramPattern. rewrite matches_marker_group.
  cbn [append]. rewrite prefix_first by (intros E; apply H; symmetry; exact E).
  reflexivity.
Qed.

(** The code of a post comes back: where [instagram.com/p/] is followed by a
    text without a slash, and then by a slash or by nothing, and no [i]
    stands before the marker, the extractor returns that text.  It is the
    whole text up to the next slash: a query that follows the code directly
    is part of the result. *)
Theorem extractInstagramId_of_post (before code after : string) :
  contains_char "i" before = false ->
  code <> "" ->
  every_char not_slash code = true ->
  run not_slash after = 0 ->
  extractInstagramId (before ++ "instagram.com/p/" ++ code ++ after)
  = Some (JString code).
Proof.
  intros Hb Hne Hall Hend.
  unfold extractInstagramId. cbn [firstGroupOf]. unfold exec.
  rewrite (exec_from_skip (instagramPattern "p") "i" before _
             (instagramPattern_first "p") Hb).
  assert (R : run not_slash (code ++ after) = String.length code)
    by (rewrite run_append, Hend by exact Hall; lia).
  assert (T : JsString.take (String.length code) (code ++ after) = code)
    by apply take_append_exact.
  destruct code as [|c code]; [contradiction|]. cbn [String.length] in R, T.
  assert (M : matches (instagramPattern "p") (0 + String.length before)
                ("instagram.com/p/" ++ String c code ++ after) []
                (fun _ _ caps => Some caps)
              = Some [(1, String c code)]).
  { unfold instagramPattern. rewrite matches_marker_group.
    change ("instagram.com/" ++ "p" ++ "/") with "instagram.com/p/".
    rewrite prefix_append, drop_append, R, T. reflexivity. }
  destruct ("instagram.com/p/" ++ String c code ++ after) eqn:E;
    cbn [exec_from]; rewrite M; reflexivity.
Qed.

Lemma extractInstagramId_of_post_witness :
  extractInstagramId "https://www.instagram.com/p/Cx1_aB-9z?utm_source=share"
  = Some (JString "Cx1_aB-9z?utm_source=share").
Proof.
  apply (extractInstagramId_of_post "https://www." "Cx1_aB-9z?utm_source=share" "");
    try reflexivity.
  discriminate.
Defined.

Lemma instagramStoryPattern_first (pos : nat) (c : ascii) (tail : string) :
  c <> "i"%char ->
  matches instagramStoryPattern pos (String c tail) [] (fun _ _ caps => Some caps) = None.
Proof.
  intros H. rewrite instagramStoryPattern_at.
  rewrite prefix_first by (intros E; apply H; symmetry; exact E).
  reflexivity.
Qed.

(** For the address of a story the extractor returns the name of the
    account, not the identifier of the story: where the address is not
    matched as a post, a reel or a tv item, no [i] stands before the marker,
    and the marker is followed by a name without a slash, a slash and one
    more character that is not a slash, the result is the name. *)
Theorem extractInstagramId_of_story (before account : string) (c : ascii)
    (rest : string) :
  let url := before ++ "instagram.com/stories/" ++ account ++ "/" ++ String c rest in
  firstGroupOf [instagramPattern "p"; instagramPattern "reel"; instagramPattern "tv"] url
  = None ->
  contains_char "i" before = false ->
  account <> "" ->
  every_char not_slash account = true ->
  not_slash c = true ->
  extractInstagramId url = Some (JString account).
Proof.
  intros url Hnone Hb Hne Hall Hc.
  unfold extractInstagramId. revert Hnone. cbn [firstGroupOf].
  destruct (exec (instagramPattern "p") url); [discriminate|].
  destruct (exec (instagramPattern "reel") url); [discriminate|].
  destruct (exec (instagramPattern "tv") url); [discriminate|].
  intros _. unfold exec. subst url.
  rewrite (exec_from_skip instagramStoryPattern "i" before _
             instagramStoryPattern_first Hb).
  set (tail := account ++ "/" ++ String c rest).
  assert (R : run not_slash tail = String.length account).
  { subst tail. rewrite run_append by exact Hall. cbn. lia. }
  assert (T : JsString.take (String.length account) tail = account)
    by apply take_append_exact.
  assert (D : JsString.drop (String.length account) tail = "/" ++ String c rest)
    by apply drop_append.
  destruct account as [|a account]; [contradiction|]. cbn [String.length] in R, T, D.
  assert (M : exists story,
             matches instagramStoryPattern (0 + String.length before)
               ("instagram.com/stories/" ++ tail) [] (fun _ _ caps => Some caps)
             = Some [(2, story); (1, String a account)]).
  { rewrite instagramStoryPattern_at.
    rewrite (prefix_append "instagram.com/stories/").
    change 22 with (String.length "instagram.com/stories/").
    rewrite (drop_append "instagram.com/stories/"), R.
    cbn [longest_first]. rewrite D. cbn [append String.prefix].
    destruct (ascii_dec "/" "/") as [_|N]; [|contradiction].
    cbn [JsString.drop]. rewrite matches_last_group.
    cbn [run]. rewrite Hc.
    replace (0 + String.length before + String.length "instagram.com/stories/"
             + S (String.length account)
             - (0 + String.length before + String.length "instagram.com/stories/"))
      with (S (String.length account)) by lia.
    rewrite T. eexists. reflexivity. }
  destruct M as [story M].
  destruct ("instagram.com/stories/" ++ tail) eqn:E;
    cbn [exec_from]; rewrite M; reflexivity.
Qed.

Lemma extractInstagramId_of_story_witness :
  extractInstagramId "https://www.instagram.com/stories/nasa/3141592653589793238/"
  = Some (JString "nasa").
Proof.
  apply (extractInstagramId_of_story "https://www." "nasa" "3" "141592653589793238/");
    try reflexivity.
  discriminate.
Defined.

(** *** Choosing the files *)

Lemma clearSelection_clears (p : Panels) (s : Converter) :
  selectedFiles (snd (clearSelection p s)) = []
  /\ convertedMedia (snd (clearSelection p s)) = [].
Proof.
  unfold clearSelection, bind, modify, touch.
  destruct (uploadArea p), (previewSection p), (optionsSection p); split; reflexivity.
Qed.

Section Chosen.

Variable p : Panels.
Variable selection : list File.
Variable results : list Converted.

Let chosen (x : Converter) : Prop :=
  selectedFiles x = selection /\ convertedMedia x = results.

Local Ltac chosen_by_computation :=
  unfold chosen; intros;
  repeat match goal with
         | s : Converter |- _ => destruct s
         | e : Elements |- _ => destruct e
         end;
  cbn in *; intuition congruence.

Lemma chosen_touch (element : bool) : keeps chosen (touch element).
Proof. destruct element; [apply keeps_ret|apply keeps_throw]. Qed.

Lemma chosen_showNotification (m : string) : keeps chosen (showNotification m).
Proof. apply keeps_showNotification. chosen_by_computation. Qed.

Lemma chosen_showFileInfo : keeps chosen (showFileInfo p).
Proof.
  unfold showFileInfo.
  apply keeps_bind; [apply keeps_get|]. intros s0.
  apply keeps_bind; [|intros _; apply chosen_touch].
  destruct (_ && _); [apply keeps_throw|apply keeps_ret].
Qed.

Lemma chosen_handleMediaTypeChange : keeps chosen (handleMediaTypeChange p).
Proof.
  unfold handleMediaTypeChange, handleVideoFormatChange, handleFormatChange.
  apply keeps_bind; [apply keeps_get|]. intros s0.
  destruct (mediaType (elements s0)) as [v|]; [|apply keeps_throw].
  destruct (String.eqb v "video").
  - apply keeps_bind; [apply chosen_touch|]. intros _.
    apply keeps_bind; [apply chosen_touch|]. intros _. apply chosen_touch.
  - apply keeps_bind; [apply chosen_touch|]. intros _.
    apply keeps_bind; [apply chosen_touch|]. intros _.
    apply keeps_bind; [apply keeps_get|]. intros s1.
    destruct (formatSelect (elements s1)); [apply chosen_touch|apply keeps_throw].
Qed.

Lemma chosen_assignMediaType (v : string) : keeps chosen (assignMediaType p v).
Proof.
  unfold assignMediaType.
  apply keeps_bind; [apply keeps_get|]. intros s0.
  destruct (mediaType (elements s0)); [|apply keeps_throw].
  apply keeps_modify. chosen_by_computation.
Qed.

Lemma chosen_suggestImageFormat : keeps chosen (suggestImageFormat p).
Proof.
  unfold suggestImageFormat.
  apply keeps_bind; [apply keeps_get|]. intros s0. cbv zeta.
  apply keeps_bind; [|intros _; apply chosen_showNotification].
  destruct (formatSelect (elements s0)); [|apply keeps_ret].
  apply keeps_modify. chosen_by_computation.
Qed.

Lemma chosen_suggestVideoFormat : keeps chosen (suggestVideoFormat p).
Proof.
  unfold suggestVideoFormat.
  apply keeps_bind; [apply keeps_get|]. intros s0. cbv zeta.
  apply keeps_bind; [|intros _; apply chosen_showNotification].
  destruct (videoFormatSelect (elements s0)); [|apply keeps_ret].
  apply keeps_modify. chosen_by_computation.
Qed.

Lemma chosen_updateMediaTypeBasedOnFiles : keeps chosen (updateMediaTypeBasedOnFiles p).
Proof.
  unfold updateMediaTypeBasedOnFiles.
  apply keeps_bind; [apply keeps_get|]. intros s0. cbv zeta.
  destruct (_ && _); [|destruct (existsb _ _)].
  all: apply keeps_bind; [apply chosen_assignMediaType|]; intros _.
  all: apply keeps_bind; [apply chosen_handleMediaTypeChange|]; intros _.
  - apply chosen_showNotification.
  - apply chosen_suggestVideoFormat.
  - apply chosen_suggestImageFormat.
Qed.

Lemma chosen_processFiles_notices (files mediaFiles : list File) :
  keeps chosen (processFiles_notices files mediaFiles).
Proof.
  unfold processFiles_notices. cbv zeta.
  apply keeps_bind;
    [destruct (_ <? _)%nat; [apply chosen_showNotification|apply keeps_ret]|]. intros _.
  apply keeps_bind;
    [destruct (_ <? _)%Z; [apply chosen_showNotification|apply keeps_ret]|]. intros _.
  destruct (_ <? _)%nat; [apply chosen_showNotification|apply keeps_ret].
Qed.

(** What follows the assignment of the selection leaves it and the results
    as they are. *)
Lemma chosen_display :
  keeps chosen
    (yieldToMain ;; showFileInfo p ;; yieldToMain ;; showOptionsSection p ;;
     yieldToMain ;; updateMediaTypeBasedOnFiles p).
Proof.
  apply keeps_bind; [apply keeps_ret|]. intros _.
  apply keeps_bind; [apply chosen_showFileInfo|]. intros _.
  apply keeps_bind; [apply keeps_ret|]. intros _.
  apply keeps_bind; [apply chosen_touch|]. intros _.
  apply keeps_bind; [apply keeps_ret|]. intros _.
  apply chosen_updateMediaTypeBasedOnFiles.
Qed.

End Chosen.

Lemma bind_ok {A B} (c : M A) (k : A -> M B) (s s' : Converter) (b : B) :
  bind c k s = (Ok b, s') ->
  exists a s1, c s = (Ok a, s1) /\ k a s1 = (Ok b, s').
Proof.
  unfold bind. destruct (c s) as [[a|e] s1]; [|discriminate].
  intros H. exists a, s1. split; [reflexivity|exact H].
Qed.

(** The [try] block, when it ends normally, leaves either the media files
    of its argument as the selection and the results as they were, or
    nothing of either. *)
Lemma processFiles_body_ok (p : Panels) (files : list File) (s s' : Converter) :
  processFiles_body p files s = (Ok tt, s') ->
  match filter isMediaFile files with
  | [] => selectedFiles s' = [] /\ convertedMedia s' = []
  | _ :: _ =>
      selectedFiles s' = filter isMediaFile files /\ convertedMedia s' = convertedMedia s
  end.
Proof.
  unfold processFiles_body. intros H.
  apply bind_ok in H. destruct H as ([] & s1 & H1 & H).
  assert (E1 : s1 = s).
  { unfold touch in H1. destruct (uploadArea p); inversion H1. reflexivity. }
  subst s1. clear H1.
  apply bind_ok in H. destruct H as ([] & s1 & H1 & H).
  inversion H1; subst s1; clear H1. cbv zeta in H.
  destruct (filter isMediaFile files) as [|f fs] eqn:F.
  - cbn [List.length Nat.eqb] in H.
    apply bind_ok in H. destruct H as ([] & s1 & _ & H).
    pose proof (clearSelection_clears p s1) as C. rewrite H in C. exact C.
  - cbn [List.length Nat.eqb] in H.
    apply bind_ok in H. destruct H as ([] & s1 & H1 & H).
    apply bind_ok in H. destruct H as ([] & s2 & H2 & H).
    pose proof (chosen_processFiles_notices (selectedFiles s) (convertedMedia s)
                  files (f :: fs) s (conj eq_refl eq_refl)) as K1.
    rewrite H1 in K1. cbn [snd] in K1.
    inversion H2; subst s2; clear H2.
    pose proof (chosen_display p (f :: fs) (convertedMedia s)
                  (set_selectedFiles (f :: fs) s1)) as K2.
    rewrite H in K2. apply K2. split; [reflexivity|apply K1].
Qed.

(** However [processFiles] ends, it leaves as the selection either the image
    and video files of its argument, in their order, with the results of an
    earlier conversion as they were, or nothing, and then no results either;
    nothing whenever its argument holds no image and no video.  A file that
    is neither an image nor a video is never selected. *)
Theorem processFiles_selects_media (p : Panels) (files : list File) (s : Converter) :
  let s' := snd (processFiles p files s) in
  forallb isMediaFile (selectedFiles s') = true
  /\ match filter isMediaFile files with
     | [] => selectedFiles s' = [] /\ convertedMedia s' = []
     | _ :: _ =>
         (selectedFiles s' = filter isMediaFile files
          /\ convertedMedia s' = convertedMedia s)
         \/ (selectedFiles s' = [] /\ convertedMedia s' = [])
     end.
Proof.
  cbv zeta.
  assert (G : match filter isMediaFile files with
              | [] => selectedFiles (snd (processFiles p files s)) = []
                      /\ convertedMedia (snd (processFiles p files s)) = []
              | _ :: _ =>
                  (selectedFiles (snd (processFiles p files s)) = filter isMediaFile files
                   /\ convertedMedia (snd (processFiles p files s)) = convertedMedia s)
                  \/ (selectedFiles (snd (processFiles p files s)) = []
                      /\ convertedMedia (snd (processFiles p files s)) = [])
              end).
  { unfold processFiles, try_catch.
    destruct (processFiles_body p files s) as [[[]|e] s1] eqn:B.
    - apply processFiles_body_ok in B. cbn [fst snd].
      destruct (filter isMediaFile files); [exact B|left; exact B].
    - change ((modify (add_console ("Error processing files: " ++ e)) ;;
               showError "failed to process files. please try again." ;;
               clearSelection p) s1)
        with (clearSelection p
                (add_notification "failed to process files. please try again."
                   (add_console ("Error processing files: " ++ e) s1))).
      pose proof (clearSelection_clears p
                    (add_notification "failed to process files. please try again."
                       (add_console ("Error processing files: " ++ e) s1))) as C.
      destruct (filter isMediaFile files); [exact C|right; exact C]. }
  split; [|exact G].
  destruct (filter isMediaFile files) as [|f fs] eqn:F.
  - destruct G as [G _]. rewrite G. reflexivity.
  - destruct G as [[G _]|[G _]]; rewrite G; [|reflexivity].
    rewrite <- F. apply forallb_forall. intros x Hx. apply filter_In in Hx. apply Hx.
Qed.

Lemma run_bind_ok {A B} (c : M A) (k : A -> M B) (s s1 : Converter) (a : A) :
  c s = (Ok a, s1) -> bind c k s = k a s1.
Proof. intros H. unfold bind. rewrite H. reflexivity. Qed.

Lemma processFiles_notices_ok (files mediaFiles : list File) (s : Converter) :
  exists s1,
    processFiles_notices files mediaFiles s = (Ok tt, s1)
    /\ selectedFiles s1 = selectedFiles s
    /\ elements s1 = elements s.
Proof.
  unfold processFiles_notices, bind, showNotification, modify, ret. cbv zeta.
  destruct (_ <? _)%nat; destruct (_ <? _)%Z; destruct (_ <? _)%nat;
    eexists; (split; [reflexivity|]); split; reflexivity.
Qed.

Lemma showFileInfo_ok (p : Panels) (s : Converter) :
  uploadArea p = true ->
  forallb (fun file => is_text (getFileFormat file)) (selectedFiles s) = true ->
  showFileInfo p s = (Ok tt, s).
Proof.
  intros U T. unfold showFileInfo, bind, get, touch. rewrite T, U.
  rewrite andb_false_r. reflexivity.
Qed.

(** The media type that [updateMediaTypeBasedOnFiles] assigns on a page
    with its panels. *)
Lemma updateMediaTypeBasedOnFiles_ok (p : Panels) (s : Converter) :
  imageFormats p = true -> videoFormats p = true -> qualityGroup p = true ->
  mediaType (elements s) <> None ->
  formatSelect (elements s) <> None ->
  exists s',
    updateMediaTypeBasedOnFiles p s = (Ok tt, s')
    /\ selectedFiles s' = selectedFiles s
    /\ mediaType (elements s')
       = Some (assigned (mediaTypeOffers p)
                 (if existsb (fun file => JsString.startsWith (type file) "video/")
                       (selectedFiles s)
                     && negb (existsb (fun file => JsString.startsWith (type file) "image/")
                                (selectedFiles s))
                  then "video" else "image")).
Proof.
  intros I V Q Hmt Hfs.
  destruct s as [sel cm conv loaded loading els nots cons lg].
  destruct els as [b mt fs vs qs rw rh la fp ps pf pt]. cbn in Hmt, Hfs.
  destruct mt as [mt|]; [|contradiction].
  destruct fs as [fs|]; [|contradiction].
  unfold updateMediaTypeBasedOnFiles, bind at 1, get.
  cbn [selectedFiles elements]. cbv zeta.
  destruct (existsb (fun file => JsString.startsWith (type file) "video/") sel) eqn:HV;
    destruct (existsb (fun file => JsString.startsWith (type file) "image/") sel) eqn:HI;
    cbn [andb negb].
  all: unfold assignMediaType, handleMediaTypeChange, handleVideoFormatChange,
         handleFormatChange, suggestVideoFormat, suggestImageFormat, showNotification,
         bind, get, modify, touch, ret; cbn; rewrite ?I, ?V, ?Q; cbn.
  all: repeat match goal with
              | |- context [String.eqb ?a "video"] =>
                  destruct (String.eqb a "video"); cbn; rewrite ?I, ?V, ?Q; cbn
              end.
  all: try (destruct vs; cbn).
  all: eexists; (split; [reflexivity|]); split; reflexivity.
Qed.

Lemma some_media_file (files : list File) :
  files <> [] ->
  forallb isMediaFile files = true ->
  existsb (fun file => JsString.startsWith (type file) "video/") files
  && negb (existsb (fun file => JsString.startsWith (type file) "image/") files)
  = negb (existsb is_image files).
Proof.
  intros Hne Hall.
  change (existsb (fun file => JsString.startsWith (type file) "image/") files)
    with (existsb is_image files).
  destruct (existsb is_image files) eqn:HI; [apply andb_false_r|].
  rewrite andb_true_r.
  destruct files as [|f fs]; [contradiction|].
  cbn in *. apply andb_prop in Hall. destruct Hall as [Hf _].
  apply orb_false_elim in HI. destruct HI as [HI _].
  unfold isMediaFile in Hf. unfold is_image in HI. rewrite HI in Hf.
  cbn in Hf. rewrite Hf. reflexivity.
Qed.

(** On a page with its panels and its two controls, files among which there
    is an image or a video, each with a plain format, are taken: the method
    ends normally with the images and videos as the selection, and it
    assigns the media type [image] when an image is among them, [video]
    when they are all videos.  A mixed selection is therefore converted with
    the settings for images. *)
Theorem processFiles_sets_media_type (p : Panels) (files : list File) (s : Converter) :
  uploadArea p = true -> optionsSection p = true ->
  imageFormats p = true -> videoFormats p = true -> qualityGroup p = true ->
  mediaType (elements s) <> None ->
  formatSelect (elements s) <> None ->
  filter isMediaFile files <> [] ->
  forallb (fun file => is_text (getFileFormat file)) (filter isMediaFile files) = true ->
  exists s',
    processFiles p files s = (Ok tt, s')
    /\ selectedFiles s' = filter isMediaFile files
    /\ mediaType (elements s')
       = Some (assigned (mediaTypeOffers p)
                 (if existsb is_image (filter isMediaFile files) then "image" else "video")).
Proof.
  intros U O I V Q Hmt Hfs Hne Htxt.
  assert (Hall : forallb isMediaFile (filter isMediaFile files) = true).
  { apply forallb_forall. intros x Hx. apply filter_In in Hx. apply Hx. }
  pose proof (some_media_file _ Hne Hall) as Hkind.
  destruct (filter isMediaFile files) as [|f fs] eqn:F; [contradiction|].
  destruct (processFiles_notices_ok files (f :: fs) s) as (s1 & E1 & S1 & L1).
  destruct (updateMediaTypeBasedOnFiles_ok p (set_selectedFiles (f :: fs) s1) I V Q)
    as (s' & E2 & S2 & M2).
  { cbn [set_selectedFiles elements]. rewrite L1. exact Hmt. }
  { cbn [set_selectedFiles elements]. rewrite L1. exact Hfs. }
  exists s'. split; [|split].
  - unfold processFiles, try_catch, processFiles_body. rewrite F.
    cbn [List.length Nat.eqb].
    rewrite (run_bind_ok (touch (uploadArea p)) _ s s tt) by (rewrite U; reflexivity).
    rewrite (run_bind_ok yieldToMain _ s s tt) by reflexivity.
    rewrite (run_bind_ok _ _ s s1 tt E1).
    rewrite (run_bind_ok (modify _) _ s1 (set_selectedFiles (f :: fs) s1) tt)
      by reflexivity.
    rewrite (run_bind_ok yieldToMain _ _ (set_selectedFiles (f :: fs) s1) tt)
      by reflexivity.
    rewrite (run_bind_ok (showFileInfo p) _ _ (set_selectedFiles (f :: fs) s1) tt)
      by (apply showFileInfo_ok; [exact U|exact Htxt]).
    rewrite (run_bind_ok yieldToMain _ _ (set_selectedFiles (f :: fs) s1) tt)
      by reflexivity.
    rewrite (run_bind_ok (showOptionsSection p) _ _ (set_selectedFiles (f :: fs) s1) tt)
      by (unfold showOptionsSection, touch; rewrite O; reflexivity).
    rewrite (run_bind_ok yieldToMain _ _ (set_selectedFiles (f :: fs) s1) tt)
      by reflexivity.
    rewrite E2. reflexivity.
  - rewrite S2. reflexivity.
  - rewrite M2. cbn [set_selectedFiles selectedFiles]. rewrite Hkind.
    destruct (existsb is_image (f :: fs)); reflexivity.
Qed.

Lemma processFiles_sets_media_type_witness :
  exists s',
    processFiles full_panels
      [sample_video; mkFile "notes.txt" "text/plain" []; sample_image]
      (idle_converter [] false)
    = (Ok tt, s')
    /\ selectedFiles s' = [sample_video; sample_image]
    /\ mediaType (elements s') = Some "image".
Proof.
  apply (processFiles_sets_media_type full_panels
           [sample_video; mkFile "notes.txt" "text/plain" []; sample_image]
           (idle_converter [] false)); try reflexivity; discriminate.
Defined.

(** *** The rate limiter *)

Import RateLimit.

Lemma key_eqb_eq (a b : option string) : key_eqb a b = true <-> a = b.
Proof.
  destruct a as [x|], b as [y|]; cbn; try (split; [discriminate|discriminate]).
  - rewrite String.eqb_eq. split; [intros ->; reflexivity|intros H; injection H; auto].
  - split; reflexivity.
Qed.

Lemma key_eqb_refl (a : option string) : key_eqb a a = true.
Proof. apply key_eqb_eq. reflexivity. Qed.

Lemma key_eqb_sym (a b : option string) : key_eqb a b = key_eqb b a.
Proof. destruct a, b; cbn; try reflexivity. apply String.eqb_sym. Qed.

Lemma rateLimit_stored (now : Z) (ip : option string) (m : Counts) :
  let recent := filter (fun time => (now - time <? windowMs)%Z) (stored m ip) in
  forall k,
    stored (snd (rateLimit now ip m)) k
    = if key_eqb k ip
      then if (maxRequests <=? List.length recent)%nat then stored m ip
           else (recent ++ [now])%list
      else stored m k.
Proof.
  cbv zeta. intros k. unfold rateLimit, stored.
  destruct (m ip) as [l|] eqn:E.
  - rewrite E.
    destruct (maxRequests <=? _)%nat; cbn [snd].
    + destruct (key_eqb k ip) eqn:K; [|reflexivity].
      apply key_eqb_eq in K. subst k. rewrite E. reflexivity.
    + unfold set. destruct (key_eqb k ip); reflexivity.
  - unfold set. rewrite !key_eqb_refl. cbn [filter List.length app].
    change (maxRequests <=? 0)%nat with false. cbn [snd].
    destruct (key_eqb k ip) eqn:K; reflexivity.
Qed.

Lemma rateLimit_answer (now : Z) (ip : option string) (m : Counts) :
  fst (rateLimit now ip m)
  = if (maxRequests
        <=? List.length (filter (fun time => (now - time <? windowMs)%Z) (stored m ip)))%nat
    then TooManyRequests (windowMs / 1000)
    else Next.
Proof.
  unfold rateLimit, stored.
  destruct (m ip) as [l|] eqn:E.
  - rewrite E. destruct (maxRequests <=? _)%nat; reflexivity.
  - unfold set. rewrite !key_eqb_refl. reflexivity.
Qed.

Lemma serve_cons (now : Z) (ip : option string) (rest : list (Z * option string))
    (m : Counts) :
  serve ((now, ip) :: rest) m
  = (mkServed now ip (fst (rateLimit now ip m))
       :: fst (serve rest (snd (rateLimit now ip m))),
     snd (serve rest (snd (rateLimit now ip m)))).
Proof.
  cbn [serve]. destruct (rateLimit now ip m) as [a m1]. cbn [fst snd].
  destruct (serve rest m1) as [served final]. reflexivity.
Qed.

(** Whatever requests are served, from the empty map on, the server keeps at
    most a hundred times for a client. *)
Theorem rateLimit_keeps_a_hundred (requests : list (Z * option string))
    (ip : option string) (times : list Z) :
  snd (serve requests empty) ip = Some times ->
  List.length times <= 100.
Proof.
  assert (G : forall reqs m,
             (forall k, List.length (stored m k) <= 100) ->
             forall k, List.length (stored (snd (serve reqs m)) k) <= 100).
  { induction reqs as [|[now key] rest IH]; intros m H k; [apply H|].
    rewrite serve_cons. cbn [snd]. apply IH. clear k. intros k.
    rewrite rateLimit_stored.
    destruct (key_eqb k key); [|apply H].
    destruct (maxRequests <=? _)%nat eqn:L; [apply H|].
    apply Nat.leb_gt in L. rewrite length_app. cbn [List.length].
    unfold maxRequests in L. lia. }
  intros E. specialize (G requests empty (fun k => Nat.le_0_l 100) ip).
  unfold stored in G. rewrite E in G. exact G.
Qed.

Lemma rateLimit_keeps_a_hundred_witness :
  List.length [1000%Z; 2000%Z] <= 100.
Proof.
  apply (rateLimit_keeps_a_hundred
           [(1000%Z, Some "10.0.0.7"); (1500%Z, None); (2000%Z, Some "10.0.0.7")]
           (Some "10.0.0.7") [1000%Z; 2000%Z]).
  reflexivity.
Defined.

Lemma filter_filter_window (now t : Z) (l : list Z) :
  (now <= t)%Z ->
  filter (fun x => (t - x <? windowMs)%Z) (filter (fun x => (now - x <? windowMs)%Z) l)
  = filter (fun x => (t - x <? windowMs)%Z) l.
Proof.
  intros H. induction l as [|x l IH]; [reflexivity|]. cbn [filter].
  destruct (now - x <? windowMs)%Z eqn:A; cbn [filter].
  - rewrite IH. reflexivity.
  - rewrite IH. destruct (t - x <? windowMs)%Z eqn:B; [|reflexivity].
    apply Z.ltb_lt in B. apply Z.ltb_ge in A. lia.
Qed.

Lemma handed_on_app (ip : option string) (t : Z) (a b : list Served) :
  handed_on ip t (a ++ b) = (handed_on ip t a ++ handed_on ip t b)%list.
Proof. unfold handed_on. apply filter_app. Qed.

(** While the clock does not go back, the times stored for a client and the
    requests of the client that were handed on agree on every window that
    ends now or later. *)
Lemma serve_window (requests : list (Z * option string)) :
  forall (m : Counts) (before : list Served) (last : Z),
    clock_steady last requests ->
    (forall k t, (last <= t)%Z ->
       filter (fun x => (t - x <? windowMs)%Z) (stored m k)
       = map at_time (handed_on k t before)) ->
    forall pre r post,
      fst (serve requests m) = (pre ++ r :: post)%list ->
      answer r = Next ->
      List.length (handed_on (client r) (at_time r) (before ++ pre ++ [r])) <= 100.
Proof.
  induction requests as [|[now key] rest IH]; intros m before last Hclock Hinv pre r post E Hr.
  - destruct pre; discriminate E.
  - destruct Hclock as [Hnow Hclock].
    rewrite serve_cons in E. cbn [fst] in E.
    set (recent := filter (fun time => (now - time <? windowMs)%Z) (stored m key)) in *.
    pose proof (rateLimit_answer now key m) as Ha. fold recent in Ha.
    pose proof (rateLimit_stored now key m) as Hs. cbv zeta in Hs. fold recent in Hs.
    set (a := fst (rateLimit now key m)) in *.
    set (m1 := snd (rateLimit now key m)) in *.
    destruct pre as [|r0 pre].
    + (* the request at hand is the first one *)
      cbn [app] in E. injection E as <- _.
      cbn [answer] in Hr. cbn [client at_time app].
      rewrite Hr in Ha.
      destruct (maxRequests <=? List.length recent)%nat eqn:L; [discriminate Ha|].
      apply Nat.leb_gt in L.
      rewrite handed_on_app, length_app.
      assert (Hrec : List.length (handed_on key now before) = List.length recent).
      { unfold recent. rewrite (Hinv key now Hnow), length_map. reflexivity. }
      rewrite Hrec.
      assert (Hone : List.length (handed_on key now [mkServed now key a]) <= 1)
        by (unfold handed_on; apply (filter_length_le _ [mkServed now key a])).
      unfold maxRequests in L. rewrite app_nil_l. lia.
    + cbn [app] in E. injection E as <- E.
      replace (before ++ (mkServed now key a :: pre) ++ [r])%list
        with ((before ++ [mkServed now key a]) ++ pre ++ [r])%list
        by (rewrite <- app_assoc; reflexivity).
      apply (IH m1 (before ++ [mkServed now key a])%list now Hclock) with (post := post);
        [|exact E|exact Hr].
      intros k t Ht. rewrite Hs, handed_on_app, map_app.
      unfold handed_on at 2. cbn [filter client answer at_time].
      rewrite (key_eqb_sym key k).
      destruct (key_eqb k key) eqn:K.
      * apply key_eqb_eq in K. subst k. rewrite Ha.
        destruct (maxRequests <=? List.length recent)%nat.
        -- cbn [is_next andb map]. rewrite app_nil_r. apply Hinv. lia.
        -- cbn [is_next andb]. rewrite filter_app. unfold recent.
           rewrite (filter_filter_window now t _ Ht), (Hinv key t ltac:(lia)).
           cbn [filter]. destruct (t - now <? windowMs)%Z; reflexivity.
      * cbn [andb map]. rewrite app_nil_r. apply Hinv. lia.
Qed.

(** While the clock of the server does not go back, no client gets more
    than a hundred requests through within a quarter of an hour: when a
    request is handed on, it is at most the hundredth that was handed on for
    its client less than 900000 ms before. *)
Theorem rateLimit_a_hundred_per_window (requests : list (Z * option string))
    (first : Z) (pre post : list Served) (r : Served) :
  clock_steady first requests ->
  fst (serve requests empty) = (pre ++ r :: post)%list ->
  answer r = Next ->
  List.length (handed_on (client r) (at_time r) (pre ++ [r])) <= 100.
Proof.
  intros Hclock E Hr.
  apply (serve_window requests empty [] first Hclock) with (post := post);
    [|exact E|exact Hr].
  intros k t _. reflexivity.
Qed.

Lemma rateLimit_a_hundred_per_window_witness :
  List.length
    (handed_on (Some "10.0.0.7") 2000
       [mkServed 1000 (Some "10.0.0.7") Next; mkServed 1500 None Next;
        mkServed 2000 (Some "10.0.0.7") Next]) <= 100.
Proof.
  apply (rateLimit_a_hundred_per_window
           [(1000%Z, Some "10.0.0.7"); (1500%Z, None); (2000%Z, Some "10.0.0.7")]
           0%Z
           [mkServed 1000 (Some "10.0.0.7") Next; mkServed 1500 None Next]
           []
           (mkServed 2000 (Some "10.0.0.7") Next)).
  - cbn. lia.
  - reflexivity.
  - reflexivity.
Defined.
